(** * oca-proxy: a shallow embedding of the token, PKCE, model-resolution
      and stream-transcoding logic, with the properties proved about it.

    The development follows the TypeScript sources:
    - [src/auth.ts]   PKCE helpers, the PKCE state table, [TokenManager];
    - [src/config.ts] [loadProxyConfig] and the refresh-token file;
    - [src/index.ts]  [resolveModelMapping], the [/callback] handler,
                      [anthropicToOpenAI], [streamAnthropicResponse] and the
                      non-streaming aggregation of [POST /v1/messages].

    Conventions.
    - A JavaScript string is a Rocq [string]; text outside ASCII is held in
      its UTF-8 encoding, so a [Buffer] is a [string] of raw bytes too and
      [Buffer.prototype.toString] is the UTF-8 decoder [Buffer.toString].
    - [undefined]/[null] are [None]; JavaScript truthiness is written out
      ([Js.truthy], [Js.truthyZ]).
    - Values have their declared TypeScript types ([TokenData],
      [ProxyConfig], the replies of the identity provider); of a request
      body, which has none, a handler's tests are written out.
    - Numbers are integer-valued; a [Date] is its time value or invalid
      ([Js.Date]).
    - [Date.now()], random bytes and network replies are inputs.
    - [JSON.parse] and [JSON.stringify] are section variables, and so is
      the hash in the PKCE definitions; [Sha256.sha256] is SHA-256 itself,
      for the examples.
    - File-system calls succeed: the token file is an [option string]. *)

From Stdlib Require Import ZArith NArith Strings.String Strings.Ascii Lia List Bool.
From stdpp Require Import base option gmap strings list.

Open Scope string_scope.
Open Scope list_scope.

(** ** JavaScript primitives used by the sources *)
Module Js.

(** [!!s] for a string: only the empty string is falsy. *)
Definition truthy (s : string) : bool :=
  match s with EmptyString => false | String _ _ => true end.

(** [!!o] for [string | undefined | null]. *)
Definition truthy_opt (o : option string) : bool :=
  match o with Some s => truthy s | None => false end.

(** [!!n] for an integer-valued number: only [0] is falsy. *)
Definition truthyZ (n : Z) : bool := negb (n =? 0)%Z.

(** [a || b] on strings. *)
Definition or_else (o : option string) (d : string) : string :=
  match o with
  | Some s => if truthy s then s else d
  | None => d
  end.

(** [n || d] on integer-valued numbers. *)
Definition or_elseZ (o : option Z) (d : Z) : Z :=
  match o with
  | Some n => if truthyZ n then n else d
  | None => d
  end.

(** [s.startsWith(p)]. *)
Fixpoint startsWith (s p : string) {struct p} : bool :=
  match p with
  | EmptyString => true
  | String c p' =>
      match s with
      | String d s' => Ascii.eqb c d && startsWith s' p'
      | EmptyString => false
      end
  end.

(** [s.slice(n)] for [0 <= n]. *)
Fixpoint slice_from (n : nat) (s : string) : string :=
  match n, s with
  | O, _ => s
  | S n', String _ s' => slice_from n' s'
  | S _, EmptyString => EmptyString
  end.

(** [s.slice(0, n)]. *)
Fixpoint slice_to (n : nat) (s : string) : string :=
  match n, s with
  | S n', String c s' => String c (slice_to n' s')
  | _, _ => EmptyString
  end.

Definition newline : ascii := ascii_of_nat 10.

(** [s.split("\n")]: never empty; the last element is the text after the
    last newline. *)
Fixpoint split (s : string) : list string :=
  match s with
  | EmptyString => [EmptyString]
  | String c s' =>
      if Ascii.eqb c newline then EmptyString :: split s'
      else match split s' with
           | h :: t => String c h :: t
           | [] => [String c EmptyString]
           end
  end.

(** [parts.join(sep)]. *)
Definition join (sep : string) (parts : list string) : string :=
  String.concat sep parts.

(** [Math.min] on integer-valued numbers. *)
Definition Math_min (a b : Z) : Z := Z.min a b.

(** A [Date]: its time value in milliseconds, or an invalid date, whose
    time value is [NaN]. *)
Inductive Date :=
| date (ms : Z)
| invalid_date.

(** The largest time value: 100,000,000 days from the epoch. *)
Definition MAX_TIME : Z := 8640000000000000.

(** [new Date(ms)]: beyond [MAX_TIME] on either side the date is invalid. *)
Definition Date_new (ms : Z) : Date :=
  if (Z.abs ms <=? MAX_TIME)%Z then date ms else invalid_date.

(** [d.getTime()]; [None] is [NaN]. *)
Definition getTime (d : Date) : option Z :=
  match d with
  | date ms => Some ms
  | invalid_date => None
  end.

(** Clock values for which the double-precision sum
    [Date.now() + expiresIn * 1000] and the integer sum agree wherever the
    date is valid: from the epoch to [2^53 - MAX_TIME] ms. *)
Definition clock (now : Z) : Prop := (0 ≤ now ≤ 367199254740992)%Z.

End Js.

(** ** String search, and the properties every object has *)
Module JsText.

(** [s.includes(sub)]. *)
Fixpoint includes (s sub : string) : bool :=
  Js.startsWith s sub ||
  match s with
  | EmptyString => false
  | String _ s' => includes s' sub
  end.

(** The names every object literal and every [JSON.parse]d object inherits
    from [Object.prototype]: [table[name]] finds them although the table
    has no such entry of its own. *)
Definition inherited : list string :=
  [ "constructor"; "__defineGetter__"; "__defineSetter__"; "hasOwnProperty";
    "__lookupGetter__"; "__lookupSetter__"; "isPrototypeOf";
    "propertyIsEnumerable"; "toString"; "valueOf"; "__proto__";
    "toLocaleString" ].

Definition is_inherited (name : string) : bool :=
  existsb (String.eqb name) inherited.

End JsText.

(** ** Configuration ([src/config.ts]) *)
Module Config.

(** [interface ModelMapping]. *)
Record ModelMapping := {
  target : string;
  reasoning_effort : option string
}.

(** A value of [Record<string, string | ModelMapping>]. *)
Inductive MappingEntry :=
| MapsTo (t : string)
| MapsToObj (m : ModelMapping).

(** [interface RawConfig] and [interface ProxyConfig] have the same fields. *)
Record ProxyConfig := {
  log_level : option string;
  model_mapping : option (gmap string MappingEntry);
  default_model : option string;
  default_reasoning_effort : option string;
  base_url : option string;
  idcs_url : option string;
  port : option Z
}.

(** [loadProxyConfig], given what [readUserConfig] returned.  The object
    literal it builds has no [default_reasoning_effort] property. *)
Definition loadProxyConfig (cfg : ProxyConfig) : ProxyConfig :=
  {| log_level := Some (Js.or_else (log_level cfg) "INFO");
     model_mapping := Some (default ∅ (model_mapping cfg));
     default_model := default_model cfg;
     default_reasoning_effort := None;
     base_url := base_url cfg;
     idcs_url := idcs_url cfg;
     port := port cfg |}.

End Config.

(** ** Model resolution ([resolveModelMapping] in [src/index.ts]) *)
Module ModelResolver.
Import Config.

Definition DEFAULT_OCA_MODEL : string := "oca/gpt-4.1".

(** The returned object [{ model, reasoning_effort? }]; [model] is
    [undefined] when it was read off a value that has no [target]. *)
Record Resolved := {
  model : option string;
  effort : option string
}.

(** What [table[key]] finds: a property of the table's own, or one every
    object inherits (a method of [Object.prototype], or for ["__proto__"]
    the prototype itself). *)
Inductive Property :=
| Own (e : MappingEntry)
| Inherited.

(** [table[key]]. *)
Definition get (table : gmap string MappingEntry) (key : string)
    : option Property :=
  match table !! key with
  | Some e => Some (Own e)
  | None => if JsText.is_inherited key then Some Inherited else None
  end.

(** [if (mapping)]: [undefined] and the empty string are falsy, objects
    and functions are truthy. *)
Definition truthy_entry (o : option Property) : bool :=
  match o with
  | None => false
  | Some (Own (MapsTo t)) => Js.truthy t
  | Some (Own (MapsToObj _)) => true
  | Some Inherited => true
  end.

Definition resolveModelMapping (proxyConfig : ProxyConfig)
    (requestModel : string) : Resolved :=
  if Js.startsWith requestModel "oca/" then
    {| model := Some requestModel; effort := None |}
  else
    let mapping := model_mapping proxyConfig ≫= (λ m, get m requestModel) in
    let fallback :=
      {| model := Some (Js.or_else (default_model proxyConfig) DEFAULT_OCA_MODEL);
         effort := default_reasoning_effort proxyConfig |} in
    if truthy_entry mapping then
      match mapping with
      | Some (Own (MapsTo t)) => {| model := Some t; effort := None |}
      | Some (Own (MapsToObj m)) =>
          {| model := Some (target m); effort := reasoning_effort m |}
      | Some Inherited =>
          (* not a string: [mapping.target] and [mapping.reasoning_effort],
             which an inherited value does not have *)
          {| model := None; effort := None |}
      | None => fallback
      end
    else fallback.

End ModelResolver.

(** ** Request transcoding ([anthropicToOpenAI] in [src/index.ts]) *)
Module RequestTranscoder.
Import Config ModelResolver.

Section Transcode.
(** Opaque JSON payloads (tool inputs and schemas) and the platform
    functions applied to them. *)
Variable Json : Type.
Variable JSON_stringify : Json → string.
Variable json_truthy : Json → bool.
Variable empty_object : Json.
(** Numbers that are only copied ([temperature], [top_p]). *)
Variable Num : Type.

(** A block of an Anthropic [content] or [system] array. *)
Inductive Block :=
| TextBlock (text : option string)
| ToolUse (id name : option string) (input : option Json)
| ToolResult (tool_use_id content : option string)
| OtherBlock (type : string).

Inductive Content :=
| Flat (s : string)
| Blocks (bs : list Block).

Record Message := { role : string; content : Content }.

Record Tool := {
  name : option string;
  description : option string;
  input_schema : option Json
}.

Inductive ToolChoice :=
| ChoiceStr (s : string)
| ChoiceObj (type name : option string).

Record Body := {
  system : option Content;
  messages : option (list Message);
  model : option string;
  tools : option (list Tool);
  tool_choice : option ToolChoice;
  max_tokens : option Z;
  temperature : option Num;
  top_p : option Num
}.

(** The upstream (OpenAI chat-completions) request. *)
Record ToolCall := {
  call_id : option string;
  call_name : option string;
  call_arguments : string
}.

Record OutMessage := {
  out_role : string;
  out_content : option string;
  out_tool_calls : option (list ToolCall);
  out_tool_call_id : option string
}.

Record OutTool := {
  fn_name : option string;
  fn_description : string;
  fn_parameters : Json
}.

Inductive OutToolChoice :=
| ForcedFunction (name : option string)
| ChoiceAuto
| ChoiceRequired.

Record OpenAIRequest := {
  o_model : option string;
  o_messages : list OutMessage;
  o_stream : bool;
  o_reasoning_effort : option string;
  o_tools : option (list OutTool);
  o_tool_choice : option OutToolChoice;
  o_max_tokens : option Z;
  o_temperature : option Num;
  o_top_p : option Num
}.

(** [.filter(c => c.type === "text").map(c => c.text || "")]. *)
Definition textsOf (bs : list Block) : list string :=
  omap (λ b, match b with
             | TextBlock t => Some (Js.or_else t "")
             | _ => None
             end) bs.

Definition toolCallsOf (bs : list Block) : list ToolCall :=
  omap (λ b, match b with
             | ToolUse i n inp =>
                 let v := match inp with
                          | Some j => if json_truthy j then j else empty_object
                          | None => empty_object
                          end in
                 Some {| call_id := i; call_name := n;
                         call_arguments := JSON_stringify v |}
             | _ => None
             end) bs.

Definition toolResultsOf (bs : list Block) : list OutMessage :=
  omap (λ b, match b with
             | ToolResult i c =>
                 Some {| out_role := "tool"; out_content := Some (Js.or_else c "");
                         out_tool_calls := None; out_tool_call_id := i |}
             | _ => None
             end) bs.

(** The body of [for (const msg of body.messages || [])]: the entries one
    message appends to [messages]. *)
Definition convertMessage (msg : Message) : list OutMessage :=
  match content msg with
  | Blocks bs =>
      let textParts := textsOf bs in
      let toolCalls := toolCallsOf bs in
      let c := match textParts with [] => None | _ => Some (Js.join " " textParts) end in
      let tc := match toolCalls with [] => None | _ => Some toolCalls end in
      toolResultsOf bs ++
      (if Js.truthy_opt c || bool_decide (is_Some tc)
       then [{| out_role := role msg; out_content := c;
                out_tool_calls := tc; out_tool_call_id := None |}]
       else [])
  | Flat s =>
      [{| out_role := role msg; out_content := Some s;
          out_tool_calls := None; out_tool_call_id := None |}]
  end.

Definition systemMessage (sys : option Content) : list OutMessage :=
  match sys with
  | Some (Flat s) =>
      if Js.truthy s
      then [{| out_role := "system"; out_content := Some s;
               out_tool_calls := None; out_tool_call_id := None |}]
      else []
  | Some (Blocks bs) =>
      [{| out_role := "system"; out_content := Some (Js.join " " (textsOf bs));
          out_tool_calls := None; out_tool_call_id := None |}]
  | None => []
  end.

Definition convertTool (t : Tool) : OutTool :=
  {| fn_name := name t;
     fn_description := Js.or_else (description t) "";
     fn_parameters := match input_schema t with
                      | Some j => if json_truthy j then j else empty_object
                      | None => empty_object
                      end |}.

Definition convertToolChoice (tc : ToolChoice) : option OutToolChoice :=
  match tc with
  | ChoiceObj (Some "tool") n => Some (ForcedFunction n)
  | ChoiceObj _ _ => None
  | ChoiceStr s =>
      if String.eqb s "auto" then Some ChoiceAuto
      else if String.eqb s "any" then Some ChoiceRequired
      else None
  end.

(** [if (body.tool_choice)]: an object is truthy, a string unless empty. *)
Definition truthy_choice (tc : ToolChoice) : bool :=
  match tc with ChoiceStr s => Js.truthy s | ChoiceObj _ _ => true end.

Definition MAX_TOKENS_CEILING : Z := 16384.

Definition anthropicToOpenAI (proxyConfig : ProxyConfig) (body : Body)
    : OpenAIRequest :=
  let messages :=
    systemMessage (system body) ++
    concat (map convertMessage (default [] (messages body))) in
  let resolved :=
    resolveModelMapping proxyConfig
      (Js.or_else (model body) "claude-3-5-sonnet-20241022") in
  {| o_model := ModelResolver.model resolved;
     o_messages := messages;
     o_stream := true;
     o_reasoning_effort :=
       if Js.truthy_opt (effort resolved) then effort resolved else None;
     o_tools := map convertTool <$> tools body;
     o_tool_choice :=
       match tools body, tool_choice body with
       | Some _, Some tc => if truthy_choice tc then convertToolChoice tc else None
       | _, _ => None
       end;
     o_max_tokens :=
       match max_tokens body with
       | Some n =>
           if Js.truthyZ n then Some (Js.Math_min n MAX_TOKENS_CEILING) else None
       | None => None
       end;
     o_temperature := temperature body;
     o_top_p := top_p body |}.

End Transcode.

Arguments TextBlock {Json} _.
Arguments ToolUse {Json} _ _ _.
Arguments ToolResult {Json} _ _.
Arguments OtherBlock {Json} _.
Arguments Flat {Json} _.
Arguments Blocks {Json} _.

End RequestTranscoder.

(** ** Node's [crypto] and [URLSearchParams], as far as [src/auth.ts] uses them *)
Module Node.

(** A source of random bytes: byte [i] of everything still to be drawn. *)
Definition Entropy := nat → ascii.

Fixpoint take_bytes (n : nat) (g : Entropy) : string :=
  match n with
  | O => EmptyString
  | S n' => String (g O) (take_bytes n' (λ i, g (S i)))
  end.

(** The source once [n] bytes have been drawn. *)
Definition advance (n : nat) (g : Entropy) : Entropy := λ i, g (n + i)%nat.

(** [crypto.randomBytes(n)]: the next [n] bytes, and the source after them. *)
Definition randomBytes (n : nat) (g : Entropy) : string * Entropy :=
  (take_bytes n g, advance n g).

Definition base64url_alphabet : string :=
  "ABCDEFGHIJKLMNOPQRSTUVWXYZabcdefghijklmnopqrstuvwxyz0123456789-_".

(** The character of a six-bit value. *)
Definition b64_char (v : N) : ascii :=
  match String.get (N.to_nat v) base64url_alphabet with
  | Some c => c
  | None => "A"%char
  end.

(** [buf.toString("base64url")]: three bytes give four characters, a tail of
    one or two bytes gives two or three, and no padding is written. *)
Fixpoint base64url (bs : string) : string :=
  match bs with
  | String a (String b (String c rest)) =>
      let x := N_of_ascii a in
      let y := N_of_ascii b in
      let z := N_of_ascii c in
      String (b64_char (x / 4))
        (String (b64_char ((x mod 4) * 16 + y / 16))
           (String (b64_char ((y mod 16) * 4 + z / 64))
              (String (b64_char (z mod 64)) (base64url rest))))
  | String a (String b EmptyString) =>
      let x := N_of_ascii a in
      let y := N_of_ascii b in
      String (b64_char (x / 4))
        (String (b64_char ((x mod 4) * 16 + y / 16))
           (String (b64_char ((y mod 16) * 4)) EmptyString))
  | String a EmptyString =>
      let x := N_of_ascii a in
      String (b64_char (x / 4))
        (String (b64_char ((x mod 4) * 16)) EmptyString)
  | EmptyString => EmptyString
  end%N.

Definition hex_digit (v : N) : ascii :=
  match String.get (N.to_nat v) "0123456789ABCDEF" with
  | Some c => c
  | None => "0"%char
  end.

(** Bytes the [application/x-www-form-urlencoded] serializer leaves as they
    are: ASCII letters and digits and [*-._]. *)
Definition form_safe (c : ascii) : bool :=
  let n := N_of_ascii c in
  ((48 <=? n) && (n <=? 57) || (65 <=? n) && (n <=? 90) ||
   (97 <=? n) && (n <=? 122) ||
   (n =? 42) || (n =? 45) || (n =? 46) || (n =? 95))%N.

Fixpoint form_encode (s : string) : string :=
  match s with
  | EmptyString => EmptyString
  | String c s' =>
      if form_safe c then String c (form_encode s')
      else if Ascii.eqb c " "%char then String "+"%char (form_encode s')
      else
        let n := N_of_ascii c in
        String "%"%char
          (String (hex_digit (n / 16)) (String (hex_digit (n mod 16)) (form_encode s')))
  end%N.

(** [new URLSearchParams({...}).toString()], the pairs in insertion order. *)
Definition URLSearchParams_toString (params : list (string * string)) : string :=
  Js.join "&" (map (λ kv, form_encode kv.1 +:+ "=" +:+ form_encode kv.2) params).

End Node.

(** ** PKCE ([src/auth.ts]) *)
Module Pkce.
Import Config.

(** [interface PkceState]. *)
Record PkceState := {
  code_verifier : string;
  nonce : string;
  redirect_uri : string;
  created_at : Z
}.

(** [OCA_CONFIG], computed from the user configuration. *)
Record OcaConfig := {
  client_id : string;
  oca_idcs_url : string;
  scopes : string;
  oca_base_url : string
}.

Definition OCA_CONFIG (userConfig : ProxyConfig) : OcaConfig :=
  {| client_id := "a8331954c0cf48ba99b5dd223a14c6ea";
     oca_idcs_url :=
       Js.or_else (idcs_url userConfig)
         "https://idcs-9dc693e80d9b469480d7afe00e743931.identity.oraclecloud.com";
     scopes := "openid offline_access";
     oca_base_url :=
       Js.or_else (base_url userConfig)
         "https://code-internal.aiservice.us-chicago-1.oci.oraclecloud.com/20250206/app/litellm" |}.

Section Flow.
(** [crypto.createHash("sha256").update(s).digest()]: the 32-byte digest. *)
Variable sha256 : string → string.

Definition generateCodeVerifier (g : Node.Entropy) : string * Node.Entropy :=
  let '(bytes, g') := Node.randomBytes 96 g in
  (Node.base64url bytes, g').

Definition generateCodeChallenge (verifier : string) : string :=
  Node.base64url (sha256 verifier).

Definition generateRandomString (length : nat) (g : Node.Entropy)
    : string * Node.Entropy :=
  let '(bytes, g') := Node.randomBytes length g in
  (Js.slice_to length (Node.base64url bytes), g').

Definition TTL_MS : Z := 10 * 60 * 1000.

(** [cleanupExpiredStates] at [Date.now() = now]. *)
Definition cleanupExpiredStates (now : Z) (pkceStates : gmap string PkceState)
    : gmap string PkceState :=
  let cutoff := (now - TTL_MS)%Z in
  filter (λ kv, ¬ (created_at kv.2 < cutoff)%Z) pkceStates.

(** The query parameters of the authorization URL, in insertion order. *)
Definition authParams (cfg : OcaConfig) (redirectUri state nonce codeChallenge : string)
    : list (string * string) :=
  [ ("client_id", client_id cfg);
    ("response_type", "code");
    ("scope", scopes cfg);
    ("redirect_uri", redirectUri);
    ("state", state);
    ("nonce", nonce);
    ("code_challenge", codeChallenge);
    ("code_challenge_method", "S256") ].

(** What one call of [createAuthUrl] produces. *)
Record Created := {
  url : string;
  new_state : string;
  new_session : PkceState;
  states_after : gmap string PkceState;
  entropy_after : Node.Entropy
}.

(** [createAuthUrl(redirectUri)]; [now_sweep] and [now_store] are the two
    readings of [Date.now()], in [cleanupExpiredStates] and at the store. *)
Definition createAuthUrl (cfg : OcaConfig) (redirectUri : string)
    (now_sweep now_store : Z) (g : Node.Entropy)
    (pkceStates : gmap string PkceState) : Created :=
  let swept := cleanupExpiredStates now_sweep pkceStates in
  let '(codeVerifier, g1) := generateCodeVerifier g in
  let codeChallenge := generateCodeChallenge codeVerifier in
  let '(state, g2) := generateRandomString 32 g1 in
  let '(nonce, g3) := generateRandomString 32 g2 in
  let session :=
    {| code_verifier := codeVerifier; nonce := nonce;
       redirect_uri := redirectUri; created_at := now_store |} in
  {| url := oca_idcs_url cfg +:+ "/oauth2/v1/authorize?" +:+
            Node.URLSearchParams_toString
              (authParams cfg redirectUri state nonce codeChallenge);
     new_state := state;
     new_session := session;
     states_after := <[state := session]> swept;
     entropy_after := g3 |}.

Definition getPkceState (state : string) (pkceStates : gmap string PkceState)
    : option PkceState :=
  pkceStates !! state.

Definition removePkceState (state : string) (pkceStates : gmap string PkceState)
    : gmap string PkceState :=
  delete state pkceStates.

End Flow.
End Pkce.

(** ** The token manager ([class TokenManager] in [src/auth.ts])

    Node runs one task at a time, so each stretch of code between two
    [await]s is one atomic step.  The world holds the manager's fields, the
    token file, every [doRefreshToken] activation that is waiting for the
    network, the promises already settled, and a log of the requests sent. *)
Module Auth.

Record TokenManager := {
  refreshToken : option string;
  accessToken : option string;
  tokenExpiry : option Js.Date;
  refreshPromise : option nat        (* the promise, by identity *)
}.

(** What an axios rejection (or any thrown value) shows to the [catch]
    block: [err.response?.status], [err.response?.data.error],
    [err.message]. *)
Record Failure := {
  status : option Z;
  error_code : option string;
  message : option string
}.

Inductive Reply (A : Type) :=
| Ok (a : A)
| Err (e : Failure).
Arguments Ok {A} _.
Arguments Err {A} _.

(** [discovery.data] and [response.data]. *)
Record Discovery := { token_endpoint : string }.

Record TokenResponse := {
  access_token : option string;
  expires_in : option Z;
  refresh_token : option string
}.

Inductive Request :=
| GetDiscovery
| PostRefresh (endpoint refresh : string).

(** Where an activation of [doRefreshToken] is suspended. *)
Inductive Phase :=
| AwaitDiscovery
| AwaitPost.

(** How a promise settles. *)
Inductive Result :=
| Resolved (token : string)
| Rejected (msg : string).

(** What one call of [getToken] does before it first suspends. *)
Inductive Outcome :=
| Throws (msg : string)
| Returns (token : string)
| Awaits (p : nat).

Record World := {
  tm : TokenManager;
  tokenFile : option string;         (* [refresh_token] in TOKEN_FILE *)
  pending : gmap nat Phase;
  settled : gmap nat Result;
  nextPromise : nat;
  network : list Request;            (* oldest first *)
  calls : list (nat * Outcome)       (* [getToken] calls, oldest first *)
}.

Definition with_tm (w : World) (t : TokenManager) : World :=
  {| tm := t; tokenFile := tokenFile w; pending := pending w;
     settled := settled w; nextPromise := nextPromise w;
     network := network w; calls := calls w |}.

(** [new TokenManager()]; [file] is what [loadRefreshToken] returns: the
    [refresh_token] of the [TokenData] in the token file, or [null] when
    there is no file or it cannot be read. *)
Definition new_TokenManager (file : option string) : TokenManager :=
  {| refreshToken := file; accessToken := None; tokenExpiry := None;
     refreshPromise := None |}.

Definition isAuthenticated (t : TokenManager) : bool :=
  bool_decide (refreshToken t ≠ None).

Definition setRefreshToken (token : string) (w : World) : World :=
  {| tm := {| refreshToken := Some token; accessToken := None;
              tokenExpiry := None; refreshPromise := refreshPromise (tm w) |};
     tokenFile := Some token; pending := pending w; settled := settled w;
     nextPromise := nextPromise w; network := network w; calls := calls w |}.

Definition clearAuth (w : World) : World :=
  {| tm := {| refreshToken := None; accessToken := None;
              tokenExpiry := None; refreshPromise := refreshPromise (tm w) |};
     tokenFile := None; pending := pending w; settled := settled w;
     nextPromise := nextPromise w; network := network w; calls := calls w |}.

Definition NOT_AUTHENTICATED : string :=
  "Not authenticated. Please visit /login to authenticate with OCA.".
Definition MISSING_REFRESH_TOKEN : string :=
  "Not authenticated. Missing refresh token.".
Definition REFRESH_TOKEN_EXPIRED : string :=
  "Refresh token expired. Please visit /login to re-authenticate.".
Definition REFRESH_FAILED (e : Failure) : string :=
  "Failed to refresh OCA access token: " +:+ Js.or_else (message e) "unknown error".

(** [this.accessToken && this.tokenExpiry], a [Date] being truthy even
    when it is invalid, and then the test of the five-minute buffer,
    [(expiry.getTime() - now) / 1000 > 300], which is false of [NaN]. *)
Definition cachedTokenValid (t : TokenManager) (now : Z) : bool :=
  Js.truthy_opt (accessToken t) &&
  match tokenExpiry t with
  | Some expiry =>
      match Js.getTime expiry with
      | Some ms => (300 * 1000 <? ms - now)%Z
      | None => false
      end
  | None => false
  end.

(** The promise [p] settles; the [finally] of the [getToken] call that
    started it then clears [refreshPromise]. *)
Definition settle (p : nat) (r : Result) (w : World) : World :=
  {| tm := {| refreshToken := refreshToken (tm w); accessToken := accessToken (tm w);
              tokenExpiry := tokenExpiry (tm w); refreshPromise := None |};
     tokenFile := tokenFile w;
     pending := delete p (pending w);
     settled := <[p := r]> (settled w);
     nextPromise := nextPromise w; network := network w; calls := calls w |}.

(** [status === 400 && (error === "invalid_grant" || error === "invalid_token")]. *)
Definition refreshTokenRejected (e : Failure) : bool :=
  bool_decide (status e = Some 400%Z) &&
  (bool_decide (error_code e = Some "invalid_grant") ||
   bool_decide (error_code e = Some "invalid_token")).

(** The [catch] block of [doRefreshToken]. *)
Definition doRefreshToken_catch (p : nat) (e : Failure) (w : World) : World :=
  if refreshTokenRejected e
  then settle p (Rejected REFRESH_TOKEN_EXPIRED) (clearAuth w)
  else settle p (Rejected (REFRESH_FAILED e)) w.

(** [doRefreshToken] up to its first [await]: the discovery request. *)
Definition doRefreshToken_start (w : World) : nat * World :=
  let p := nextPromise w in
  (p, {| tm := tm w; tokenFile := tokenFile w;
         pending := <[p := AwaitDiscovery]> (pending w);
         settled := settled w; nextPromise := S p;
         network := network w ++ [GetDiscovery]; calls := calls w |}).

(** From the discovery reply to the second [await]. *)
Definition doRefreshToken_discovered (p : nat) (r : Reply Discovery) (w : World)
    : World :=
  match r with
  | Ok discovery =>
      match refreshToken (tm w) with
      | Some refresh =>
          if Js.truthy refresh then
            {| tm := tm w; tokenFile := tokenFile w;
               pending := <[p := AwaitPost]> (pending w);
               settled := settled w; nextPromise := nextPromise w;
               network := network w ++ [PostRefresh (token_endpoint discovery) refresh];
               calls := calls w |}
          else doRefreshToken_catch p
                 {| status := None; error_code := None;
                    message := Some MISSING_REFRESH_TOKEN |} w
      | None => doRefreshToken_catch p
                  {| status := None; error_code := None;
                     message := Some MISSING_REFRESH_TOKEN |} w
      end
  | Err e => doRefreshToken_catch p e w
  end.

(** From the token reply to the end; [now] is [Date.now()] there. *)
Definition doRefreshToken_refreshed (p : nat) (r : Reply TokenResponse) (now : Z)
    (w : World) : World :=
  match r with
  | Ok data =>
      let expiresIn := Js.or_elseZ (expires_in data) 3600 in
      let rotate :=
        Js.truthy_opt (refresh_token data) &&
        bool_decide (refresh_token data ≠ refreshToken (tm w)) in
      let w1 :=
        {| tm := {| refreshToken :=
                      if rotate then refresh_token data else refreshToken (tm w);
                    accessToken := access_token data;
                    tokenExpiry := Some (Js.Date_new (now + expiresIn * 1000));
                    refreshPromise := refreshPromise (tm w) |};
           tokenFile :=
             if rotate then Some (Js.or_else (refresh_token data) "")
             else tokenFile w;
           pending := pending w; settled := settled w;
           nextPromise := nextPromise w; network := network w;
           calls := calls w |} in
      settle p (Resolved (Js.or_else (access_token data) "")) w1
  | Err e => doRefreshToken_catch p e w
  end.

(** [getToken()] up to its first [await], called at [Date.now() = now]. *)
Definition getToken (now : Z) (w : World) : Outcome * World :=
  if negb (Js.truthy_opt (refreshToken (tm w))) then (Throws NOT_AUTHENTICATED, w)
  else if cachedTokenValid (tm w) now
  then (Returns (Js.or_else (accessToken (tm w)) ""), w)
  else
    match refreshPromise (tm w) with
    | Some p => (Awaits p, w)
    | None =>
        let '(p, w1) := doRefreshToken_start w in
        (Awaits p,
         with_tm w1 {| refreshToken := refreshToken (tm w1);
                       accessToken := accessToken (tm w1);
                       tokenExpiry := tokenExpiry (tm w1);
                       refreshPromise := Some p |})
    end.

(** The steps of the event loop that touch the manager. *)
Inductive Event :=
| GetToken (caller : nat) (now : Z)
| DiscoveryReply (p : nat) (r : Reply Discovery)
| TokenReply (p : nat) (r : Reply TokenResponse) (now : Z)
| SetRefreshToken (token : string)
| ClearAuth.

Definition step (e : Event) (w : World) : World :=
  match e with
  | GetToken c now =>
      let '(o, w1) := getToken now w in
      {| tm := tm w1; tokenFile := tokenFile w1; pending := pending w1;
         settled := settled w1; nextPromise := nextPromise w1;
         network := network w1; calls := calls w1 ++ [(c, o)] |}
  | DiscoveryReply p r =>
      match pending w !! p with
      | Some AwaitDiscovery => doRefreshToken_discovered p r w
      | _ => w
      end
  | TokenReply p r now =>
      match pending w !! p with
      | Some AwaitPost => doRefreshToken_refreshed p r now w
      | _ => w
      end
  | SetRefreshToken token => setRefreshToken token w
  | ClearAuth => clearAuth w
  end.

Definition run (es : list Event) (w : World) : World :=
  foldl (λ w e, step e w) w es.

(** What the promise returned by a [getToken] call settles to, if it has. *)
Definition delivered (w : World) (o : Outcome) : option Result :=
  match o with
  | Throws msg => Some (Rejected msg)
  | Returns token => Some (Resolved token)
  | Awaits p => settled w !! p
  end.

(** The world of a freshly started process. *)
Definition boot (file : option string) : World :=
  {| tm := new_TokenManager file; tokenFile := file; pending := ∅;
     settled := ∅; nextPromise := O; network := []; calls := [] |}.

Definition isDiscovery (r : Request) : bool :=
  match r with GetDiscovery => true | PostRefresh _ _ => false end.

(** Activations of [doRefreshToken] so far: each sends one discovery request. *)
Definition discoveries (w : World) : nat :=
  length (List.filter isDiscovery (network w)).

(** Refresh-token grants posted so far. *)
Definition refreshPosts (w : World) : nat :=
  length (List.filter (λ r, negb (isDiscovery r)) (network w)).

End Auth.

(** ** The OAuth callback ([GET /callback] in [src/index.ts]) *)
Module Callback.
Import Pkce Auth.

(** [req.query], as far as the handler reads it. *)
Record Query := {
  q_code : option string;
  q_state : option string;
  q_error : option string
}.

(** The pages the handler can send. *)
Inductive Response :=
| OAuthError              (* 400, "Authentication Failed", [error] echoed *)
| InvalidCallback         (* 400, "Missing code or state parameter" *)
| InvalidOrExpiredState   (* 400, "Invalid or expired state" *)
| NoRefreshToken          (* 500, "No refresh token received" *)
| TokenExchangeFailed     (* 500, "Token exchange failed" *)
| LoginSuccessful.        (* 200 *)

Definition statusCode (r : Response) : Z :=
  match r with
  | OAuthError | InvalidCallback | InvalidOrExpiredState => 400
  | NoRefreshToken | TokenExchangeFailed => 500
  | LoginSuccessful => 200
  end.

(** The arguments of the [exchangeCodeForTokens] call the handler awaits. *)
Record Exchange := {
  x_code : string;
  x_code_verifier : string;
  x_redirect_uri : string
}.

(** The handler from "Retrieve PKCE state" to its [await]: the session of
    [state] is looked up and, when there is one, taken out of the table
    before the exchange starts. *)
Definition consumeCallback (state code : string)
    (pkceStates : gmap string PkceState)
    : (Response + Exchange) * gmap string PkceState :=
  match getPkceState state pkceStates with
  | None => (inl InvalidOrExpiredState, pkceStates)
  | Some pkceData =>
      (inr {| x_code := code;
              x_code_verifier := code_verifier pkceData;
              x_redirect_uri := redirect_uri pkceData |},
       removePkceState state pkceStates)
  end.

(** The whole handler up to its [await]: a page is sent at once, or the
    exchange is under way. *)
Definition callback_begin (q : Query) (pkceStates : gmap string PkceState)
    : (Response + Exchange) * gmap string PkceState :=
  if Js.truthy_opt (q_error q) then (inl OAuthError, pkceStates)
  else
    match q_code q, q_state q with
    | Some code, Some state =>
        if negb (Js.truthy code) || negb (Js.truthy state)
        then (inl InvalidCallback, pkceStates)
        else consumeCallback state code pkceStates
    | _, _ => (inl InvalidCallback, pkceStates)
    end.

(** The handler after the [await], given how the exchange ended. *)
Definition callback_finish (r : Reply TokenResponse) (w : World)
    : Response * World :=
  match r with
  | Ok tokens =>
      match refresh_token tokens with
      | Some t =>
          if Js.truthy t then (LoginSuccessful, setRefreshToken t w)
          else (NoRefreshToken, w)
      | None => (NoRefreshToken, w)
      end
  | Err _ => (TokenExchangeFailed, w)
  end.

End Callback.

(** ** [Buffer.prototype.toString()] *)
Module Buffer.

(** U+FFFD in UTF-8. *)
Definition REPLACEMENT : string :=
  String (ascii_of_N 239) (String (ascii_of_N 191) (String (ascii_of_N 189) EmptyString)).

(** A multi-byte sequence that has begun: its bytes so far, how many
    continuation bytes are missing, and the range allowed for the next. *)
Record Partial := {
  seen : string;
  needed : nat;
  lower : N;
  upper : N
}.

Definition lead (c : ascii) : option Partial :=
  let b := N_of_ascii c in
  let start n lo hi :=
    Some {| seen := String c EmptyString; needed := n; lower := lo; upper := hi |} in
  (if (194 <=? b) && (b <=? 223) then start 1%nat 128 191
   else if b =? 224 then start 2%nat 160 191
   else if b =? 237 then start 2%nat 128 159
   else if (225 <=? b) && (b <=? 239) then start 2%nat 128 191
   else if b =? 240 then start 3%nat 144 191
   else if b =? 244 then start 3%nat 128 143
   else if (241 <=? b) && (b <=? 243) then start 3%nat 128 191
   else None)%N.

(** The byte [c] read when no sequence is open: what is written, and the
    sequence it opens. *)
Definition first_byte (c : ascii) : string * option Partial :=
  if (N_of_ascii c <=? 127)%N then (String c EmptyString, None)
  else match lead c with
       | Some p => (EmptyString, Some p)
       | None => (REPLACEMENT, None)
       end.

(** The UTF-8 decoder of the Encoding Standard, with replacement: a
    well-formed sequence is kept, every ill-formed or cut-off one becomes
    U+FFFD. *)
Fixpoint decode (st : option Partial) (bs : string) : string :=
  match bs with
  | EmptyString =>
      match st with Some _ => REPLACEMENT | None => EmptyString end
  | String c rest =>
      match st with
      | None =>
          let '(out, st') := first_byte c in out +:+ decode st' rest
      | Some p =>
          let b := N_of_ascii c in
          if ((lower p <=? b) && (b <=? upper p))%N then
            match needed p with
            | S (S k) =>
                decode (Some {| seen := seen p +:+ String c EmptyString;
                                needed := S k; lower := 128; upper := 191 |}) rest
            | _ => seen p +:+ String c (decode None rest)
            end
          else
            let '(out, st') := first_byte c in
            REPLACEMENT +:+ out +:+ decode st' rest
      end
  end.

(** [chunk.toString()]: each chunk is decoded on its own. *)
Definition toString (chunk : string) : string := decode None chunk.

End Buffer.

(** ** The upstream chat-completion chunk, as the transcoders read it *)
Module Upstream.

Record FunctionDelta := {
  fn_name : option string;
  fn_arguments : option string
}.

Record ToolCallDelta := {
  tc_id : option string;
  tc_function : option FunctionDelta
}.

Record Delta := {
  content : option string;
  tool_calls : option (list ToolCallDelta)
}.

Record Choice := {
  delta : option Delta;
  finish_reason : option string
}.

Record Usage := {
  prompt_tokens : option Z;
  completion_tokens : option Z
}.

Record Chunk := {
  choices : list Choice;
  usage : option Usage
}.

End Upstream.

(** ** Streaming transcoder ([streamAnthropicResponse] in [src/index.ts]) *)
Module Stream.
Import Upstream.

(** The events written to the client; each stands for the string
    ["event: <type>\ndata: <json>\n\n"] the generator yields. *)
Inductive Event :=
| message_start (id model : string)
| content_block_start_text (index : nat)
| content_block_start_tool_use (index : nat) (id name : string)
| text_delta (index : nat) (text : string)
| input_json_delta (index : nat) (partial_json : string)
| content_block_stop (index : nat)
| message_delta (stop_reason : string) (output_tokens : Z)
| message_stop.

Record ToolCallAcc := {
  acc_id : string;
  acc_name : string;
  acc_input : string
}.

(** The generator's local variables, apart from [buffer]. *)
Record State := {
  contentBlockIndex : nat;
  textBlockStarted : bool;
  currentToolCall : option ToolCallAcc
}.

Definition initial : State :=
  {| contentBlockIndex := 0; textBlockStarted := false; currentToolCall := None |}.

(** The body of [for (const toolCallDelta of delta.tool_calls)]. *)
Definition handleToolCall (st : State) (toolCallDelta : ToolCallDelta)
    : State * list Event :=
  let functionData :=
    default {| fn_name := None; fn_arguments := None |} (tc_function toolCallDelta) in
  let '(st1, ev1) :=
    match tc_id toolCallDelta with
    | Some toolCallId =>
        if Js.truthy toolCallId then
          let '(idx, closing) :=
            if textBlockStarted st
            then (S (contentBlockIndex st), [content_block_stop (contentBlockIndex st)])
            else (contentBlockIndex st, []) in
          let name := Js.or_else (fn_name functionData) "" in
          ({| contentBlockIndex := idx; textBlockStarted := false;
              currentToolCall :=
                Some {| acc_id := toolCallId; acc_name := name; acc_input := "" |} |},
           closing ++ [content_block_start_tool_use idx toolCallId name])
        else (st, [])
    | None => (st, [])
    end in
  match fn_arguments functionData, currentToolCall st1 with
  | Some args, Some cur =>
      if Js.truthy args then
        ({| contentBlockIndex := contentBlockIndex st1;
            textBlockStarted := textBlockStarted st1;
            currentToolCall :=
              Some {| acc_id := acc_id cur; acc_name := acc_name cur;
                      acc_input := acc_input cur +:+ args |} |},
         ev1 ++ [input_json_delta (contentBlockIndex st1) args])
      else (st1, ev1)
  | _, _ => (st1, ev1)
  end.

Fixpoint handleToolCalls (st : State) (tcs : list ToolCallDelta)
    : State * list Event :=
  match tcs with
  | [] => (st, [])
  | tc :: rest =>
      let '(st1, ev1) := handleToolCall st tc in
      let '(st2, ev2) := handleToolCalls st1 rest in
      (st2, ev1 ++ ev2)
  end.

(** [tool_calls -> tool_use], [stop -> end_turn], anything else as it is. *)
Definition mapFinishReason (r : string) : string :=
  if String.eqb r "tool_calls" then "tool_use"
  else if String.eqb r "stop" then "end_turn"
  else r.

(** The [try] block, once [JSON.parse] has succeeded. *)
Definition handleData (st : State) (data : Chunk) : State * list Event :=
  let choice := head (choices data) in
  let delta := choice ≫= delta in
  let '(st1, ev1) :=
    match delta ≫= tool_calls with
    | Some tcs => handleToolCalls st tcs
    | None =>
        match delta ≫= content with
        | Some text =>
            if Js.truthy text then
              ({| contentBlockIndex := contentBlockIndex st;
                  textBlockStarted := true;
                  currentToolCall := currentToolCall st |},
               (if textBlockStarted st then []
                else [content_block_start_text (contentBlockIndex st)]) ++
               [text_delta (contentBlockIndex st) text])
            else (st, [])
        | None => (st, [])
        end
    end in
  match choice ≫= finish_reason with
  | Some reason =>
      if Js.truthy reason then
        (st1, ev1 ++
              [content_block_stop (contentBlockIndex st1);
               message_delta (mapFinishReason reason)
                 (Js.or_elseZ (usage data ≫= completion_tokens) 0);
               message_stop])
      else (st1, ev1)
  | None => (st1, ev1)
  end.

Section Transcoder.
(** [JSON.parse] followed by reading the result as a chunk; [None] when
    it throws. *)
Variable JSON_parse : string → option Chunk.

(** The body of [for (const line of lines)]; the flag says that the
    generator returned. *)
Definition handleLine (st : State) (line : string)
    : State * list Event * bool :=
  if negb (Js.truthy line) || Js.startsWith line ":" then (st, [], false)
  else if negb (Js.startsWith line "data: ") then (st, [], false)
  else
    let dataStr := Js.slice_from 6 line in
    if String.eqb dataStr "[DONE]" then (st, [message_stop], true)
    else
      match JSON_parse dataStr with
      | Some data => let '(st1, ev) := handleData st data in (st1, ev, false)
      | None => (st, [], false)
      end.

Fixpoint handleLines (st : State) (lines : list string)
    : State * list Event * bool :=
  match lines with
  | [] => (st, [], false)
  | line :: rest =>
      let '(st1, ev1, returned) := handleLine st line in
      if returned then (st1, ev1, true)
      else
        let '(st2, ev2, returned2) := handleLines st1 rest in
        (st2, ev1 ++ ev2, returned2)
  end.

(** [for await (const chunk of openaiStream)], from the local variables
    [st] and [buffer]: everything yielded from here on. *)
Fixpoint consume (st : State) (buffer : string) (chunks : list string)
    : list Event :=
  match chunks with
  | [] => []
  | chunk :: rest =>
      let lines := Js.split (buffer +:+ Buffer.toString chunk) in
      let buffer' := List.last lines "" in
      let '(st1, ev, returned) := handleLines st (List.removelast lines) in
      if returned then ev else ev ++ consume st1 buffer' rest
  end.

Definition streamAnthropicResponse (openaiStream : list string)
    (messageId modelName : string) : list Event :=
  message_start messageId modelName :: consume initial "" openaiStream.

End Transcoder.
End Stream.

(** ** Non-streaming aggregation ([POST /v1/messages] in [src/index.ts]) *)
Module Aggregate.
Import Upstream.

(** The handler's local variables, apart from [buffer]. *)
Record Acc := {
  fullContent : string;
  finishReason : string;
  promptTokens : Z;
  completionTokens : Z
}.

Definition initial : Acc :=
  {| fullContent := ""; finishReason := "end_turn";
     promptTokens := 0; completionTokens := 0 |}.

(** The [try] block, once [JSON.parse] has succeeded. *)
Definition collectData (a : Acc) (data : Chunk) : Acc :=
  let choice := head (choices data) in
  let a1 :=
    match (choice ≫= delta) ≫= content with
    | Some text =>
        if Js.truthy text
        then {| fullContent := fullContent a +:+ text; finishReason := finishReason a;
                promptTokens := promptTokens a; completionTokens := completionTokens a |}
        else a
    | None => a
    end in
  let a2 :=
    match choice ≫= finish_reason with
    | Some reason =>
        if Js.truthy reason
        then {| fullContent := fullContent a1;
                finishReason := if String.eqb reason "stop" then "end_turn" else reason;
                promptTokens := promptTokens a1; completionTokens := completionTokens a1 |}
        else a1
    | None => a1
    end in
  match usage data with
  | Some u =>
      {| fullContent := fullContent a2; finishReason := finishReason a2;
         promptTokens := Js.or_elseZ (prompt_tokens u) 0;
         completionTokens := Js.or_elseZ (completion_tokens u) 0 |}
  | None => a2
  end.

(** The message sent with [res.json]. *)
Inductive ContentBlock := text_block (text : string).

Record AnthropicMessage := {
  id : string;
  role : string;
  content : list ContentBlock;
  model : string;
  stop_reason : string;
  input_tokens : Z;
  output_tokens : Z
}.

Section Collector.
Variable JSON_parse : string → option Chunk.

(** [for (const line of lines)]; [break] leaves this loop only. *)
Fixpoint collectLines (a : Acc) (lines : list string) : Acc :=
  match lines with
  | [] => a
  | line :: rest =>
      if negb (Js.startsWith line "data: ") then collectLines a rest
      else
        let dataStr := Js.slice_from 6 line in
        if String.eqb dataStr "[DONE]" then a
        else
          match JSON_parse dataStr with
          | Some data => collectLines (collectData a data) rest
          | None => collectLines a rest
          end
  end.

(** [for await (const chunk of response.data)]. *)
Fixpoint collect (a : Acc) (buffer : string) (chunks : list string) : Acc :=
  match chunks with
  | [] => a
  | chunk :: rest =>
      let lines := Js.split (buffer +:+ Buffer.toString chunk) in
      collect (collectLines a (List.removelast lines)) (List.last lines "") rest
  end.

Definition aggregateResponse (stream : list string) (messageId modelName : string)
    : AnthropicMessage :=
  let a := collect initial "" stream in
  {| id := messageId; role := "assistant";
     content := [text_block (fullContent a)];
     model := modelName;
     stop_reason := finishReason a;
     input_tokens := promptTokens a;
     output_tokens := completionTokens a |}.

End Collector.
End Aggregate.

(** ** SHA-256 (FIPS 180-4), for [crypto.createHash("sha256")]

    The PKCE definitions take the hash as a parameter; this instance lets
    the known verifier and challenge pairs be evaluated. *)
Module Sha256.
Open Scope N_scope.

Definition w32 (x : N) : N := x mod 0x100000000.

Definition add32 (x y : N) : N := w32 (x + y).

Definition rotr (n x : N) : N :=
  N.lor (N.shiftr x n) (w32 (N.shiftl x (32 - n))).

Definition Ch (x y z : N) : N := N.lxor (N.land x y) (N.land (N.lxor x 0xffffffff) z).
Definition Maj (x y z : N) : N :=
  N.lxor (N.lxor (N.land x y) (N.land x z)) (N.land y z).
Definition Sigma0 (x : N) : N := N.lxor (N.lxor (rotr 2 x) (rotr 13 x)) (rotr 22 x).
Definition Sigma1 (x : N) : N := N.lxor (N.lxor (rotr 6 x) (rotr 11 x)) (rotr 25 x).
Definition sigma0 (x : N) : N := N.lxor (N.lxor (rotr 7 x) (rotr 18 x)) (N.shiftr x 3).
Definition sigma1 (x : N) : N := N.lxor (N.lxor (rotr 17 x) (rotr 19 x)) (N.shiftr x 10).

(** The round constants: the first 32 bits of the fractional parts of the
    cube roots of the first 64 primes. *)
Definition K : list N :=
  [
    1116352408; 1899447441; 3049323471; 3921009573; 961987163;
    1508970993; 2453635748; 2870763221; 3624381080; 310598401;
    607225278; 1426881987; 1925078388; 2162078206; 2614888103;
    3248222580; 3835390401; 4022224774; 264347078; 604807628;
    770255983; 1249150122; 1555081692; 1996064986; 2554220882;
    2821834349; 2952996808; 3210313671; 3336571891; 3584528711;
    113926993; 338241895; 666307205; 773529912; 1294757372;
    1396182291; 1695183700; 1986661051; 2177026350; 2456956037;
    2730485921; 2820302411; 3259730800; 3345764771; 3516065817;
    3600352804; 4094571909; 275423344; 430227734; 506948616;
    659060556; 883997877; 958139571; 1322822218; 1537002063;
    1747873779; 1955562222; 2024104815; 2227730452; 2361852424;
    2428436474; 2756734187; 3204031479; 3329325298
  ].

(** The initial hash value: the same of the square roots of the first 8
    primes. *)
Definition H0 : list N :=
  [
    1779033703; 3144134277; 1013904242; 2773480762;
    1359893119; 2600822924; 528734635; 1541459225
  ].

(** The message followed by [0x80], zeros up to 56 modulo 64, and its
    length in bits on eight bytes. *)
Definition pad (msg : list N) : list N :=
  let len := length msg in
  let zeros := ((119 - len mod 64) mod 64)%nat in
  let bits := N.of_nat len * 8 in
  msg ++ [0x80] ++ repeat 0 zeros ++
  map (λ i, N.shiftr bits (8 * N.of_nat i) mod 256) (rev (seq 0 8)).

(** Big-endian words of a byte list. *)
Fixpoint words (bs : list N) : list N :=
  match bs with
  | a :: b :: c :: d :: rest =>
      (a * 0x1000000 + b * 0x10000 + c * 0x100 + d) :: words rest
  | _ => []
  end.

Definition bytes_of_word (x : N) : list N :=
  [ N.shiftr x 24 mod 256; N.shiftr x 16 mod 256; N.shiftr x 8 mod 256; x mod 256 ].

(** The message schedule, newest word first: [n] more words are added. *)
Fixpoint schedule (n : nat) (ws : list N) : list N :=
  match n with
  | O => ws
  | S n' =>
      let w := add32 (add32 (sigma1 (nth 1 ws 0)) (nth 6 ws 0))
                     (add32 (sigma0 (nth 14 ws 0)) (nth 15 ws 0)) in
      schedule n' (w :: ws)
  end.

Definition round (st : list N) (kw : N * N) : list N :=
  match st with
  | [a; b; c; d; e; f; g; h] =>
      let t1 := add32 (add32 (add32 h (Sigma1 e)) (add32 (Ch e f g) kw.1)) kw.2 in
      let t2 := add32 (Sigma0 a) (Maj a b c) in
      [add32 t1 t2; a; b; c; add32 d t1; e; f; g]
  | _ => st
  end.

Definition compress (h : list N) (block : list N) : list N :=
  let ws := rev (schedule 48 (rev (words block))) in
  let st := foldl round h (zip K ws) in
  zip_with add32 h st.

Fixpoint blocks (n : nat) (bs : list N) : list (list N) :=
  match n with
  | O => []
  | S n' => firstn 64 bs :: blocks n' (skipn 64 bs)
  end.

Definition digest (msg : list N) : list N :=
  let padded := pad msg in
  let h := foldl compress H0 (blocks (length padded / 64) padded) in
  flat_map bytes_of_word h.

Close Scope N_scope.

Definition sha256 (msg : string) : string :=
  string_of_list_ascii
    (map ascii_of_N (digest (map N_of_ascii (list_ascii_of_string msg)))).

End Sha256.

(** ** Vocabulary of the statements, and inputs for the examples *)
Module Spec.
Import Config ModelResolver.

(** The entry of [requestModel] in the mapping table. *)
Definition entryOf (cfg : ProxyConfig) (requestModel : string)
    : option MappingEntry :=
  model_mapping cfg ≫= (λ m, m !! requestModel).

(** What step 3 of the resolution returns. *)
Definition fallbackOf (cfg : ProxyConfig) : Resolved :=
  {| model := Some (Js.or_else (default_model cfg) "oca/gpt-4.1");
     effort := default_reasoning_effort cfg |}.

(** The configuration has a mapping table, as every configuration built
    by [loadProxyConfig] has. *)
Definition has_table (cfg : ProxyConfig) : Prop :=
  is_Some (model_mapping cfg).

(** [table[requestModel]] finds a value that is no entry of the table:
    there is a table, it has no entry of its own under that name, and the
    name is one every object inherits. *)
Definition finds_inherited (cfg : ProxyConfig) (requestModel : string) : Prop :=
  has_table cfg ∧ entryOf cfg requestModel = None ∧
  JsText.is_inherited requestModel = true.

(** A configuration with nothing set. *)
Definition empty_config : ProxyConfig :=
  {| log_level := None; model_mapping := None;
     default_model := None; default_reasoning_effort := None;
     base_url := None; idcs_url := None; port := None |}.

(** A configuration file that names a default model and a default
    reasoning effort, and no mapping. *)
Definition llama_high : ProxyConfig :=
  {| log_level := None; model_mapping := None;
     default_model := Some "oca/llama4"; default_reasoning_effort := Some "high";
     base_url := None; idcs_url := None; port := None |}.

(** A request in which only [max_tokens] is set. *)
Definition request_with_max_tokens (n : Z) : RequestTranscoder.Body unit unit :=
  {| RequestTranscoder.system := None; RequestTranscoder.messages := None;
     RequestTranscoder.model := None; RequestTranscoder.tools := None;
     RequestTranscoder.tool_choice := None;
     RequestTranscoder.max_tokens := Some n;
     RequestTranscoder.temperature := None; RequestTranscoder.top_p := None |}.

(** A callback that carries a code and a state, and no [error]. *)
Definition callback_query (state code : string) : Callback.Query :=
  {| Callback.q_code := Some code; Callback.q_state := Some state;
     Callback.q_error := None |}.

(** The requests that change the PKCE state table. *)
Inductive TableOp :=
| Login (redirectUri : string) (now_sweep now_store : Z) (g : Node.Entropy)
| CallbackRequest (q : Callback.Query).

(** The state a login stores its session under. *)
Definition stateOf (g : Node.Entropy) : string :=
  (Pkce.generateRandomString 32 (Node.advance 96 g)).1.

Section Table.
Variable sha256 : string → string.
Variable cfg : Pkce.OcaConfig.

Definition table_step (states : gmap string Pkce.PkceState) (op : TableOp)
    : gmap string Pkce.PkceState :=
  match op with
  | Login uri t1 t2 g => Pkce.states_after (Pkce.createAuthUrl sha256 cfg uri t1 t2 g states)
  | CallbackRequest q => (Callback.callback_begin q states).2
  end.

Definition table_run (states : gmap string Pkce.PkceState) (ops : list TableOp)
    : gmap string Pkce.PkceState :=
  foldl table_step states ops.

End Table.

(** A login that stores its session under [s]. *)
Definition creates (s : string) (op : TableOp) : Prop :=
  match op with
  | Login _ _ _ g => stateOf g = s
  | CallbackRequest _ => False
  end.

(** A login on the default port. *)
Definition local_callback : string := "http://localhost:8669/callback".

(** Entropy sources for the examples: all zero, and zero but for byte [k]. *)
Definition zeros : Node.Entropy := λ _, zero.
Definition one_at (k : nat) : Node.Entropy :=
  λ i, if Nat.eqb i k then one else zero.

End Spec.

(** ** Decoding, to state what the encoders keep *)
Module Decode.

(** The six-bit value of a character of the URL-safe alphabet. *)
Definition b64_val (c : ascii) : N :=
  let n := N_of_ascii c in
  (if (65 <=? n) && (n <=? 90) then n - 65
   else if (97 <=? n) && (n <=? 122) then n - 71
   else if (48 <=? n) && (n <=? 57) then n + 4
   else if n =? 45 then 62
   else 63)%N.

(** The inverse of [Node.base64url] on its image. *)
Fixpoint base64url_decode (s : string) : string :=
  match s with
  | String a (String b (String c (String d rest))) =>
      let p := b64_val a in
      let q := b64_val b in
      let r := b64_val c in
      let t := b64_val d in
      String (ascii_of_N (p * 4 + q / 16))
        (String (ascii_of_N ((q mod 16) * 16 + r / 4))
           (String (ascii_of_N ((r mod 4) * 64 + t)) (base64url_decode rest)))
  | String a (String b (String c EmptyString)) =>
      let p := b64_val a in
      let q := b64_val b in
      let r := b64_val c in
      String (ascii_of_N (p * 4 + q / 16))
        (String (ascii_of_N ((q mod 16) * 16 + r / 4)) EmptyString)
  | String a (String b EmptyString) =>
      let p := b64_val a in
      let q := b64_val b in
      String (ascii_of_N (p * 4 + q / 16)) EmptyString
  | _ => EmptyString
  end%N.

End Decode.

(** ** Vocabulary for the token manager *)
Module AuthSpec.
Import Auth.

(** No refresh is outstanding. *)
Definition idle (w : World) : Prop :=
  refreshPromise (tm w) = None ∧ pending w = ∅.

(** One refresh is outstanding: the activation [p], waiting in phase [ph],
    and [refreshPromise] is its promise. *)
Definition outstanding (w : World) (p : nat) (ph : Phase) : Prop :=
  refreshPromise (tm w) = Some p ∧ pending w = {[p := ph]}.

(** At most one refresh is outstanding, and [refreshPromise] says which. *)
Definition coherent (w : World) : Prop :=
  idle w ∨ ∃ p ph, outstanding w p ph.

(** What a trace of calls made while [p] is outstanding adds to [calls]. *)
Definition awaiting (p : nat) (cs : list nat) : list (nat * Outcome) :=
  map (λ c, (c, Awaits p)) cs.

(** The callers of the [getToken] calls of a trace, in order. *)
Definition callers (es : list Event) : list nat :=
  omap (λ e, match e with GetToken c _ => Some c | _ => None end) es.

(** What can happen before an outstanding refresh settles, in the scenario
    of concurrent calls: [getToken] is called, at [now0] or later, and the
    discovery document arrives. *)
Definition concurrent (now0 : Z) (e : Event) : Prop :=
  match e with
  | GetToken _ now => (now0 ≤ now)%Z
  | DiscoveryReply _ (Ok _) => True
  | _ => False
  end.

(** The event is the reply that settles the activation [p], in the phase
    [p] waits in: a failed discovery, or any answer to the token request. *)
Definition settles (w : World) (p : nat) (e : Event) : Prop :=
  match e with
  | DiscoveryReply p' (Err _) => p' = p ∧ pending w !! p = Some AwaitDiscovery
  | TokenReply p' _ _ => p' = p ∧ pending w !! p = Some AwaitPost
  | _ => False
  end.

(** The event is the failure [f] reaching the activation [p]. *)
Definition fails_with (w : World) (p : nat) (e : Event) (f : Failure) : Prop :=
  (e = DiscoveryReply p (Err f) ∧ pending w !! p = Some AwaitDiscovery) ∨
  (∃ now, e = TokenReply p (Err f) now ∧ pending w !! p = Some AwaitPost).

(** HTTP 400 with error code [invalid_grant] or [invalid_token]. *)
Definition token_rejected (f : Failure) : Prop :=
  status f = Some 400%Z ∧
  (error_code f = Some "invalid_grant" ∨ error_code f = Some "invalid_token").

(** Refresh-token grants an activation waiting in phase [ph] has posted. *)
Definition posted (ph : Phase) : nat :=
  match ph with AwaitDiscovery => 0 | AwaitPost => 1 end.

(** The events of a trace after its first [getToken] call. *)
Fixpoint after_first_call (es : list Event) : list Event :=
  match es with
  | [] => []
  | GetToken _ _ :: rest => rest
  | _ :: rest => after_first_call rest
  end.

(** The discovery document the activation [p] receives in a trace: that
    of the first discovery reply addressed to it, if that reply is no
    failure. *)
Fixpoint discovery_for (p : nat) (es : list Event) : option Discovery :=
  match es with
  | [] => None
  | DiscoveryReply p' r :: rest =>
      if decide (p' = p)
      then match r with Ok d => Some d | Err _ => None end
      else discovery_for p rest
  | _ :: rest => discovery_for p rest
  end.

(** The refresh-token grant for the refresh token [rt], posted to the
    token endpoint of the discovery document once it has arrived. *)
Definition grant (rt : string) (d : option Discovery) : list Request :=
  match d with
  | Some d => [PostRefresh (token_endpoint d) rt]
  | None => []
  end.

(** The requests of one refresh: the discovery request, then the grant. *)
Definition refresh_requests (rt : string) (d : option Discovery) : list Request :=
  GetDiscovery :: grant rt d.

(** Where a refresh waits: for the discovery document, or, once it has
    arrived, for the answer to the grant. *)
Definition phase_after (d : option Discovery) : Phase :=
  match d with Some _ => AwaitPost | None => AwaitDiscovery end.

(** A process that found a refresh token in its token file. *)
Definition logged_in (token : string) : World := boot (Some token).

(** Replies for the examples. *)
Definition discovery_doc : Discovery :=
  {| token_endpoint := "https://idcs.example/oauth2/v1/token" |}.

Definition fresh_tokens : TokenResponse :=
  {| access_token := Some "at-1"; expires_in := Some 3600%Z;
     refresh_token := Some "rt-2" |}.

(** A reply whose [expires_in], 100,000,000 days, puts the expiry beyond
    the last instant a [Date] can hold. *)
Definition endless_tokens : TokenResponse :=
  {| access_token := Some "at-1"; expires_in := Some 8640000000000%Z;
     refresh_token := None |}.

Definition invalid_grant : Failure :=
  {| status := Some 400%Z; error_code := Some "invalid_grant";
     message := Some "Request failed with status code 400" |}.

Definition bad_gateway : Failure :=
  {| status := Some 502%Z; error_code := None;
     message := Some "Request failed with status code 502" |}.

(** Three callers while the refresh is on its way; the discovery document
    arrives between the second and the third. *)
Definition three_callers : list Event :=
  [ GetToken 1 0; GetToken 2 5; DiscoveryReply 0 (Ok discovery_doc); GetToken 3 9 ].

End AuthSpec.

(** ** Vocabulary for the transcoders *)
Module Wire.
Import Upstream.

(** The complete lines of a text, and the partial line after them. *)
Definition complete (text : string) : list string :=
  List.removelast (Js.split text).

Definition partial (text : string) : string :=
  List.last (Js.split text) "".

(** The text the consumer has seen once every chunk has been decoded. *)
Definition decoded (chunks : list string) : string :=
  String.concat "" (map Buffer.toString chunks).

(** A text without a newline: one line. *)
Fixpoint one_line (s : string) : bool :=
  match s with
  | EmptyString => true
  | String c s' => negb (Ascii.eqb c Js.newline) && one_line s'
  end.

(** A byte string of ASCII characters only. *)
Fixpoint ascii_only (s : string) : bool :=
  match s with
  | EmptyString => true
  | String c s' => (N_of_ascii c <=? 127)%N && ascii_only s'
  end.

Definition nl : string := String Js.newline EmptyString.

(** The SSE framing of the upstream: ["data: <payload>\n\n"]. *)
Definition sse (payload : string) : string :=
  "data: " +:+ payload +:+ nl +:+ nl.

(** A stream of payloads, closed by the [[DONE]] line. *)
Definition wire (payloads : list string) : string :=
  String.concat "" (map sse payloads) +:+ sse "[DONE]".

(** The payload of a data line. *)
Definition data_payload (line : string) : option string :=
  if Js.startsWith line "data: " then Some (Js.slice_from 6 line) else None.

Definition is_done (line : string) : bool :=
  match data_payload line with
  | Some p => String.eqb p "[DONE]"
  | None => false
  end.

(** The lines up to the first [[DONE]] line, and the lines after it. *)
Fixpoint before_done (lines : list string) : list string :=
  match lines with
  | [] => []
  | l :: rest => if is_done l then [] else l :: before_done rest
  end.

Fixpoint after_done (lines : list string) : list string :=
  match lines with
  | [] => []
  | l :: rest => if is_done l then rest else after_done rest
  end.

(** [[DONE]] ends the data: no data line comes after it. *)
Definition done_is_last (lines : list string) : Prop :=
  Forall (λ l, data_payload l = None) (after_done lines).

(** What a parsed chunk holds for the aggregate. *)
Definition content_of (c : Chunk) : string :=
  default "" ((head (choices c) ≫= delta) ≫= content).

Definition finish_of (c : Chunk) : option string :=
  match head (choices c) ≫= finish_reason with
  | Some r => if Js.truthy r then Some r else None
  | None => None
  end.

(** The events of a whole text: those of its complete lines. *)
Definition events_of_text (JSON_parse : string → option Chunk)
    (st : Stream.State) (text : string) : list Stream.Event :=
  (Stream.handleLines JSON_parse st (complete text)).1.2.

(** The lines of a framed stream of payloads. *)
Definition framed_lines (payloads : list string) : list string :=
  flat_map (λ p, ["data: " +:+ p; ""]) payloads.

(** A text in which every ['] stands for a double quote. *)
Fixpoint json_text (s : string) : string :=
  match s with
  | EmptyString => EmptyString
  | String c s' =>
      String (if Ascii.eqb c "'"%char then ascii_of_nat 34 else c) (json_text s')
  end.

(** The payload of a delta that carries [text]. *)
Definition content_payload (text : string) : string :=
  json_text "{'choices':[{'delta':{'content':'" +:+ text +:+ json_text "'}}]}".

(** [é] and U+FFFD in UTF-8. *)
Definition e_acute : string :=
  String (ascii_of_N 195) (String (ascii_of_N 169) EmptyString).

(** The event [sse (content_payload e_acute)], cut between the two bytes
    of [é]. *)
Definition cut_chunk1 : string :=
  "data: " +:+ json_text "{'choices':[{'delta':{'content':'" +:+
  String (ascii_of_N 195) EmptyString.

Definition cut_chunk2 : string :=
  String (ascii_of_N 169) (json_text "'}}]}" +:+ nl +:+ nl).

(** The chunks the data lines before [[DONE]] parse to. *)
Definition payload_chunks (JSON_parse : string → option Chunk)
    (lines : list string) : list Chunk :=
  omap JSON_parse (omap data_payload (before_done lines)).

Definition has_done (lines : list string) : bool := existsb is_done lines.

(** The lines the aggregating handler reads: of every batch of complete
    lines, those before a [[DONE]] line. *)
Fixpoint lines_read (buffer : string) (chunks : list string) : list string :=
  match chunks with
  | [] => []
  | chunk :: rest =>
      let text := buffer +:+ Buffer.toString chunk in
      before_done (complete text) ++ lines_read (partial text) rest
  end.

(** The chunks it reads: those of the data lines read that parse. *)
Definition chunks_read (JSON_parse : string → option Chunk)
    (chunks : list string) : list Chunk :=
  omap JSON_parse (omap data_payload (lines_read "" chunks)).

(** The text and the stop reason of the aggregate of a list of chunks. *)
Definition aggregate_text (cs : list Chunk) : string :=
  String.concat "" (map content_of cs).

Definition aggregate_stop (cs : list Chunk) : string :=
  match last (omap finish_of cs) with
  | Some r => if String.eqb r "stop" then "end_turn" else r
  | None => "end_turn"
  end.

(** Chunks for the examples. *)
Definition text_chunk (t : string) : Chunk :=
  {| choices := [{| delta := Some {| content := Some t; tool_calls := None |};
                    finish_reason := None |}];
     usage := None |}.

Definition finish_chunk (r : string) : Chunk :=
  {| choices := [{| delta := Some {| content := None; tool_calls := None |};
                    finish_reason := Some r |}];
     usage := None |}.

Definition tool_start_chunk (id name : string) : Chunk :=
  {| choices :=
       [{| delta := Some {| content := None;
                            tool_calls :=
                              Some [{| tc_id := Some id;
                                       tc_function :=
                                         Some {| fn_name := Some name;
                                                 fn_arguments := Some "" |} |}] |};
           finish_reason := None |}];
     usage := None |}.

Definition tool_args_chunk (args : string) : Chunk :=
  {| choices :=
       [{| delta := Some {| content := None;
                            tool_calls :=
                              Some [{| tc_id := None;
                                       tc_function :=
                                         Some {| fn_name := None;
                                                 fn_arguments := Some args |} |}] |};
           finish_reason := None |}];
     usage := None |}.

(** The payload of a delta that only carries a finish reason. *)
Definition finish_payload (reason : string) : string :=
  json_text "{'choices':[{'delta':{},'finish_reason':'" +:+ reason +:+ json_text "'}]}".

(** A parser that knows the payloads of a table, and rejects the rest. *)
Definition table_parse (table : list (string * Chunk)) (s : string) : option Chunk :=
  snd <$> List.find (λ kv, String.eqb kv.1 s) table.

(** The three payloads of the specification's example, their parser, and
    their stream cut in two in the middle of its first line. *)
Definition hi_there : list string :=
  [content_payload "Hi"; content_payload " there"; finish_payload "stop"].

Definition hi_there_parse : string → option Chunk :=
  table_parse [ (content_payload "Hi", text_chunk "Hi");
                (content_payload " there", text_chunk " there");
                (finish_payload "stop", finish_chunk "stop") ].

Definition cut_at (n : nat) (s : string) : list string :=
  [Js.slice_to n s; Js.slice_from n s].

(** The parser for the event that holds [é], whole or garbled. *)
Definition e_acute_parse : string → option Chunk :=
  table_parse
    [ (content_payload e_acute, text_chunk e_acute);
      (content_payload (Buffer.REPLACEMENT +:+ Buffer.REPLACEMENT),
       text_chunk (Buffer.REPLACEMENT +:+ Buffer.REPLACEMENT)) ].

End Wire.

(** ** The loopback guard (the first middleware of [src/index.ts]) *)
Module Guard.

(** [req.headers["x-forwarded-for"]]: [string | string[] | undefined]. *)
Inductive HeaderValue :=
| One (v : string)
| Several (vs : list string).

Inductive Verdict :=
| Next            (* [next()] *)
| Forbidden.      (* 403, "Forbidden: Only localhost requests are allowed" *)

Definition allowed : list string := ["::1"; "127.0.0.1"; "::ffff:127.0.0.1"].

Definition localhostOnly (req_ip : option string) (fwd : option HeaderValue)
    : Verdict :=
  let ip := Js.or_else req_ip "" in
  if existsb (String.eqb ip) allowed then Next
  else
    let fwdStr :=
      match fwd with
      | Some (Several vs) => Js.or_else (head vs) ""
      | Some (One v) => Js.or_else (Some v) ""
      | None => ""
      end in
    if String.eqb fwdStr "127.0.0.1" || String.eqb fwdStr "::1" then Next
    else Forbidden.

End Guard.

(** ** The handlers of the OpenAI routes ([src/index.ts]) *)
Module Api.
Import Config ModelResolver.

(** What a [catch] block reads of the value it caught: [e.message],
    [e.code], [e.response?.status]. *)
Record Thrown := {
  message : option string;
  code : option string;
  response_status : option Z
}.

(** [new Error(msg)], which is what a rejected [getToken] delivers. *)
Definition Error (msg : string) : Thrown :=
  {| message := Some msg; code := None; response_status := None |}.

(** The message of an error reply: the notice that sends the user to
    [/login], or a text. *)
Inductive ErrorMessage :=
| LoginNotice
| Plain (s : string).

(** The status and [error.message] of an error reply. *)
Record ErrorReply := {
  http_status : Z;
  error_message : ErrorMessage
}.

(** [e.message && (e.message.includes("Not authenticated") ||
    e.message.includes("Refresh token expired"))]. *)
Definition authenticationRequired (e : Thrown) : bool :=
  match message e with
  | Some m =>
      Js.truthy m &&
      (JsText.includes m "Not authenticated" || JsText.includes m "Refresh token expired")
  | None => false
  end.

(** [res.status(e.response?.status || 500).json({ error: { message:
    e.message || "Unknown error" } })]. *)
Definition passedOn (e : Thrown) : ErrorReply :=
  {| http_status := Js.or_elseZ (response_status e) 500;
     error_message := Plain (Js.or_else (message e) "Unknown error") |}.

(** The [catch] blocks, route by route. *)
Definition modelsFull_catch (e : Thrown) : ErrorReply :=
  if authenticationRequired e
  then {| http_status := 401; error_message := LoginNotice |}
  else passedOn e.

Definition models_catch (e : Thrown) : ErrorReply :=
  match message e with
  | Some m =>
      if JsText.includes m "Not authenticated"
      then {| http_status := 401; error_message := Plain m |}
      else passedOn e
  | None => passedOn e
  end.

Definition chatCompletions_catch (e : Thrown) : ErrorReply :=
  if authenticationRequired e
  then {| http_status := 401; error_message := LoginNotice |}
  else passedOn e.

Definition responses_catch (e : Thrown) : ErrorReply :=
  if authenticationRequired e
  then {| http_status := 401; error_message := LoginNotice |}
  else passedOn e.

Definition completions_catch (e : Thrown) : ErrorReply := passedOn e.

Definition embeddings_catch (e : Thrown) : ErrorReply := passedOn e.

Definition messages_catch (e : Thrown) : ErrorReply :=
  if authenticationRequired e
  then {| http_status := 401; error_message := LoginNotice |}
  else passedOn e.

(** [resolveModelMapping(requestBody.model)] for a body that may lack
    [model]: [undefined?.startsWith(...)] is [undefined], and indexing the
    table with [undefined] reads the key ["undefined"]. *)
Definition resolveRequestModel (proxyConfig : ProxyConfig) (m : option string)
    : Resolved :=
  resolveModelMapping proxyConfig (default "undefined" m).

Section Bodies.
(** The properties of [req.body] no handler looks at. *)
Variable Rest : Type.
(** [requestBody.messages], when the client sent the property: any JSON
    value. *)
Variable Msgs : Type.

(** An element of an [input] array. *)
Record Part := {
  p_type : option string;
  p_text : option string
}.

(** [requestBody.input]: a string, an array of parts, or some other value,
    of which its truthiness and [String(value)] matter. *)
Inductive Input :=
| InputString (s : string)
| InputArray (ps : list Part)
| InputOther (truthy : bool) (shown : string).

(** [requestBody.messages] on its way upstream: the value the client
    sent, of which its truthiness matters ([""], [0], [false] and [null]
    are falsy, an array is truthy), or the one message the handler builds. *)
Inductive Messages :=
| Given (truthy : bool) (ms : Msgs)
| OneUserMessage (content : string).

(** [!!requestBody.messages]. *)
Definition truthy_messages (ms : option Messages) : bool :=
  match ms with
  | Some (Given t _) => t
  | Some (OneUserMessage _) => true
  | None => false
  end.

(** The body of a request of [POST /v1/chat/completions] or
    [POST /v1/responses], and of the request sent upstream. *)
Record Body := {
  model : option string;
  reasoning_effort : option string;
  stream : option bool;
  messages : option Messages;
  input : option Input;
  max_output_tokens : option Z;
  max_tokens : option Z;
  rest : Rest
}.

(** "Map model if needed", the same lines in both handlers. *)
Definition mapModel (proxyConfig : ProxyConfig) (requestBody : Body) : Body :=
  let resolved := resolveRequestModel proxyConfig (model requestBody) in
  {| model := ModelResolver.model resolved;
     reasoning_effort :=
       if Js.truthy_opt (effort resolved) &&
          negb (Js.truthy_opt (reasoning_effort requestBody))
       then effort resolved
       else reasoning_effort requestBody;
     stream := stream requestBody;
     messages := messages requestBody;
     input := input requestBody;
     max_output_tokens := max_output_tokens requestBody;
     max_tokens := max_tokens requestBody;
     rest := rest requestBody |}.

(** [POST /v1/chat/completions]: the body posted upstream, and
    [isStreaming]. *)
Definition chatCompletions (proxyConfig : ProxyConfig) (body : Body)
    : Body * bool :=
  (mapModel proxyConfig body, bool_decide (stream body = Some true)).

Definition truthy_input (i : Input) : bool :=
  match i with
  | InputString s => Js.truthy s
  | InputArray _ => true
  | InputOther t _ => t
  end.

(** The [text] of "Convert to chat completions format if needed". *)
Definition inputText (i : Input) : string :=
  match i with
  | InputString s => s
  | InputArray ps =>
      Js.join (String Js.newline EmptyString)
        (map (λ p, Js.or_else (p_text p) "")
           (List.filter (λ p, bool_decide (p_type p = Some "text")) ps))
  | InputOther _ shown => shown
  end.

(** [POST /v1/responses]: the body posted upstream, and [isStreaming]. *)
Definition responses (proxyConfig : ProxyConfig) (body : Body) : Body * bool :=
  let isStreaming := negb (bool_decide (stream body = Some false)) in
  let b1 := mapModel proxyConfig body in
  let b2 :=
    match input b1 with
    | Some i =>
        if negb (truthy_messages (messages b1)) && truthy_input i then
          {| model := model b1; reasoning_effort := reasoning_effort b1;
             stream := stream b1;
             messages := Some (OneUserMessage (inputText i));
             input := None;
             max_output_tokens := max_output_tokens b1;
             max_tokens := max_tokens b1; rest := rest b1 |}
        else b1
    | None => b1
    end in
  let b3 :=
    match max_output_tokens b2 with
    | Some n =>
        if Js.truthyZ n then
          {| model := model b2; reasoning_effort := reasoning_effort b2;
             stream := stream b2; messages := messages b2; input := input b2;
             max_output_tokens := None; max_tokens := Some n; rest := rest b2 |}
        else b2
    | None => b2
    end in
  ({| model := model b3; reasoning_effort := reasoning_effort b3;
      stream := Some isStreaming; messages := messages b3; input := input b3;
      max_output_tokens := max_output_tokens b3; max_tokens := max_tokens b3;
      rest := rest b3 |},
   isStreaming).

End Bodies.

Arguments Given {Msgs} _ _.
Arguments truthy_messages {Msgs} _.
Arguments OneUserMessage {Msgs} _.
Arguments model {Rest Msgs} _.
Arguments reasoning_effort {Rest Msgs} _.
Arguments stream {Rest Msgs} _.
Arguments messages {Rest Msgs} _.
Arguments input {Rest Msgs} _.
Arguments max_output_tokens {Rest Msgs} _.
Arguments max_tokens {Rest Msgs} _.
Arguments rest {Rest Msgs} _.
Arguments mapModel {Rest Msgs} _ _.
Arguments chatCompletions {Rest Msgs} _ _.
Arguments responses {Rest Msgs} _ _.

End Api.

(** ** The configuration routes ([GET] and [POST /api/config]) *)
Module ConfigApi.
Import Config ModelResolver.

(** The configuration the process works with: what [readUserConfig] finds
    in the configuration file, and the object [proxyConfig] of
    [src/index.ts]. *)
Record Store := {
  onDisk : ProxyConfig;
  proxyConfig : ProxyConfig
}.

(** [const proxyConfig = loadProxyConfig()] at start-up. *)
Definition startup (raw : ProxyConfig) : Store :=
  {| onDisk := raw; proxyConfig := loadProxyConfig raw |}.

(** The reply of [GET /api/config]. *)
Record Shown := {
  shown_default_model : string;
  shown_model_mapping : gmap string MappingEntry
}.

Definition getConfig (s : Store) : Shown :=
  let config := loadProxyConfig (onDisk s) in
  {| shown_default_model := Js.or_else (default_model config) DEFAULT_OCA_MODEL;
     shown_model_mapping := default ∅ (model_mapping config) |}.

(** [req.body] of [POST /api/config]. *)
Record Update := {
  new_default_model : option string;
  new_model_mapping : option (gmap string MappingEntry)
}.

(** [{ ...currentConfig, default_model: default_model ||
    currentConfig.default_model, model_mapping: model_mapping ||
    currentConfig.model_mapping }]. *)
Definition newConfig (currentConfig : ProxyConfig) (u : Update) : ProxyConfig :=
  {| log_level := log_level currentConfig;
     model_mapping :=
       match new_model_mapping u with
       | Some m => Some m
       | None => model_mapping currentConfig
       end;
     default_model :=
       if Js.truthy_opt (new_default_model u) then new_default_model u
       else default_model currentConfig;
     default_reasoning_effort := default_reasoning_effort currentConfig;
     base_url := base_url currentConfig;
     idcs_url := idcs_url currentConfig;
     port := port currentConfig |}.

(** [Object.assign(proxyConfig, newConfig)]: the keys of the object
    [loadProxyConfig] built are copied, those set to [undefined] too;
    [default_reasoning_effort] is not among them and stays as it is. *)
Definition Object_assign (target source : ProxyConfig) : ProxyConfig :=
  {| log_level := log_level source;
     model_mapping := model_mapping source;
     default_model := default_model source;
     default_reasoning_effort := default_reasoning_effort target;
     base_url := base_url source;
     idcs_url := idcs_url source;
     port := port source |}.

(** [POST /api/config]; [saved] is what [saveProxyConfig] returns.  The
    reply is [{ success: true, config: newConfig }] or status 500. *)
Definition postConfig (u : Update) (saved : bool) (s : Store)
    : Store * option ProxyConfig :=
  let currentConfig := loadProxyConfig (onDisk s) in
  let new := newConfig currentConfig u in
  if saved
  then ({| onDisk := new; proxyConfig := Object_assign (proxyConfig s) new |}, Some new)
  else (s, None).

(** A sequence of [POST /api/config] requests. *)
Definition posts (us : list (Update * bool)) (s : Store) : Store :=
  foldl (λ s ub, (postConfig ub.1 ub.2 s).1) s us.

End ConfigApi.

(** ** [GET /login] and [exchangeCodeForTokens] *)
Module Login.
Import Pkce Auth.

(** [`${req.protocol}://${req.get("host")}/callback`]. *)
Definition redirectUriOf (protocol : string) (host : option string) : string :=
  protocol +:+ "://" +:+ default "undefined" host +:+ "/callback".

Section Handler.
Variable sha256 : string → string.

(** [GET /login]: the session is stored and the browser is sent to
    [url]. *)
Definition login (cfg : OcaConfig) (protocol : string) (host : option string)
    (now_sweep now_store : Z) (g : Node.Entropy)
    (pkceStates : gmap string PkceState) : Created :=
  createAuthUrl sha256 cfg (redirectUriOf protocol host) now_sweep now_store g
    pkceStates.

End Handler.

(** The form of the token request of [exchangeCodeForTokens]. *)
Definition exchangeParams (cfg : OcaConfig) (code codeVerifier redirectUri : string)
    : list (string * string) :=
  [ ("grant_type", "authorization_code");
    ("code", code);
    ("redirect_uri", redirectUri);
    ("client_id", client_id cfg);
    ("code_verifier", codeVerifier) ].

(** The request [axios.post(tokenEndpoint, params, ...)] sends. *)
Record Post := {
  endpoint : string;
  body : string
}.

(** What [exchangeCodeForTokens] returns. *)
Record Tokens := {
  tokens_access_token : option string;
  tokens_refresh_token : option string;
  tokens_expires_in : Z
}.

(** [exchangeCodeForTokens(code, codeVerifier, redirectUri)]: the
    discovery document is fetched, the form is posted to its token
    endpoint, and the reply is returned with [expires_in] defaulted; [post]
    is the identity provider's answer to a request.  A failure of either
    request is thrown on. *)
Definition exchangeCodeForTokens (cfg : OcaConfig)
    (code codeVerifier redirectUri : string)
    (discovery : Reply Discovery) (post : Post → Reply TokenResponse)
    : option Post * Reply Tokens :=
  match discovery with
  | Err e => (None, Err e)
  | Ok d =>
      let request :=
        {| endpoint := token_endpoint d;
           body := Node.URLSearchParams_toString
                     (exchangeParams cfg code codeVerifier redirectUri) |} in
      (Some request,
       match post request with
       | Ok data =>
           Ok {| tokens_access_token := access_token data;
                 tokens_refresh_token := refresh_token data;
                 tokens_expires_in := Js.or_elseZ (expires_in data) 3600 |}
       | Err e => Err e
       end)
  end.

End Login.

(** ** Vocabulary for the further properties *)
Module Terms.
Import Config ModelResolver.

(** A model name of the upstream. *)
Definition upstream_name (s : string) : bool := Js.startsWith s "oca/".

Definition entry_target (e : MappingEntry) : string :=
  match e with
  | MapsTo t => t
  | MapsToObj m => target m
  end.

(** Every target of the mapping table, and the default model when one is
    set, is a model of the upstream. *)
Definition maps_to_upstream (cfg : ProxyConfig) : Prop :=
  (∀ k e, Spec.entryOf cfg k = Some e → upstream_name (entry_target e) = true) ∧
  (∀ d, default_model cfg = Some d → upstream_name d = true).

(** A text of characters the form serializer copies as they are. *)
Fixpoint url_safe (s : string) : bool :=
  match s with
  | EmptyString => true
  | String c s' => Node.form_safe c && url_safe s'
  end.

(** The number of random bytes that reach the first [n] characters of
    their base64url encoding: three bytes for every four characters,
    rounded up. *)
Definition bytes_kept (n : nat) : nat := ((3 * n + 3) / 4)%nat.

(** The first value of a request's [X-Forwarded-For] header. *)
Definition first_value (fwd : option Guard.HeaderValue) : option string :=
  match fwd with
  | Some (Guard.One v) => Some v
  | Some (Guard.Several vs) => head vs
  | None => None
  end.

(** A configuration for the examples: two entries and a default. *)
Definition sample_config : ProxyConfig :=
  {| log_level := None;
     model_mapping :=
       Some (<["gpt-4" := MapsTo "oca/gpt-4.1"]>
             (<["o3" := MapsToObj {| target := "oca/openai-o3";
                                     reasoning_effort := Some "high" |}]> ∅));
     default_model := Some "oca/llama4";
     default_reasoning_effort := Some "low";
     base_url := None; idcs_url := None; port := None |}.

End Terms.

(** ** Vocabulary for the transcoders' further properties *)
Module Shape.
Import RequestTranscoder.

Section Known.
Context {Json Num : Type}.

(** A block the transcoder has a branch for. *)
Definition known (b : Block Json) : bool :=
  match b with
  | OtherBlock _ => false
  | _ => true
  end.

Definition known_content (c : Content Json) : Content Json :=
  match c with
  | Flat s => Flat s
  | Blocks bs => Blocks (List.filter known bs)
  end.

(** The request without its blocks of other types (images, documents,
    thinking, ...). *)
Definition known_only (body : Body Json Num) : Body Json Num :=
  {| system := known_content <$> system _ _ body;
     messages :=
       map (λ m, {| role := role _ m; content := known_content (content _ m) |})
         <$> messages _ _ body;
     model := model _ _ body;
     tools := tools _ _ body;
     tool_choice := tool_choice _ _ body;
     max_tokens := max_tokens _ _ body;
     temperature := temperature _ _ body;
     top_p := top_p _ _ body |}.

(** A message whose content is a plain string. *)
Definition flat_text (m : Message Json) : option string :=
  match content _ m with
  | Flat s => Some s
  | Blocks _ => None
  end.

(** The [(id, name)] of every [tool_use] block of a request, in order. *)
Definition tool_uses_of (c : Content Json) : list (option string * option string) :=
  match c with
  | Flat _ => []
  | Blocks bs =>
      omap (λ b, match b with ToolUse i n _ => Some (i, n) | _ => None end) bs
  end.

Definition tool_uses (body : Body Json Num) : list (option string * option string) :=
  flat_map (λ m, tool_uses_of (content _ m)) (default [] (messages _ _ body)).

(** The [(id, name)] of every tool call of an upstream request, in order. *)
Definition tool_calls (out : OpenAIRequest Json Num)
    : list (option string * option string) :=
  flat_map (λ m, map (λ c, (call_id c, call_name c))
                   (default [] (out_tool_calls m)))
    (o_messages _ _ out).

End Known.
End Shape.

Module Protocol.
Import Upstream Stream.



(** The block a delta belongs to was started by one of the events [before]. *)
Definition announced (before : list Event) (e : Event) : Prop :=
  match e with
  | text_delta i _ => In (content_block_start_text i) before
  | input_json_delta i _ =>
      ∃ id name, In (content_block_start_tool_use i id name) before
  | _ => True
  end.

(** The [try] block of the streaming transcoder, run over a list of
    chunks. *)
Fixpoint handleChunks (st : State) (cs : list Chunk) : State * list Event :=
  match cs with
  | [] => (st, [])
  | c :: rest =>
      let '(st1, ev1) := handleData st c in
      let '(st2, ev2) := handleChunks st1 rest in
      (st2, ev1 ++ ev2)
  end.

(** Every delta of [evs] is announced by what came before it, [seen]
    being what came before [evs]. *)
Fixpoint announced_all (seen evs : list Event) : Prop :=
  match evs with
  | [] => True
  | e :: rest => announced seen e ∧ announced_all (seen ++ [e]) rest
  end.

(** The blocks the generator's variables speak of were started by one of
    the events [seen]. *)
Definition started (st : State) (seen : list Event) : Prop :=
  (textBlockStarted st = true →
     In (content_block_start_text (contentBlockIndex st)) seen) ∧
  (currentToolCall st ≠ None →
     ∃ id name, In (content_block_start_tool_use (contentBlockIndex st) id name) seen).





(** The usage payloads of a list of chunks. *)
Definition usages (cs : list Chunk) : list Usage := omap usage cs.


End Protocol.

(** * Properties *)

(** ** Strings *)
Section StringFacts.

Lemma append_cons (c : ascii) (s t : string) :
  String c s +:+ t = String c (s +:+ t).
Proof. reflexivity. Qed.

Lemma append_nil (t : string) : "" +:+ t = t.
Proof. reflexivity. Qed.

Lemma append_nil_r (s : string) : s +:+ "" = s.
Proof. induction s as [|c s IH]; [done|]. by rewrite append_cons, IH. Qed.

Lemma append_assoc (s t u : string) : s +:+ (t +:+ u) = (s +:+ t) +:+ u.
Proof. induction s as [|c s IH]; [done|]. by rewrite !append_cons, IH. Qed.

Lemma concat_nil_cons (s : string) (l : list string) :
  String.concat "" (s :: l) = s +:+ String.concat "" l.
Proof.
  destruct l as [|t l]; cbn [String.concat]; [by rewrite append_nil_r|done].
Qed.

(** *** [split("\n")] and the carried partial line *)

Lemma split_nonempty (s : string) : Js.split s ≠ [].
Proof.
  induction s as [|c s IH]; cbn; [done|].
  destruct (Ascii.eqb c Js.newline); [done|]. by destruct (Js.split s).
Qed.

Lemma removelast_cons {A} (x : A) (l : list A) :
  l ≠ [] → List.removelast (x :: l) = x :: List.removelast l.
Proof. by destruct l. Qed.

Lemma last_cons {A} (x d : A) (l : list A) :
  l ≠ [] → List.last (x :: l) d = List.last l d.
Proof. by destruct l. Qed.

Lemma removelast_app_nonempty {A} (l l' : list A) :
  l' ≠ [] → List.removelast (l ++ l') = l ++ List.removelast l'.
Proof. intros H. by apply List.removelast_app. Qed.

Lemma last_app_nonempty {A} (l l' : list A) (d : A) :
  l' ≠ [] → List.last (l ++ l') d = List.last l' d.
Proof.
  intros H. induction l as [|x l IH]; [done|].
  change ((x :: l) ++ l') with (x :: (l ++ l')).
  rewrite last_cons; [done|]. by destruct l.
Qed.

(** Splitting a text that arrives in two parts: the complete lines of the
    first part, then the split of what it left over followed by the second
    part. *)
Lemma split_app (a b : string) :
  Js.split (a +:+ b) =
  List.removelast (Js.split a) ++ Js.split (List.last (Js.split a) "" +:+ b).
Proof.
  induction a as [|c a IH]; [done|].
  rewrite append_cons. cbn [Js.split].
  pose proof (split_nonempty a) as Hne.
  destruct (Ascii.eqb c Js.newline) eqn:Hc.
  - rewrite removelast_cons, last_cons by done. by rewrite IH.
  - rewrite IH. destruct (Js.split a) as [|h [|h' t]] eqn:Ha; [done| |].
    + cbn [List.removelast List.last app]. rewrite append_cons. cbn [Js.split].
      by rewrite Hc.
    + cbn [List.removelast app]. by rewrite last_cons.
Qed.

End StringFacts.

(** ** Model resolution *)
Section ResolverFacts.
Import Config ModelResolver ConfigApi Spec.

Lemma or_else_set s d : s ≠ "" → Js.or_else (Some s) d = s.
Proof. destruct s; [congruence | reflexivity]. Qed.

Lemma or_else_twice (o : option string) (d : string) :
  Js.or_else (Some (Js.or_else o d)) d = Js.or_else o d.
Proof.
  destruct o as [[|c s]|]; cbn; try reflexivity; by destruct d.
Qed.

(** Loading what was loaded changes nothing. *)
Lemma loadProxyConfig_idempotent (raw : ProxyConfig) :
  loadProxyConfig (loadProxyConfig raw) = loadProxyConfig raw.
Proof.
  unfold loadProxyConfig. cbn -[Js.or_else]. by rewrite or_else_twice.
Qed.

Lemma postConfig_loaded (u : Update) (saved : bool) (s : Store) :
  proxyConfig s = loadProxyConfig (onDisk s) →
  proxyConfig (postConfig u saved s).1 = loadProxyConfig (onDisk (postConfig u saved s).1).
Proof.
  intros H. unfold postConfig. destruct saved; [|exact H]. cbn [fst onDisk proxyConfig].
  rewrite H. unfold Object_assign, newConfig, loadProxyConfig. cbn -[Js.or_else].
  rewrite or_else_twice. f_equal.
  by destruct (new_model_mapping u).
Qed.

Lemma posts_loaded (us : list (Update * bool)) (s : Store) :
  proxyConfig s = loadProxyConfig (onDisk s) →
  proxyConfig (posts us s) = loadProxyConfig (onDisk (posts us s)).
Proof.
  revert s. induction us as [|[u b] us IH]; intros s H; [exact H|].
  cbn. apply IH. by apply postConfig_loaded.
Qed.

(** C8 on the code.  Resolution is a function of the configuration and
    the requested model.  A model that starts with ["oca/"] is returned as
    it is, without reasoning effort; otherwise an entry of the table that
    is a non-empty string gives its target, and an entry that is an object
    gives its target and its reasoning effort.  Otherwise the default is
    returned only when the lookup finds nothing: for a name every object
    inherits ([toString], [constructor], ...) the lookup finds the
    inherited value, and the result has no model at all.  In what is left
    (no entry, or an empty-string entry) the model is the default model of
    the configuration, ["oca/gpt-4.1"] when none is configured; the
    reasoning effort is the one the configuration object holds, and the
    configuration object of a running proxy, after start-up and any
    [POST /api/config] requests, holds none, whatever the configuration
    file says. *)
Theorem resolveModelMapping_steps (cfg : ProxyConfig) (requestModel : string) :
  let r := resolveModelMapping cfg requestModel in
  ((Js.startsWith requestModel "oca/" = true ∧
      r = {| model := Some requestModel; effort := None |}) ∨
   (Js.startsWith requestModel "oca/" = false ∧
      ((∃ t, entryOf cfg requestModel = Some (MapsTo t) ∧ t ≠ "" ∧
             r = {| model := Some t; effort := None |}) ∨
       (∃ m, entryOf cfg requestModel = Some (MapsToObj m) ∧
             r = {| model := Some (target m); effort := reasoning_effort m |}) ∨
       (finds_inherited cfg requestModel ∧
        r = {| model := None; effort := None |}) ∨
       ((entryOf cfg requestModel = None ∨
         entryOf cfg requestModel = Some (MapsTo "")) ∧
        ¬ finds_inherited cfg requestModel ∧
        r = fallbackOf cfg ∧
        (default_model cfg = None → model r = Some "oca/gpt-4.1") ∧
        (∀ d, default_model cfg = Some d → d ≠ "" → model r = Some d))))) ∧
  (∀ raw us, cfg = proxyConfig (posts us (startup raw)) →
     has_table cfg ∧ effort (fallbackOf cfg) = None).
Proof.
  cbn zeta. split.
  - unfold finds_inherited, has_table, resolveModelMapping, entryOf, fallbackOf, get.
    destruct (Js.startsWith requestModel "oca/") eqn:Hpre; [left; done|].
    right; split; [done|].
    assert (Hdef : (default_model cfg = None →
                    Some (Js.or_else (default_model cfg) DEFAULT_OCA_MODEL) =
                    Some "oca/gpt-4.1") ∧
                   (∀ d, default_model cfg = Some d → d ≠ "" →
                    Some (Js.or_else (default_model cfg) DEFAULT_OCA_MODEL) = Some d)).
    { split; [by intros ->|]. intros d -> Hd. by rewrite or_else_set. }
    destruct (model_mapping cfg) as [table|]; cbn -[JsText.is_inherited].
    + destruct (table !! requestModel) as [[t|m]|] eqn:Hm; cbn -[JsText.is_inherited].
      * destruct t as [|c t]; cbn -[JsText.is_inherited].
        -- do 3 right. split; [by right|]. split; [by intros (_ & ? & _)|done].
        -- left. by exists (String c t).
      * right; left. by exists m.
      * destruct (JsText.is_inherited requestModel) eqn:Hin; cbn -[JsText.is_inherited].
        -- right; right; left. eauto.
        -- do 3 right. split; [by left|]. split; [by intros (_ & _ & ?)|done].
    + do 3 right. split; [by left|]. split; [|done].
      intros ([? ?] & _). done.
  - intros raw us ->.
    rewrite posts_loaded by reflexivity. unfold has_table, fallbackOf. cbn. eauto.
Qed.

(** C8, as stated, fails in a running proxy, started on a configuration
    file that names a default model and a default reasoning effort: the
    model [toString], which the mapping table does not hold, is not
    resolved to the default model but to no model; and the model [gpt-4],
    which it does not hold either, is resolved to the default model
    without the default reasoning effort. *)
Lemma resolveModelMapping_inherited_example :
  let cfg := proxyConfig (startup llama_high) in
  default_model cfg = Some "oca/llama4" ∧
  default_reasoning_effort llama_high = Some "high" ∧
  entryOf cfg "toString" = None ∧
  resolveModelMapping cfg "toString" = {| model := None; effort := None |} ∧
  resolveModelMapping cfg "gpt-4" = {| model := Some "oca/llama4"; effort := None |}.
Proof.
  cbn zeta. do 3 (split; [reflexivity|]).
  pose (cfg := proxyConfig (startup llama_high)).
  split.
  - destruct (resolveModelMapping_steps cfg "toString")
      as [[[H _]|[_ [(t & H & _)|[(m & H & _)|[[_ H]|(_ & H & _)]]]]] _].
    + discriminate H.
    + discriminate H.
    + discriminate H.
    + exact H.
    + destruct H. by repeat split; [eexists|..].
  - destruct (resolveModelMapping_steps cfg "gpt-4")
      as [[[H _]|[_ [(t & H & _)|[(m & H & _)|[[(_ & _ & H) _]|(_ & _ & H & _)]]]]] _].
    + discriminate H.
    + discriminate H.
    + discriminate H.
    + discriminate H.
    + exact H.
Defined.

(** An entry that is the empty string is found in the table and still
    resolved to the default. *)
Lemma resolveModelMapping_empty_entry :
  let cfg := loadProxyConfig
               {| log_level := None;
                  model_mapping := Some {[ "gpt-4" := MapsTo "" ]};
                  default_model := Some "oca/llama4";
                  default_reasoning_effort := None;
                  base_url := None; idcs_url := None; port := None |} in
  entryOf cfg "gpt-4" = Some (MapsTo "") ∧
  resolveModelMapping cfg "gpt-4" = {| model := Some "oca/llama4"; effort := None |}.
Proof. cbn zeta. split; by vm_compute. Qed.

(** The three inputs of the specification's test. *)
Example resolve_prefixed cfg :
  resolveModelMapping cfg "oca/gpt-4.1" = {| model := Some "oca/gpt-4.1"; effort := None |}.
Proof. reflexivity. Qed.

Example resolve_unmapped d e :
  d ≠ "" →
  resolveModelMapping
    {| log_level := None; model_mapping := Some ∅; default_model := Some d;
       default_reasoning_effort := e; base_url := None; idcs_url := None;
       port := None |} "gpt-4"
  = {| model := Some d; effort := e |}.
Proof.
  intros Hd. destruct d; [done|reflexivity].
Qed.

Example resolve_object_entry :
  resolveModelMapping
    {| log_level := None;
       model_mapping :=
         Some {[ "o3" := MapsToObj {| target := "oca/o3"; reasoning_effort := Some "high" |} ]};
       default_model := None; default_reasoning_effort := None;
       base_url := None; idcs_url := None; port := None |} "o3"
  = {| model := Some "oca/o3"; effort := Some "high" |}.
Proof. by vm_compute. Qed.

(** The configuration a running proxy resolves against comes from
    [loadProxyConfig], which never carries a default reasoning effort. *)
Lemma loadProxyConfig_drops_default_effort (raw : ProxyConfig) :
  default_reasoning_effort (loadProxyConfig raw) = None.
Proof. reflexivity. Qed.

End ResolverFacts.

(** ** Request transcoding *)
Section RequestFacts.
Import Config RequestTranscoder.

Context {Json Num : Type}.
Variable JSON_stringify : Json → string.
Variable json_truthy : Json → bool.
Variable empty_object : Json.

Local Abbreviation transcode :=
  (anthropicToOpenAI Json JSON_stringify json_truthy empty_object Num).

(** C9, as the code has it.  A non-zero [max_tokens] is sent upstream as
    [min(max_tokens, 16384)]; a request without [max_tokens], or with
    [max_tokens: 0], is sent without one; so whatever [max_tokens] the
    upstream request carries is at most 16384, and 50000 becomes 16384. *)
Theorem max_tokens_capped (cfg : ProxyConfig) (body : Body Json Num) :
  (∀ n, max_tokens _ _ body = Some n → n ≠ 0%Z →
        o_max_tokens _ _ (transcode cfg body) = Some (Z.min n 16384)) ∧
  (max_tokens _ _ body = None ∨ max_tokens _ _ body = Some 0%Z →
        o_max_tokens _ _ (transcode cfg body) = None) ∧
  (∀ k, o_max_tokens _ _ (transcode cfg body) = Some k → (k ≤ 16384)%Z) ∧
  (max_tokens _ _ body = Some 50000%Z →
        o_max_tokens _ _ (transcode cfg body) = Some 16384%Z).
Proof.
  assert (Hnz : ∀ n, max_tokens _ _ body = Some n → n ≠ 0%Z →
            o_max_tokens _ _ (transcode cfg body) = Some (Z.min n 16384)).
  { intros n Hn Hz. cbn. rewrite Hn. unfold Js.truthyZ, Js.Math_min, MAX_TOKENS_CEILING.
    destruct (Z.eqb_spec n 0); [done|reflexivity]. }
  split; [exact Hnz|]. split; [|split].
  - intros [H|H]; cbn; by rewrite H.
  - intros k. cbn. destruct (max_tokens _ _ body) as [n|]; [|done].
    unfold Js.truthyZ, Js.Math_min, MAX_TOKENS_CEILING.
    destruct (Z.eqb_spec n 0); cbn; [done|]. intros [= <-]. lia.
  - intros H. by rewrite (Hnz _ H).
Qed.

End RequestFacts.

(** C9 at [max_tokens: 50000]. *)
Lemma max_tokens_capped_50000 :
  RequestTranscoder.o_max_tokens _ _
    (RequestTranscoder.anthropicToOpenAI unit (λ _, "{}") (λ _, true) tt unit
       Spec.empty_config (Spec.request_with_max_tokens 50000))
  = Some 16384%Z.
Proof.
  apply (proj2 (proj2 (proj2
    (max_tokens_capped (λ _, "{}") (λ _, true) tt Spec.empty_config
       (Spec.request_with_max_tokens 50000))))).
  reflexivity.
Defined.

(** C9, as stated, fails at [max_tokens: 0]: the request carries a value,
    and the upstream request carries none, not [min(0, 16384) = 0]. *)
Lemma max_tokens_zero_dropped :
  RequestTranscoder.max_tokens _ _ (Spec.request_with_max_tokens 0) = Some 0%Z ∧
  RequestTranscoder.o_max_tokens _ _
    (RequestTranscoder.anthropicToOpenAI unit (λ _, "{}") (λ _, true) tt unit
       Spec.empty_config (Spec.request_with_max_tokens 0))
  ≠ Some (Z.min 0 16384).
Proof. split; [reflexivity|discriminate]. Qed.

(** A request with a system prompt in blocks, a tool result and a tool use:
    the messages, the tool and the forced choice sent upstream. *)
Example anthropicToOpenAI_example :
  let body : RequestTranscoder.Body unit unit :=
    {| RequestTranscoder.system :=
         Some (RequestTranscoder.Blocks
                 [RequestTranscoder.TextBlock (Some "Be");
                  RequestTranscoder.OtherBlock "image";
                  RequestTranscoder.TextBlock (Some "brief.")]);
       RequestTranscoder.messages :=
         Some [ {| RequestTranscoder.role := "user";
                   RequestTranscoder.content := RequestTranscoder.Flat "What time is it?" |};
                {| RequestTranscoder.role := "assistant";
                   RequestTranscoder.content :=
                     RequestTranscoder.Blocks
                       [RequestTranscoder.TextBlock (Some "Let me check.");
                        RequestTranscoder.ToolUse (Some "call_1") (Some "clock") None] |};
                {| RequestTranscoder.role := "user";
                   RequestTranscoder.content :=
                     RequestTranscoder.Blocks
                       [RequestTranscoder.ToolResult (Some "call_1") (Some "12:00")] |} ];
       RequestTranscoder.model := Some "claude-3-5-sonnet-20241022";
       RequestTranscoder.tools :=
         Some [ {| RequestTranscoder.name := Some "clock";
                   RequestTranscoder.description := None;
                   RequestTranscoder.input_schema := None |} ];
       RequestTranscoder.tool_choice :=
         Some (RequestTranscoder.ChoiceObj (Some "tool") (Some "clock"));
       RequestTranscoder.max_tokens := Some 50000%Z;
       RequestTranscoder.temperature := None; RequestTranscoder.top_p := None |} in
  let out := RequestTranscoder.anthropicToOpenAI unit (λ _, "{}") (λ _, true) tt unit
               Spec.empty_config body in
  RequestTranscoder.o_model _ _ out = Some "oca/gpt-4.1" ∧
  map (λ m, (RequestTranscoder.out_role m, RequestTranscoder.out_content m))
      (RequestTranscoder.o_messages _ _ out)
  = [ ("system", Some "Be brief."); ("user", Some "What time is it?");
      ("assistant", Some "Let me check."); ("tool", Some "12:00") ] ∧
  RequestTranscoder.o_tool_choice _ _ out
  = Some (RequestTranscoder.ForcedFunction (Some "clock")) ∧
  RequestTranscoder.o_stream _ _ out = true ∧
  RequestTranscoder.o_max_tokens _ _ out = Some 16384%Z.
Proof. cbn zeta. repeat split; by vm_compute. Qed.

(** ** Encoders of [node:crypto] and [URLSearchParams] *)
Section NodeFacts.
Import Node Decode.

Lemma N_of_ascii_lt (c : ascii) : (N_of_ascii c < 256)%N.
Proof. apply N_ascii_bounded. Qed.

(** Name the quotient and the remainder of [x] by [k], with their facts. *)
Ltac divmod x k :=
  let q := fresh "q" in
  let r := fresh "r" in
  pose proof (N.div_mod x k ltac:(lia));
  pose proof (N.mod_lt x k ltac:(lia));
  set (q := (x / k)%N) in *; set (r := (x mod k)%N) in *; clearbody q r.

Lemma b64_val_char (v : N) : (v < 64)%N → b64_val (b64_char v) = v.
Proof.
  intros Hv.
  assert (Hall : forallb (λ n, N.eqb (b64_val (b64_char (N.of_nat n))) (N.of_nat n))
                   (seq 0 64) = true) by (vm_compute; reflexivity).
  rewrite forallb_forall in Hall.
  specialize (Hall (N.to_nat v)). rewrite N2Nat.id in Hall.
  apply N.eqb_eq, Hall, in_seq. lia.
Qed.

Lemma b64_char_form_safe (v : N) : (v < 64)%N → form_safe (b64_char v) = true.
Proof.
  intros Hv.
  assert (Hall : forallb (λ n, form_safe (b64_char (N.of_nat n))) (seq 0 64) = true)
    by (vm_compute; reflexivity).
  rewrite forallb_forall in Hall.
  specialize (Hall (N.to_nat v)). rewrite N2Nat.id in Hall.
  apply Hall, in_seq. lia.
Qed.

(** The six-bit values of a group of bytes. *)
Lemma sextet_bounds (x y : N) :
  (x < 256 → y < 256 →
   x / 4 < 64 ∧ (x mod 4) * 16 + y / 16 < 64 ∧ (x mod 16) * 4 + y / 64 < 64 ∧
   x mod 64 < 64 ∧ (x mod 4) * 16 < 64 ∧ (x mod 16) * 4 < 64)%N.
Proof.
  intros Hx Hy.
  pose proof (N.mod_lt x 16 ltac:(lia)). pose proof (N.mod_lt x 64 ltac:(lia)).
  divmod x 4%N. divmod y 16%N. divmod y 64%N.
  lia.
Qed.

(** Putting a byte back together from the two values that hold its bits. *)
Lemma rejoin_first (x y : N) :
  (x < 256 → y < 256 → (x / 4) * 4 + ((x mod 4) * 16 + y / 16) / 16 = x)%N.
Proof.
  intros Hx Hy. divmod x 4%N. divmod y 16%N. divmod (r * 16 + q0)%N 16%N. lia.
Qed.

Lemma rejoin_first_tail (x : N) :
  (x < 256 → (x / 4) * 4 + ((x mod 4) * 16) / 16 = x)%N.
Proof. intros Hx. divmod x 4%N. divmod (r * 16)%N 16%N. lia. Qed.

Lemma rejoin_second (x y z : N) :
  (x < 256 → y < 256 → z < 256 →
   (((x mod 4) * 16 + y / 16) mod 16) * 16 + ((y mod 16) * 4 + z / 64) / 4 = y)%N.
Proof.
  intros Hx Hy Hz. divmod x 4%N. divmod y 16%N. divmod z 64%N.
  divmod (r * 16 + q0)%N 16%N. divmod (r0 * 4 + q1)%N 4%N. lia.
Qed.

Lemma rejoin_second_tail (x y : N) :
  (x < 256 → y < 256 →
   (((x mod 4) * 16 + y / 16) mod 16) * 16 + ((y mod 16) * 4) / 4 = y)%N.
Proof.
  intros Hx Hy. divmod x 4%N. divmod y 16%N.
  divmod (r * 16 + q0)%N 16%N. divmod (r0 * 4)%N 4%N. lia.
Qed.

Lemma rejoin_third (y z : N) :
  (y < 256 → z < 256 →
   (((y mod 16) * 4 + z / 64) mod 4) * 64 + z mod 64 = z)%N.
Proof.
  intros Hy Hz. divmod y 16%N. divmod z 64%N. divmod (r * 4 + q0)%N 4%N. lia.
Qed.

(** Induction on a byte string three bytes at a time. *)
Lemma string_ind3 (P : string → Prop) :
  P "" → (∀ a, P (String a "")) → (∀ a b, P (String a (String b ""))) →
  (∀ a b c rest, P rest → P (String a (String b (String c rest)))) →
  ∀ s, P s.
Proof.
  intros H0 H1 H2 H3.
  fix IH 1. intros [|a [|b [|c rest]]]; [exact H0|apply H1|apply H2|].
  apply H3, IH.
Qed.

(** One full group of three bytes. *)
Lemma base64url_group (a b c : ascii) (rest : string) :
  base64url (String a (String b (String c rest))) =
  String (b64_char (N_of_ascii a / 4))
    (String (b64_char ((N_of_ascii a mod 4) * 16 + N_of_ascii b / 16))
       (String (b64_char ((N_of_ascii b mod 16) * 4 + N_of_ascii c / 64))
          (String (b64_char (N_of_ascii c mod 64)) (base64url rest)))).
Proof. reflexivity. Qed.

(** Decoding gives back the bytes that were encoded. *)
Theorem base64url_roundtrip (bs : string) :
  base64url_decode (base64url bs) = bs.
Proof.
  induction bs as [|a|a b|a b c rest IH] using string_ind3; [done| | |].
  - pose proof (N_of_ascii_lt a) as Ha.
    destruct (sextet_bounds _ _ Ha Ha) as (?&_&_&_&?&_).
    cbn. rewrite !b64_val_char by done.
    by rewrite rejoin_first_tail, ascii_N_embedding.
  - pose proof (N_of_ascii_lt a) as Ha. pose proof (N_of_ascii_lt b) as Hb.
    destruct (sextet_bounds _ _ Ha Hb) as (?&?&_&_&_&_).
    destruct (sextet_bounds _ _ Hb Hb) as (_&_&_&_&_&?).
    cbn. rewrite !b64_val_char by done.
    by rewrite rejoin_first, rejoin_second_tail, !ascii_N_embedding.
  - pose proof (N_of_ascii_lt a) as Ha. pose proof (N_of_ascii_lt b) as Hb.
    pose proof (N_of_ascii_lt c) as Hc.
    destruct (sextet_bounds _ _ Ha Hb) as (?&?&_&_&_&_).
    destruct (sextet_bounds _ _ Hb Hc) as (_&_&?&_&_&_).
    destruct (sextet_bounds _ _ Hc Hc) as (_&_&_&?&_&_).
    rewrite base64url_group.
    cbn [base64url_decode]. rewrite !b64_val_char by done.
    rewrite rejoin_first, rejoin_second, rejoin_third, !ascii_N_embedding by done.
    by rewrite IH.
Qed.

Corollary base64url_inj (bs bs' : string) :
  base64url bs = base64url bs' → bs = bs'.
Proof.
  intros H. rewrite <- (base64url_roundtrip bs), <- (base64url_roundtrip bs').
  by rewrite H.
Qed.

(** Every character written is one of the URL-safe alphabet, which the form
    serializer copies: no [=], [+] or [/] appears. *)
Lemma form_encode_base64url (bs : string) :
  form_encode (base64url bs) = base64url bs.
Proof.
  induction bs as [|a|a b|a b c rest IH] using string_ind3; [done| | |].
  - pose proof (N_of_ascii_lt a) as Ha.
    destruct (sextet_bounds _ _ Ha Ha) as (?&_&_&_&?&_).
    cbn. by rewrite !b64_char_form_safe.
  - pose proof (N_of_ascii_lt a) as Ha. pose proof (N_of_ascii_lt b) as Hb.
    destruct (sextet_bounds _ _ Ha Hb) as (?&?&_&_&_&_).
    destruct (sextet_bounds _ _ Hb Hb) as (_&_&_&_&_&?).
    cbn. by rewrite !b64_char_form_safe.
  - pose proof (N_of_ascii_lt a) as Ha. pose proof (N_of_ascii_lt b) as Hb.
    pose proof (N_of_ascii_lt c) as Hc.
    destruct (sextet_bounds _ _ Ha Hb) as (?&?&_&_&_&_).
    destruct (sextet_bounds _ _ Hb Hc) as (_&_&?&_&_&_).
    destruct (sextet_bounds _ _ Hc Hc) as (_&_&_&?&_&_).
    rewrite base64url_group.
    cbn [form_encode]. rewrite !b64_char_form_safe by done. by rewrite IH.
Qed.

End NodeFacts.

(** ** PKCE sessions *)
Section PkceFacts.
Import Node Decode Pkce Callback Spec.

Variable sha256 : string → string.

Lemma take_bytes_length (n : nat) (g : Entropy) :
  String.length (take_bytes n g) = n.
Proof. revert g. induction n as [|n IH]; intros g; cbn; [done|]. by rewrite IH. Qed.

Lemma base64url_length (k : nat) (bs : string) :
  String.length bs = (3 * k)%nat → String.length (base64url bs) = (4 * k)%nat.
Proof.
  revert bs. induction k as [|k IH]; intros bs Hlen.
  - by destruct bs.
  - destruct bs as [|a [|b [|c rest]]]; cbn in Hlen; try lia.
    rewrite base64url_group.
    cbn [String.length]. rewrite (IH rest) by lia. lia.
Qed.

(** [generateRandomString(32)] draws 32 bytes and keeps what the first 24
    of them encode to: the last 8 bytes drawn do not reach the result. *)
Lemma generateRandomString_32 (g : Entropy) :
  generateRandomString 32 g = (base64url (take_bytes 24 g), advance 32 g).
Proof.
  reflexivity.
Qed.

Lemma stateOf_length (g : Entropy) : String.length (stateOf g) = 32%nat.
Proof.
  unfold stateOf. rewrite generateRandomString_32. cbn [fst].
  by rewrite (base64url_length 8) by apply take_bytes_length.
Qed.

Lemma stateOf_nonempty (g : Entropy) : stateOf g ≠ "".
Proof. intros H. pose proof (stateOf_length g) as Hl. by rewrite H in Hl. Qed.

Lemma createAuthUrl_state cfg uri t1 t2 g states :
  new_state (createAuthUrl sha256 cfg uri t1 t2 g states) = stateOf g.
Proof. reflexivity. Qed.

Lemma createAuthUrl_states_after cfg uri t1 t2 g states :
  let c := createAuthUrl sha256 cfg uri t1 t2 g states in
  states_after c = <[stateOf g := new_session c]> (cleanupExpiredStates t1 states).
Proof. reflexivity. Qed.

(** C6, as the code has it.  [createAuthUrl] encodes 96 random bytes as the
    128-character code verifier (base64url, nothing padded, all 96 bytes
    recoverable), sends [base64url(SHA-256(verifier))] as the challenge,
    draws 32 fresh bytes for [state] and 32 more for [nonce] and keeps of
    each the 32 characters that encode its first 24 bytes (these 24 bytes,
    and no more, are recoverable), stores the session under [state], and
    returns the authorization URL with the eight parameters in this
    order. *)
Theorem createAuthUrl_pkce (cfg : OcaConfig) (redirectUri : string)
    (now_sweep now_store : Z) (g : Entropy) (states : gmap string PkceState) :
  let c := createAuthUrl sha256 cfg redirectUri now_sweep now_store g states in
  let verifier := code_verifier (new_session c) in
  verifier = base64url (take_bytes 96 g) ∧
  String.length verifier = 128%nat ∧
  base64url_decode verifier = take_bytes 96 g ∧
  new_state c = base64url (take_bytes 24 (advance 96 g)) ∧
  String.length (new_state c) = 32%nat ∧
  base64url_decode (new_state c) = take_bytes 24 (advance 96 g) ∧
  nonce (new_session c) = base64url (take_bytes 24 (advance 128 g)) ∧
  String.length (nonce (new_session c)) = 32%nat ∧
  base64url_decode (nonce (new_session c)) = take_bytes 24 (advance 128 g) ∧
  states_after c !! new_state c =
    Some {| code_verifier := verifier; nonce := nonce (new_session c);
            redirect_uri := redirectUri; created_at := now_store |} ∧
  url c =
    oca_idcs_url cfg +:+ "/oauth2/v1/authorize?" +:+
    "client_id=" +:+ form_encode (client_id cfg) +:+
    "&response_type=code" +:+
    "&scope=" +:+ form_encode (scopes cfg) +:+
    "&redirect_uri=" +:+ form_encode redirectUri +:+
    "&state=" +:+ new_state c +:+
    "&nonce=" +:+ nonce (new_session c) +:+
    "&code_challenge=" +:+ base64url (sha256 verifier) +:+
    "&code_challenge_method=S256".
Proof.
  cbn zeta.
  assert (Hve : code_verifier (new_session
                  (createAuthUrl sha256 cfg redirectUri now_sweep now_store g states))
                = base64url (take_bytes 96 g)) by reflexivity.
  assert (Hst : new_state (createAuthUrl sha256 cfg redirectUri now_sweep now_store g states)
                = base64url (take_bytes 24 (advance 96 g))) by reflexivity.
  assert (Hno : nonce (new_session
                  (createAuthUrl sha256 cfg redirectUri now_sweep now_store g states))
                = base64url (take_bytes 24 (advance 128 g))) by reflexivity.
  split; [exact Hve|]. split.
  { rewrite Hve. by rewrite (base64url_length 32) by apply take_bytes_length. }
  split; [rewrite Hve; apply base64url_roundtrip|].
  split; [exact Hst|]. split.
  { rewrite Hst. by rewrite (base64url_length 8) by apply take_bytes_length. }
  split; [rewrite Hst; apply base64url_roundtrip|].
  split; [exact Hno|]. split.
  { rewrite Hno. by rewrite (base64url_length 8) by apply take_bytes_length. }
  split; [rewrite Hno; apply base64url_roundtrip|].
  split.
  { rewrite createAuthUrl_states_after. cbn zeta. rewrite createAuthUrl_state.
    by rewrite lookup_insert_eq. }
  rewrite Hst, Hno, Hve.
  transitivity
    (oca_idcs_url cfg +:+ "/oauth2/v1/authorize?" +:+
     URLSearchParams_toString
       (authParams cfg redirectUri (base64url (take_bytes 24 (advance 96 g)))
          (base64url (take_bytes 24 (advance 128 g)))
          (base64url (sha256 (base64url (take_bytes 96 g)))))); [reflexivity|].
  unfold URLSearchParams_toString, authParams, Js.join.
  cbn [map String.concat fst snd].
  rewrite !form_encode_base64url.
  by rewrite <- !append_assoc.
Qed.

(** C6, as stated, fails for [state] and [nonce]: two draws of 32 random
    bytes that differ (in their 25th byte) give the same string, so the
    string does not carry the 32 bytes that were drawn. *)
Lemma generateRandomString_loses_bytes :
  (randomBytes 32 zeros).1 ≠ (randomBytes 32 (one_at 24)).1 ∧
  (generateRandomString 32 zeros).1 = (generateRandomString 32 (one_at 24)).1.
Proof. split; [by vm_compute|by vm_compute]. Qed.

(** *** The two answers of the lookup *)

Lemma consumeCallback_found (states : gmap string PkceState) (s code : string)
    (d : PkceState) :
  states !! s = Some d →
  consumeCallback s code states =
  (inr {| x_code := code; x_code_verifier := code_verifier d;
          x_redirect_uri := redirect_uri d |},
   delete s states).
Proof. intros Hd. unfold consumeCallback, getPkceState. by rewrite Hd. Qed.

Lemma consumeCallback_absent (states : gmap string PkceState) (s code : string) :
  states !! s = None →
  consumeCallback s code states = (inl InvalidOrExpiredState, states).
Proof. intros Hd. unfold consumeCallback, getPkceState. by rewrite Hd. Qed.

(** A callback with a code and a state and without [error] gets to the
    lookup. *)
Lemma callback_begin_consumes (states : gmap string PkceState) (s code : string) :
  s ≠ "" → code ≠ "" →
  callback_begin (callback_query s code) states = consumeCallback s code states.
Proof.
  intros Hs Hcode. unfold callback_begin, callback_query.
  cbn [q_error q_code q_state Js.truthy_opt].
  destruct code as [|c code]; [done|]. by destruct s as [|c' s].
Qed.

(** *** Expiry *)

(** The sweep removes exactly the sessions created more than ten minutes
    before it runs. *)
Lemma cleanupExpiredStates_lookup (now : Z) (states : gmap string PkceState)
    (s : string) :
  cleanupExpiredStates now states !! s =
  match states !! s with
  | Some d => if decide (now - created_at d > TTL_MS)%Z then None else Some d
  | None => None
  end.
Proof.
  unfold cleanupExpiredStates.
  destruct (states !! s) as [d|] eqn:Hs.
  - case_decide as Hage.
    + apply map_lookup_filter_None. right. intros d' Hd'. cbn.
      assert (d' = d) as -> by congruence. lia.
    + apply map_lookup_filter_Some. split; [done|]. cbn. lia.
  - apply map_lookup_filter_None. by left.
Qed.

(** A later login does purge an expired session: after it, a callback for
    the old state is answered "Invalid or expired state". *)
Lemma login_purges_expired cfg uri now now' g (states : gmap string PkceState)
    (s code : string) (d : PkceState) :
  states !! s = Some d → (now - created_at d > TTL_MS)%Z → stateOf g ≠ s →
  (consumeCallback s code
     (states_after (createAuthUrl sha256 cfg uri now now' g states))).1
  = inl InvalidOrExpiredState.
Proof.
  intros Hs Hage Hfresh.
  rewrite consumeCallback_absent; [done|].
  rewrite createAuthUrl_states_after. cbn zeta.
  rewrite lookup_insert_ne by done.
  rewrite cleanupExpiredStates_lookup, Hs.
  by rewrite decide_True.
Qed.

(** C5 on the code.  The callback handler never reads the clock: a session
    is found whatever its age, so as long as no login has run in between,
    a callback that arrives more than ten minutes after the session was
    created is accepted: the session is taken and the token exchange
    starts. *)
Theorem callback_ignores_session_age cfg (uri : string) (created now : Z)
    (g : Entropy) (states : gmap string PkceState) (code : string) :
  (now - created > TTL_MS)%Z →
  let c := createAuthUrl sha256 cfg uri created created g states in
  created_at (new_session c) = created ∧
  (consumeCallback (new_state c) code (states_after c)).1
  = inr {| x_code := code;
           x_code_verifier := code_verifier (new_session c);
           x_redirect_uri := uri |}.
Proof.
  intros _. cbn zeta. split; [reflexivity|].
  rewrite (consumeCallback_found _ _ _
             (new_session (createAuthUrl sha256 cfg uri created created g states)));
    [reflexivity|].
  rewrite createAuthUrl_states_after, createAuthUrl_state. cbn zeta.
  apply lookup_insert_eq.
Qed.

(** *** Single use *)

Lemma consumeCallback_keeps_absent (states : gmap string PkceState)
    (s s' code : string) :
  states !! s = None → (consumeCallback s' code states).2 !! s = None.
Proof.
  intros Hs. unfold consumeCallback, getPkceState, removePkceState.
  destruct (states !! s'); [|done]. cbn.
  destruct (decide (s' = s)) as [->|Hne].
  - apply lookup_delete_eq.
  - by rewrite lookup_delete_ne.
Qed.

Lemma callback_begin_keeps_absent (q : Query) (states : gmap string PkceState)
    (s : string) :
  states !! s = None → (callback_begin q states).2 !! s = None.
Proof.
  intros Hs. unfold callback_begin.
  destruct (Js.truthy_opt (q_error q)); [done|].
  destruct (q_code q) as [code|]; [|done].
  destruct (q_state q) as [state|]; [|done].
  destruct (negb (Js.truthy code) || negb (Js.truthy state)); [done|].
  by apply consumeCallback_keeps_absent.
Qed.

Lemma table_step_keeps_absent cfg (op : TableOp) (states : gmap string PkceState)
    (s : string) :
  ¬ creates s op → states !! s = None →
  table_step sha256 cfg states op !! s = None.
Proof.
  intros Hop Hs. destruct op as [uri t1 t2 g|q]; unfold table_step, creates in *.
  - rewrite createAuthUrl_states_after. cbn zeta.
    rewrite lookup_insert_ne by done.
    by rewrite cleanupExpiredStates_lookup, Hs.
  - by apply callback_begin_keeps_absent.
Qed.

Lemma table_run_keeps_absent cfg (ops : list TableOp) (states : gmap string PkceState)
    (s : string) :
  Forall (λ op, ¬ creates s op) ops → states !! s = None →
  table_run sha256 cfg states ops !! s = None.
Proof.
  unfold table_run. revert states.
  induction ops as [|op ops IH]; intros states Hops Hs; [done|].
  inversion Hops as [|? ? Hop Hrest]; subst. cbn.
  apply IH; [done|]. by apply table_step_keeps_absent.
Qed.

(** Whatever the lookup for [s] answers, it leaves no session under [s]:
    the session is deleted before the token exchange starts. *)
Lemma consumeCallback_deletes (states : gmap string PkceState) (s code : string) :
  (consumeCallback s code states).2 !! s = None.
Proof.
  destruct (states !! s) as [d|] eqn:Hd.
  - rewrite (consumeCallback_found _ _ _ d) by done. apply lookup_delete_eq.
  - by rewrite consumeCallback_absent.
Qed.

(** C7.  For every state: once the callback has been consumed for it, the
    session is out of the table before the token exchange has begun, and a
    second consumption with the same state is answered "Invalid or expired
    state", whatever happens to the exchange of the first and whatever
    other logins and callbacks are handled in between, as long as none of
    these logins draws the same state again. *)
Theorem callback_state_single_use cfg (states : gmap string PkceState)
    (s code1 code2 : string) (between : list TableOp) :
  Forall (λ op, ¬ creates s op) between →
  let after_first := (consumeCallback s code1 states).2 in
  after_first !! s = None ∧
  consumeCallback s code2 (table_run sha256 cfg after_first between)
  = (inl InvalidOrExpiredState, table_run sha256 cfg after_first between).
Proof.
  intros Hops. cbn zeta.
  pose proof (consumeCallback_deletes states s code1) as Hgone.
  split; [done|].
  apply consumeCallback_absent. by apply table_run_keeps_absent.
Qed.

(** Two consumptions in a row: the second always fails. *)
Corollary consumeCallback_twice (states : gmap string PkceState)
    (s code1 code2 : string) :
  (consumeCallback s code2 (consumeCallback s code1 states).2).1
  = inl InvalidOrExpiredState.
Proof.
  by rewrite consumeCallback_absent by apply consumeCallback_deletes.
Qed.

End PkceFacts.

(** The verifier and challenge of RFC 7636, appendix B. *)
Example challenge_rfc7636 :
  Pkce.generateCodeChallenge Sha256.sha256 "dBjftJeZ4CVP-mB92K27uhbUJU1p1r_wW1gFWFOEjXk"
  = "E9Melhoa2OwvFrEMTJguCHaoeK1t8URWbuGJSstw-cM".
Proof. by vm_compute. Qed.

(** The URL of a login on the default configuration, all random bytes zero. *)
Example authorization_url_zeros :
  Pkce.url (Pkce.createAuthUrl Sha256.sha256 (Pkce.OCA_CONFIG Spec.empty_config)
              Spec.local_callback 0 0 Spec.zeros ∅)
  = "https://idcs-9dc693e80d9b469480d7afe00e743931.identity.oraclecloud.com"
    +:+ "/oauth2/v1/authorize?client_id=a8331954c0cf48ba99b5dd223a14c6ea"
    +:+ "&response_type=code&scope=openid+offline_access"
    +:+ "&redirect_uri=http%3A%2F%2Flocalhost%3A8669%2Fcallback"
    +:+ "&state=AAAAAAAAAAAAAAAAAAAAAAAAAAAAAAAA"
    +:+ "&nonce=AAAAAAAAAAAAAAAAAAAAAAAAAAAAAAAA"
    +:+ "&code_challenge=tqw8wQOGMxx2XwTwQcFH0PJ48q7Y6qAh4tAFf8b2_54"
    +:+ "&code_challenge_method=S256".
Proof. by vm_compute. Qed.

(** ** The token manager *)
Section AuthFacts.
Import Auth AuthSpec.

(** *** Failure policy of a refresh *)

Lemma refreshTokenRejected_spec (f : Failure) :
  refreshTokenRejected f = true ↔ token_rejected f.
Proof.
  unfold refreshTokenRejected, token_rejected.
  rewrite andb_true_iff, orb_true_iff, !bool_decide_eq_true. tauto.
Qed.

Lemma catch_rejected (p : nat) (f : Failure) (w : World) :
  token_rejected f →
  doRefreshToken_catch p f w = settle p (Rejected REFRESH_TOKEN_EXPIRED) (clearAuth w).
Proof.
  intros H. unfold doRefreshToken_catch.
  by rewrite (proj2 (refreshTokenRejected_spec f) H).
Qed.

Lemma catch_other (p : nat) (f : Failure) (w : World) :
  ¬ token_rejected f →
  doRefreshToken_catch p f w = settle p (Rejected (REFRESH_FAILED f)) w.
Proof.
  intros H. unfold doRefreshToken_catch.
  destruct (refreshTokenRejected f) eqn:E; [|done].
  by apply refreshTokenRejected_spec in E.
Qed.

Lemma step_fails_with (w : World) (p : nat) (e : Event) (f : Failure) :
  fails_with w p e f → step e w = doRefreshToken_catch p f w.
Proof.
  intros [[-> Hp]|(now & -> & Hp)]; cbn; by rewrite Hp.
Qed.

(** C3.  When a refresh fails with HTTP 400 and error code [invalid_grant]
    or [invalid_token], the manager forgets the refresh token, the access
    token and its expiry, removes the token file, and rejects with
    "Refresh token expired", so that [isAuthenticated()] is false
    afterwards.  When a refresh fails in any other way, the refresh token,
    the access token, the expiry and the token file are what they were, and
    the promise is rejected with "Failed to refresh OCA access token". *)
Theorem refresh_failure_policy (w : World) (p : nat) (e : Event) (f : Failure) :
  fails_with w p e f →
  let w' := step e w in
  (token_rejected f →
     refreshToken (tm w') = None ∧ accessToken (tm w') = None ∧
     tokenExpiry (tm w') = None ∧ tokenFile w' = None ∧
     isAuthenticated (tm w') = false ∧
     settled w' !! p = Some (Rejected REFRESH_TOKEN_EXPIRED)) ∧
  (¬ token_rejected f →
     refreshToken (tm w') = refreshToken (tm w) ∧
     accessToken (tm w') = accessToken (tm w) ∧
     tokenExpiry (tm w') = tokenExpiry (tm w) ∧
     tokenFile w' = tokenFile w ∧
     isAuthenticated (tm w') = isAuthenticated (tm w) ∧
     settled w' !! p = Some (Rejected (REFRESH_FAILED f))).
Proof.
  intros Hf. cbn zeta. rewrite (step_fails_with _ _ _ _ Hf). split; intros Hr.
  - rewrite catch_rejected by done. cbn.
    repeat split; try done. apply lookup_insert_eq.
  - rewrite catch_other by done. cbn.
    repeat split; try done. apply lookup_insert_eq.
Qed.

(** A refresh that finds the refresh token gone (a logout came in while the
    discovery request was on its way) fails the second way. *)
Lemma refresh_without_token (w : World) (p : nat) (d : Discovery) :
  pending w !! p = Some AwaitDiscovery →
  Js.truthy_opt (refreshToken (tm w)) = false →
  let w' := step (DiscoveryReply p (Ok d)) w in
  tm w' = {| refreshToken := refreshToken (tm w); accessToken := accessToken (tm w);
             tokenExpiry := tokenExpiry (tm w); refreshPromise := None |} ∧
  tokenFile w' = tokenFile w ∧ network w' = network w ∧
  is_Some (settled w' !! p).
Proof.
  intros Hp Hrt. cbn zeta. cbn [step]. rewrite Hp. unfold doRefreshToken_discovered.
  assert (Hmiss : ∀ w0, doRefreshToken_catch p
            {| status := None; error_code := None;
               message := Some MISSING_REFRESH_TOKEN |} w0
          = settle p (Rejected (REFRESH_FAILED
              {| status := None; error_code := None;
                 message := Some MISSING_REFRESH_TOKEN |})) w0).
  { intros w0. apply catch_other. by intros [? _]. }
  destruct (refreshToken (tm w)) as [rt|] eqn:E; cbn in Hrt.
  - rewrite Hrt, Hmiss. cbn. rewrite E, lookup_insert_eq. eauto.
  - rewrite Hmiss. cbn. rewrite E, lookup_insert_eq. eauto.
Qed.

(** *** Coalescing of concurrent refreshes *)

Lemma cachedTokenValid_later (t : TokenManager) (now0 now : Z) :
  cachedTokenValid t now0 = false → (now0 ≤ now)%Z →
  cachedTokenValid t now = false.
Proof.
  unfold cachedTokenValid. intros H Hle.
  destruct (Js.truthy_opt (accessToken t)); [|done].
  destruct (tokenExpiry t) as [[x|]|]; [|done..]. cbn in *.
  apply Z.ltb_ge. apply Z.ltb_ge in H. lia.
Qed.

(** A [getToken] call made while a refresh is outstanding joins it. *)
Lemma getToken_joins (w : World) (p : nat) (ph : Phase) (now : Z) :
  outstanding w p ph →
  Js.truthy_opt (refreshToken (tm w)) = true →
  cachedTokenValid (tm w) now = false →
  getToken now w = (Awaits p, w).
Proof.
  intros [Hp _] Hrt Hc. unfold getToken. by rewrite Hrt, Hc, Hp.
Qed.

(** One event of the concurrent phase, with a refresh outstanding: a call
    joins it, the discovery document makes it post its grant, and a reply
    it does not wait for changes nothing. *)
Lemma step_outstanding (now0 : Z) (w : World) (p : nat) (ph : Phase) (e : Event)
    (rt : string) :
  outstanding w p ph →
  refreshToken (tm w) = Some rt → rt ≠ "" →
  cachedTokenValid (tm w) now0 = false →
  concurrent now0 e →
  let d := match ph with
           | AwaitDiscovery => discovery_for p [e]
           | AwaitPost => None
           end in
  outstanding (step e w) p (match d with Some _ => AwaitPost | None => ph end) ∧
  tm (step e w) = tm w ∧
  settled (step e w) = settled w ∧
  nextPromise (step e w) = nextPromise w ∧
  calls (step e w) = calls w ++ awaiting p (callers [e]) ∧
  network (step e w) = network w ++ grant rt d.
Proof.
  intros Hout Hrt Hne Hc He. pose proof Hout as [Hp Hpend].
  assert (Htruthy : Js.truthy_opt (refreshToken (tm w)) = true).
  { rewrite Hrt. by destruct rt. }
  destruct e as [c now|p' [d|f]|p' r now|tok|]; cbn in He; try done.
  - (* a call: it finds the promise and awaits it *)
    cbn [step].
    rewrite (getToken_joins w p ph now Hout Htruthy) by eauto using cachedTokenValid_later.
    destruct ph; cbn; rewrite app_nil_r; done.
  - (* the discovery document *)
    cbn [step discovery_for]. destruct (decide (p' = p)) as [->|Hp'].
    + rewrite Hpend, lookup_singleton_eq. destruct ph.
      * unfold doRefreshToken_discovered. rewrite Hrt.
        replace (Js.truthy rt) with true by (by destruct rt).
        unfold outstanding. cbn. rewrite Hpend, insert_singleton_eq, app_nil_r. done.
      * cbn. rewrite !app_nil_r. done.
    + rewrite Hpend, lookup_singleton_ne by done.
      destruct ph; cbn; rewrite !app_nil_r; done.
Qed.

(** Once the grant is posted, the events of the concurrent phase send
    nothing more. *)
Lemma run_posted (now0 : Z) (es : list Event) (w : World) (p : nat) (rt : string) :
  outstanding w p AwaitPost →
  refreshToken (tm w) = Some rt → rt ≠ "" →
  cachedTokenValid (tm w) now0 = false →
  Forall (concurrent now0) es →
  outstanding (run es w) p AwaitPost ∧
  tm (run es w) = tm w ∧
  settled (run es w) = settled w ∧
  nextPromise (run es w) = nextPromise w ∧
  calls (run es w) = calls w ++ awaiting p (callers es) ∧
  network (run es w) = network w.
Proof.
  intros Hout Hrt Hne Hc Hes. revert w Hout Hrt Hc.
  induction Hes as [|e es He Hes IH]; intros w Hout Hrt Hc.
  - cbn. rewrite app_nil_r. done.
  - destruct (step_outstanding now0 w p AwaitPost e rt Hout Hrt Hne Hc He)
      as (Hout1 & Htm1 & Hs1 & Hn1 & Hc1 & Hnet1).
    cbn in Hout1, Hnet1. rewrite app_nil_r in Hnet1.
    destruct (IH (step e w) Hout1) as (Hout2 & Htm2 & Hs2 & Hn2 & Hc2 & Hnet2).
    { by rewrite Htm1. } { by rewrite Htm1. }
    change (run (e :: es) w) with (run es (step e w)).
    split; [exact Hout2|]. do 3 (split; [congruence|]). split; [|congruence].
    rewrite Hc2, Hc1, <- app_assoc. f_equal. unfold awaiting, callers.
    by rewrite <- map_app, <- omap_app.
Qed.

(** Any number of events of the concurrent phase, from the moment the
    discovery request is sent. *)
Lemma run_outstanding (now0 : Z) (es : list Event) (w : World) (p : nat) (rt : string) :
  outstanding w p AwaitDiscovery →
  refreshToken (tm w) = Some rt → rt ≠ "" →
  cachedTokenValid (tm w) now0 = false →
  Forall (concurrent now0) es →
  outstanding (run es w) p (phase_after (discovery_for p es)) ∧
  tm (run es w) = tm w ∧
  settled (run es w) = settled w ∧
  nextPromise (run es w) = nextPromise w ∧
  calls (run es w) = calls w ++ awaiting p (callers es) ∧
  network (run es w) = network w ++ grant rt (discovery_for p es).
Proof.
  intros Hout Hrt Hne Hc Hes. revert w Hout Hrt Hc.
  induction Hes as [|e es He Hes IH]; intros w Hout Hrt Hc.
  - cbn. rewrite !app_nil_r. done.
  - destruct (step_outstanding now0 w p AwaitDiscovery e rt Hout Hrt Hne Hc He)
      as (Hout1 & Htm1 & Hs1 & Hn1 & Hc1 & Hnet1).
    cbn zeta in Hout1, Hnet1.
    change (run (e :: es) w) with (run es (step e w)).
    assert (Hcalls : ∀ w2, calls w2 = calls (step e w) ++ awaiting p (callers es) →
              calls w2 = calls w ++ awaiting p (callers (e :: es))).
    { intros w2 ->. rewrite Hc1, <- app_assoc. f_equal. unfold awaiting, callers.
      by rewrite <- map_app, <- omap_app. }
    destruct (discovery_for p [e]) as [d|] eqn:Hd.
    + (* this event is the discovery document *)
      assert (Hde : discovery_for p (e :: es) = Some d).
      { destruct e as [c now|p' [d'|f]|p' r now|tok|]; cbn in Hd |- *; try done.
        by destruct (decide (p' = p)). }
      rewrite Hde.
      destruct (run_posted now0 es (step e w) p rt Hout1)
        as (Hout2 & Htm2 & Hs2 & Hn2 & Hc2 & Hnet2);
        [by rewrite Htm1|done|by rewrite Htm1|done|].
      split; [exact Hout2|]. do 3 (split; [congruence|]).
      split; [by apply Hcalls|]. by rewrite Hnet2, Hnet1.
    + assert (Hde : discovery_for p (e :: es) = discovery_for p es).
      { destruct e as [c now|p' [d'|f]|p' r now|tok|]; cbn in Hd |- *; try done.
        by destruct (decide (p' = p)). }
      rewrite Hde.
      destruct (IH (step e w) Hout1) as (Hout2 & Htm2 & Hs2 & Hn2 & Hc2 & Hnet2);
        [by rewrite Htm1..|].
      split; [exact Hout2|]. do 3 (split; [congruence|]).
      split; [by apply Hcalls|].
      rewrite Hnet2, Hnet1. cbn. by rewrite app_nil_r.
Qed.

(** The first call of the concurrent phase starts the refresh. *)
Lemma getToken_starts (w : World) (c : nat) (now : Z) :
  idle w →
  Js.truthy_opt (refreshToken (tm w)) = true →
  cachedTokenValid (tm w) now = false →
  let w' := step (GetToken c now) w in
  outstanding w' (nextPromise w) AwaitDiscovery ∧
  refreshToken (tm w') = refreshToken (tm w) ∧
  accessToken (tm w') = accessToken (tm w) ∧
  tokenExpiry (tm w') = tokenExpiry (tm w) ∧
  calls w' = calls w ++ [(c, Awaits (nextPromise w))] ∧
  network w' = network w ++ [GetDiscovery].
Proof.
  intros [Hp Hpend] Hrt Hc. cbn zeta. cbn [step]. unfold getToken.
  rewrite Hrt, Hc, Hp. unfold outstanding. cbn.
  rewrite Hpend, insert_empty. done.
Qed.

(** While no refresh is outstanding, a stray discovery reply changes
    nothing. *)
Lemma stray_discovery (w : World) (p : nat) (r : Reply Discovery) :
  pending w = ∅ → step (DiscoveryReply p r) w = w.
Proof. intros H. cbn. by rewrite H, lookup_empty. Qed.

(** The reply that settles the outstanding refresh: the promise is
    resolved with the access token of the reply, or rejected with the
    message of the failure. *)
Lemma step_settles (w : World) (p : nat) (ph : Phase) (e : Event) :
  outstanding w p ph → settles w p e →
  ∃ r, settled (step e w) !! p = Some r ∧
       (∀ data now, e = TokenReply p (Ok data) now →
          r = Resolved (Js.or_else (access_token data) "")) ∧
       (∀ f, fails_with w p e f → token_rejected f →
          r = Rejected REFRESH_TOKEN_EXPIRED) ∧
       (∀ f, fails_with w p e f → ¬ token_rejected f →
          r = Rejected (REFRESH_FAILED f)) ∧
       calls (step e w) = calls w ∧
       network (step e w) = network w ∧
       idle (step e w).
Proof.
  intros [Hp Hpend] He.
  assert (Hidle : ∀ r w0, pending w0 = pending w → idle (settle p r w0)).
  { intros r w0 Hw0. unfold idle. cbn. by rewrite Hw0, Hpend, delete_singleton_eq. }
  assert (Hcatch : ∀ f, fails_with w p e f →
    ∃ r, settled (step e w) !! p = Some r ∧
         (token_rejected f → r = Rejected REFRESH_TOKEN_EXPIRED) ∧
         (¬ token_rejected f → r = Rejected (REFRESH_FAILED f)) ∧
         calls (step e w) = calls w ∧ network (step e w) = network w ∧
         idle (step e w)).
  { intros f Hf. rewrite (step_fails_with _ _ _ _ Hf).
    destruct (decide (token_rejected f)) as [Hr|Hr].
    - rewrite catch_rejected by done. eexists. split; [apply lookup_insert_eq|].
      split; [done|]. split; [done|]. split; [done|]. split; [done|]. by apply Hidle.
    - rewrite catch_other by done. eexists. split; [apply lookup_insert_eq|].
      split; [done|]. split; [done|]. split; [done|]. split; [done|]. by apply Hidle. }
  assert (Hsame : ∀ f f', fails_with w p e f → fails_with w p e f' → f' = f).
  { intros f f' [[-> _]|(now & -> & _)] [[[= ->] _]|(now' & [= -> ?] & _)]; done. }
  destruct e as [c now|p' [d|f]|p' [data|f] now|tok|]; cbn in He; try done;
    destruct He as [-> Hph].
  - (* the discovery request failed *)
    assert (Hf : fails_with w p (DiscoveryReply p (Err f)) f) by (by left).
    destruct (Hcatch f Hf) as (r & Hr & Hrej & Hoth & Hrest).
    exists r. split; [exact Hr|]. split; [done|].
    split; [intros f' Hf'; by rewrite (Hsame _ _ Hf Hf')|].
    split; [intros f' Hf'; by rewrite (Hsame _ _ Hf Hf')|]. exact Hrest.
  - (* the grant was answered *)
    cbn [step]. rewrite Hph. unfold doRefreshToken_refreshed.
    eexists. split; [apply lookup_insert_eq|].
    split; [by intros ? ? [= <- ?]|].
    split; [by intros f [[? _]|(? & ? & _)]|].
    split; [by intros f [[? _]|(? & ? & _)]|].
    split; [done|]. split; [done|].
    unfold idle. cbn. by rewrite Hpend, delete_singleton_eq.
  - (* the grant failed *)
    assert (Hf : fails_with w p (TokenReply p (Err f) now) f) by (right; eauto).
    destruct (Hcatch f Hf) as (r & Hr & Hrej & Hoth & Hrest).
    exists r. split; [exact Hr|]. split; [done|].
    split; [intros f' Hf'; by rewrite (Hsame _ _ Hf Hf')|].
    split; [intros f' Hf'; by rewrite (Hsame _ _ Hf Hf')|]. exact Hrest.
Qed.

(** C1.  Start with a valid refresh token, no valid cached access token and
    no refresh outstanding.  Let [getToken] be called any number of times,
    at least once, in any interleaving with the arrival of the discovery
    document.  Then exactly one refresh is executed: the requests sent are
    one discovery request and, once the discovery document has arrived, one
    refresh-token grant, posted to its token endpoint with the refresh
    token; every caller awaits the promise of that refresh; and when the
    network's answer settles it, nothing further is sent and every caller
    receives the result of that refresh: the access token of the answer, or
    the rejection for its failure. *)
Theorem getToken_coalesces (w : World) (rt : string) (now0 : Z) (es : list Event) :
  idle w →
  refreshToken (tm w) = Some rt → rt ≠ "" →
  cachedTokenValid (tm w) now0 = false →
  Forall (concurrent now0) es →
  callers es ≠ [] →
  let w' := run es w in
  let p := nextPromise w in
  let d := discovery_for p (after_first_call es) in
  outstanding w' p (phase_after d) ∧
  network w' = network w ++ refresh_requests rt d ∧
  discoveries w' = S (discoveries w) ∧
  refreshPosts w' = (refreshPosts w + posted (phase_after d))%nat ∧
  calls w' = calls w ++ awaiting p (callers es) ∧
  ∀ e, settles w' p e →
    let w'' := step e w' in
    ∃ r, Forall (λ co, delivered w'' co.2 = Some r) (awaiting p (callers es)) ∧
         (∀ data now, e = TokenReply p (Ok data) now →
            r = Resolved (Js.or_else (access_token data) "")) ∧
         (∀ f, fails_with w' p e f → token_rejected f →
            r = Rejected REFRESH_TOKEN_EXPIRED) ∧
         (∀ f, fails_with w' p e f → ¬ token_rejected f →
            r = Rejected (REFRESH_FAILED f)) ∧
         calls w'' = calls w' ∧
         network w'' = network w' ∧
         idle w''.
Proof.
  intros Hidle Hrt Hne Hc Hes Hcallers. cbn zeta.
  assert (Htruthy : Js.truthy_opt (refreshToken (tm w)) = true).
  { rewrite Hrt. by destruct rt. }
  revert Hcallers. induction Hes as [|e es He Hes IH]; [done|].
  destruct e as [c now|p' [d|f]|p' r now|tok|]; cbn in He; try done.
  - (* the first call *)
    intros _. change (run (GetToken c now :: es) w) with (run es (step (GetToken c now) w)).
    cbn [after_first_call].
    destruct (getToken_starts w c now Hidle Htruthy)
      as (Hout & Hrt1 & Hat1 & Hex1 & Hc1 & Hnet1);
      [eauto using cachedTokenValid_later|].
    destruct (run_outstanding now0 es (step (GetToken c now) w) (nextPromise w) rt Hout)
      as (Hout2 & Htm2 & Hs2 & Hn2 & Hc2 & Hnet2); [..|done|].
    { by rewrite Hrt1. } { done. }
    { unfold cachedTokenValid in *. by rewrite Hat1, Hex1. }
    assert (Hnet : network (run es (step (GetToken c now) w)) =
                   network w ++ refresh_requests rt (discovery_for (nextPromise w) es)).
    { rewrite Hnet2, Hnet1, <- app_assoc. done. }
    split; [done|]. split; [exact Hnet|].
    split. { unfold discoveries. rewrite Hnet, List.filter_app, length_app.
             by destruct (discovery_for _ es); cbn; lia. }
    split. { unfold refreshPosts. rewrite Hnet, List.filter_app, length_app.
             by destruct (discovery_for _ es); cbn; lia. }
    split. { rewrite Hc2, Hc1, <- app_assoc. done. }
    intros e Hsettle. cbn zeta.
    destruct (step_settles _ _ _ _ Hout2 Hsettle)
      as (r & Hr & Hok & Hrej & Hoth & Hcalls & Hnetw & Hid).
    exists r. split; [|done].
    apply Forall_forall. intros co Hco. unfold awaiting in Hco.
    apply list_elem_of_fmap in Hco as (c' & -> & _). done.
  - (* a stray reply before the first call *)
    intros Hcallers. change (run (DiscoveryReply p' (Ok d) :: es) w)
      with (run es (step (DiscoveryReply p' (Ok d)) w)).
    rewrite stray_discovery by apply Hidle. cbn [after_first_call]. by apply IH.
Qed.

(** *** At most one refresh at any instant *)

Lemma settle_idle (w : World) (p : nat) (ph : Phase) (r : Result) :
  pending w = {[p := ph]} → idle (settle p r w).
Proof.
  intros Hpend. unfold idle. cbn. by rewrite Hpend, delete_singleton_eq.
Qed.

Lemma catch_idle (w : World) (p : nat) (ph : Phase) (f : Failure) :
  pending w = {[p := ph]} → idle (doRefreshToken_catch p f w).
Proof.
  intros Hpend. unfold doRefreshToken_catch.
  destruct (refreshTokenRejected f); by eapply settle_idle.
Qed.

Lemma step_coherent (e : Event) (w : World) : coherent w → coherent (step e w).
Proof.
  intros [[Hp Hpend]|(p & ph & Hp & Hpend)].
  - (* nothing outstanding *)
    destruct e as [c now|p' r|p' r now|tok|]; cbn [step].
    + unfold getToken.
      destruct (negb (Js.truthy_opt (refreshToken (tm w)))); [by left|].
      destruct (cachedTokenValid (tm w) now); [by left|].
      rewrite Hp. right. exists (nextPromise w), AwaitDiscovery.
      unfold outstanding. cbn. by rewrite Hpend, insert_empty.
    + rewrite Hpend, lookup_empty. by left.
    + rewrite Hpend, lookup_empty. by left.
    + by left.
    + by left.
  - (* the refresh [p] is outstanding *)
    destruct e as [c now|p' r|p' r now|tok|]; cbn [step].
    + unfold getToken.
      destruct (negb (Js.truthy_opt (refreshToken (tm w)))); [right; by exists p, ph|].
      destruct (cachedTokenValid (tm w) now); [right; by exists p, ph|].
      rewrite Hp. right. by exists p, ph.
    + destruct (decide (p' = p)) as [->|Hne].
      * rewrite Hpend, lookup_singleton_eq. destruct ph; [|right; by exists p, AwaitPost].
        unfold doRefreshToken_discovered. destruct r as [d|f].
        -- destruct (refreshToken (tm w)) as [rt|];
             [destruct (Js.truthy rt)|]; try (left; by eapply catch_idle).
           right. exists p, AwaitPost. unfold outstanding. cbn.
           by rewrite Hpend, insert_singleton_eq.
        -- left. by eapply catch_idle.
      * rewrite Hpend, lookup_singleton_ne by done. right. by exists p, ph.
    + destruct (decide (p' = p)) as [->|Hne].
      * rewrite Hpend, lookup_singleton_eq. destruct ph; [right; by exists p, AwaitDiscovery|].
        left. unfold doRefreshToken_refreshed. destruct r as [d|f].
        -- unfold idle. cbn. by rewrite Hpend, delete_singleton_eq.
        -- by eapply catch_idle.
      * rewrite Hpend, lookup_singleton_ne by done. right. by exists p, ph.
    + right. by exists p, ph.
    + right. by exists p, ph.
Qed.

(** X2.  Whatever the process does after it starts (calls, replies in any
    order, logins, logouts), at most one activation of [doRefreshToken] is
    waiting for the network, and while one is, [refreshPromise] is its
    promise; otherwise [refreshPromise] is [null]. *)
Theorem at_most_one_refresh (file : option string) (es : list Event) :
  coherent (run es (boot file)).
Proof.
  assert (H : ∀ w, coherent w → coherent (run es w)).
  { induction es as [|e es IH]; intros w Hw; [done|].
    apply IH. by apply step_coherent. }
  apply H. by left.
Qed.

(** *** A whole refresh that fails *)

(** A refresh that runs from the call to a failure other than a rejected
    refresh token leaves the refresh token, in memory and on disk, as it
    was before the call. *)
Lemma failed_refresh_keeps_refresh_token (w : World) (c : nat) (now now' : Z)
    (d : Discovery) (f : Failure) :
  idle w → Js.truthy_opt (refreshToken (tm w)) = true →
  cachedTokenValid (tm w) now = false →
  ¬ token_rejected f →
  let p := nextPromise w in
  let by_discovery := run [GetToken c now; DiscoveryReply p (Err f)] w in
  let by_token :=
    run [GetToken c now; DiscoveryReply p (Ok d); TokenReply p (Err f) now'] w in
  refreshToken (tm by_discovery) = refreshToken (tm w) ∧
  tokenFile by_discovery = tokenFile w ∧
  delivered by_discovery (Awaits p) = Some (Rejected (REFRESH_FAILED f)) ∧
  refreshToken (tm by_token) = refreshToken (tm w) ∧
  tokenFile by_token = tokenFile w ∧
  delivered by_token (Awaits p) = Some (Rejected (REFRESH_FAILED f)).
Proof.
  intros [Hp Hpend] Hrt Hc Hf. cbn zeta. unfold run. cbn [foldl step].
  unfold getToken. rewrite Hrt, Hc, Hp. cbn [negb doRefreshToken_start].
  cbn [pending with_tm]. rewrite Hpend, insert_empty, !lookup_singleton_eq.
  unfold doRefreshToken_discovered. cbn [tm with_tm refreshToken].
  destruct (refreshToken (tm w)) as [rt|] eqn:E; [|done]. cbn in Hrt.
  rewrite Hrt. cbn [pending]. rewrite lookup_insert_eq.
  unfold doRefreshToken_refreshed. rewrite !catch_other by done.
  cbn. rewrite !lookup_insert_eq. done.
Qed.

(** *** A refresh that succeeds *)

(** A refresh that rotates the refresh token: every caller gets the new
    access token, the new refresh token is in memory and on disk, and the
    next call is served from the cache without any request. *)
Example refresh_rotates :
  let w := run (three_callers ++ [TokenReply 0 (Ok fresh_tokens) 1000]) (logged_in "rt-1") in
  Forall (λ co, delivered w co.2 = Some (Resolved "at-1")) (calls w) ∧
  refreshToken (tm w) = Some "rt-2" ∧ tokenFile w = Some "rt-2" ∧
  tokenExpiry (tm w) = Some (Js.date 3601000) ∧
  network w = [GetDiscovery; PostRefresh (token_endpoint discovery_doc) "rt-1"] ∧
  getToken 2000 w = (Returns "at-1", w).
Proof.
  cbn zeta. split; [|by vm_compute].
  repeat constructor; by vm_compute.
Qed.

End AuthFacts.

(** ** Line buffering *)
Section LineFacts.
Import Wire.

Lemma complete_app (a b : string) :
  complete (a +:+ b) = complete a ++ complete (partial a +:+ b).
Proof.
  unfold complete, partial. rewrite split_app.
  apply removelast_app_nonempty, split_nonempty.
Qed.

Lemma partial_app (a b : string) :
  partial (a +:+ b) = partial (partial a +:+ b).
Proof.
  unfold partial. rewrite split_app.
  apply last_app_nonempty, split_nonempty.
Qed.

Lemma split_one_line (s : string) : one_line s = true → Js.split s = [s].
Proof.
  induction s as [|c s IH]; [done|]. cbn. intros [Hc Hs]%andb_true_iff.
  apply negb_true_iff in Hc. by rewrite Hc, IH.
Qed.

Lemma split_all_one_line (s : string) :
  Forall (λ l, one_line l = true) (Js.split s).
Proof.
  induction s as [|c s IH]; cbn; [by constructor|].
  destruct (Ascii.eqb c Js.newline) eqn:Hc; [by constructor|].
  destruct (Js.split s) as [|h t]; [by constructor; [cbn; rewrite Hc|]|].
  inversion IH; subst. constructor; [|done]. cbn. by rewrite Hc.
Qed.

(** What is carried to the next chunk holds no newline. *)
Lemma partial_one_line (s : string) : one_line (partial s) = true.
Proof.
  unfold partial. pose proof (split_all_one_line s) as H.
  pose proof (split_nonempty s) as Hne.
  induction H as [|l ls Hl Hls IH]; [done|].
  destruct ls as [|l' ls]; [done|]. rewrite last_cons by done. by apply IH.
Qed.

Lemma complete_one_line (s : string) : one_line s = true → complete s = [].
Proof. intros H. unfold complete. by rewrite split_one_line. Qed.

Lemma partial_of_one_line (s : string) : one_line s = true → partial s = s.
Proof. intros H. unfold partial. by rewrite split_one_line. Qed.

(** A line followed by a newline is split off. *)
Lemma split_line (l rest : string) :
  one_line l = true → Js.split (l +:+ nl +:+ rest) = l :: Js.split rest.
Proof.
  intros Hl. rewrite split_app, (split_one_line l Hl).
  cbn [List.removelast List.last app].
  induction l as [|c l IH]; [done|].
  cbn in Hl. apply andb_true_iff in Hl as [Hc Hl]. apply negb_true_iff in Hc.
  rewrite append_cons. cbn [Js.split]. rewrite Hc, (IH Hl). done.
Qed.

(** Decoding leaves ASCII as it is. *)
Lemma toString_ascii (s : string) : ascii_only s = true → Buffer.toString s = s.
Proof.
  unfold Buffer.toString. induction s as [|c s IH]; [done|].
  cbn [ascii_only]. intros [Hc Hs]%andb_true_iff.
  cbn [Buffer.decode]. unfold Buffer.first_byte. rewrite Hc, (IH Hs). done.
Qed.

Lemma decoded_nil : decoded [] = "".
Proof. reflexivity. Qed.

Lemma decoded_cons (c : string) (cs : list string) :
  decoded (c :: cs) = Buffer.toString c +:+ decoded cs.
Proof. unfold decoded. cbn [map]. apply concat_nil_cons. Qed.

Lemma decoded_ascii (cs : list string) :
  Forall (λ c, ascii_only c = true) cs → decoded cs = String.concat "" cs.
Proof.
  induction 1 as [|c cs Hc Hcs IH]; [done|].
  by rewrite decoded_cons, concat_nil_cons, toString_ascii, IH.
Qed.

End LineFacts.

(** ** The streaming transcoder *)
Section StreamFacts.
Import Upstream Stream Wire.

Variable JSON_parse : string → option Chunk.

Local Abbreviation handleLine := (Stream.handleLine JSON_parse).
Local Abbreviation handleLines := (Stream.handleLines JSON_parse).
Local Abbreviation consume := (Stream.consume JSON_parse).

Lemma handleLines_app (st : State) (l1 l2 : list string) :
  handleLines st (l1 ++ l2) =
  let '(st1, ev1, returned) := handleLines st l1 in
  if returned then (st1, ev1, true)
  else let '(st2, ev2, returned2) := handleLines st1 l2 in
       (st2, ev1 ++ ev2, returned2).
Proof.
  revert st. induction l1 as [|l l1 IH]; intros st.
  - cbn. by destruct (handleLines st l2) as [[??]?].
  - cbn. destruct (handleLine st l) as [[st1 ev1] [|]]; [done|].
    rewrite IH. destruct (handleLines st1 l1) as [[st2 ev2] [|]]; [done|].
    destruct (handleLines st2 l2) as [[st3 ev3] r3]. by rewrite app_assoc.
Qed.

(** However the stream is cut into chunks, the generator yields what the
    complete lines of the decoded text produce; the partial line at the end
    of a chunk waits in [buffer] for the next chunk. *)
Theorem consume_decoded (st : State) (buffer : string) (chunks : list string) :
  one_line buffer = true →
  consume st buffer chunks = events_of_text JSON_parse st (buffer +:+ decoded chunks).
Proof.
  unfold events_of_text. revert st buffer.
  induction chunks as [|chunk chunks IH]; intros st buffer Hbuf.
  - rewrite decoded_nil, append_nil_r, complete_one_line by done. done.
  - rewrite decoded_cons, append_assoc, complete_app, handleLines_app.
    cbn [Stream.consume]. fold (complete (buffer +:+ Buffer.toString chunk)).
    fold (partial (buffer +:+ Buffer.toString chunk)).
    destruct (handleLines st (complete (buffer +:+ Buffer.toString chunk)))
      as [[st1 ev1] [|]]; [done|].
    rewrite IH by apply partial_one_line.
    by destruct (handleLines st1 _) as [[??]?].
Qed.

(** Two ways of cutting the stream that decode to the same text give the
    same events. *)
Corollary stream_same_text (cs cs' : list string) (messageId modelName : string) :
  decoded cs = decoded cs' →
  streamAnthropicResponse JSON_parse cs messageId modelName =
  streamAnthropicResponse JSON_parse cs' messageId modelName.
Proof.
  intros H. unfold streamAnthropicResponse.
  by rewrite !consume_decoded, H.
Qed.

(** X23.  For a stream of ASCII bytes, every way of cutting it into chunks
    gives the same events: a line cut by a chunk boundary waits in [buffer]
    for its end. *)
Corollary stream_resplit_ascii (cs cs' : list string) (messageId modelName : string) :
  Forall (λ c, ascii_only c = true) cs → Forall (λ c, ascii_only c = true) cs' →
  String.concat "" cs = String.concat "" cs' →
  streamAnthropicResponse JSON_parse cs messageId modelName =
  streamAnthropicResponse JSON_parse cs' messageId modelName.
Proof.
  intros H H' Heq. apply stream_same_text. by rewrite !decoded_ascii, Heq.
Qed.

(** *** Lines *)

Lemma handleLine_blank (st : State) : handleLine st "" = (st, [], false).
Proof. reflexivity. Qed.

Lemma handleLine_data (st : State) (p : string) :
  handleLine st ("data: " +:+ p) =
  if String.eqb p "[DONE]" then (st, [message_stop], true)
  else match JSON_parse p with
       | Some data => let '(st1, ev) := handleData st data in (st1, ev, false)
       | None => (st, [], false)
       end.
Proof. reflexivity. Qed.

Lemma handleLine_done (st : State) :
  handleLine st "data: [DONE]" = (st, [message_stop], true).
Proof. reflexivity. Qed.

Lemma handleLine_parsed (st : State) (p : string) (data : Chunk) :
  p ≠ "[DONE]" → JSON_parse p = Some data →
  handleLine st ("data: " +:+ p) =
  ((handleData st data).1, (handleData st data).2, false).
Proof.
  intros Hp Hd. rewrite handleLine_data, Hd.
  apply String.eqb_neq in Hp. rewrite Hp. by destruct (handleData st data).
Qed.

Lemma split_sse (p rest : string) :
  one_line p = true →
  Js.split (sse p +:+ rest) = ("data: " +:+ p) :: "" :: Js.split rest.
Proof.
  intros Hp. unfold sse.
  replace (("data: " +:+ p +:+ nl +:+ nl) +:+ rest)
    with (("data: " +:+ p) +:+ nl +:+ ("" +:+ nl +:+ rest)).
  - assert (Hd : one_line ("data: " +:+ p) = true) by exact Hp.
    rewrite (split_line _ _ Hd). by rewrite split_line.
  - rewrite append_nil. by rewrite <- !append_assoc.
Qed.

Lemma split_framed (ps : list string) (rest : string) :
  Forall (λ p, one_line p = true) ps →
  Js.split (String.concat "" (map sse ps) +:+ rest) = framed_lines ps ++ Js.split rest.
Proof.
  induction 1 as [|p ps Hp Hps IH]; [done|].
  cbn [map]. rewrite concat_nil_cons, <- append_assoc, split_sse, IH by done. done.
Qed.

(** The complete lines of a framed stream closed by [[DONE]]. *)
Lemma complete_wire (ps : list string) :
  Forall (λ p, one_line p = true) ps →
  complete (wire ps) = framed_lines ps ++ ["data: [DONE]"; ""].
Proof.
  intros Hps. unfold complete, wire.
  rewrite split_framed by done.
  rewrite <- (append_nil_r (sse "[DONE]")), split_sse by done.
  rewrite removelast_app_nonempty by done. done.
Qed.

Lemma handleLines_blank (st : State) (rest : list string) :
  handleLines st ("" :: rest) = handleLines st rest.
Proof.
  cbn [Stream.handleLines]. rewrite handleLine_blank.
  by destruct (handleLines st rest) as [[??]?].
Qed.

Lemma handleLines_done (st : State) (rest : list string) :
  handleLines st ("data: [DONE]" :: rest) = (st, [message_stop], true).
Proof. reflexivity. Qed.

Lemma handleLines_parsed (st : State) (p : string) (data : Chunk)
    (rest : list string) :
  JSON_parse "[DONE]" = None → JSON_parse p = Some data →
  handleLines st (("data: " +:+ p) :: rest) =
  let '(st2, ev2, returned) := handleLines (handleData st data).1 rest in
  (st2, (handleData st data).2 ++ ev2, returned).
Proof.
  intros Hdone Hp. cbn [Stream.handleLines].
  rewrite (handleLine_parsed st p data); [done| |done].
  intros ->. congruence.
Qed.

Lemma handleLines_unparsed (st : State) (p : string) (rest : list string) :
  p ≠ "[DONE]" → JSON_parse p = None →
  handleLines st (("data: " +:+ p) :: rest) = handleLines st rest.
Proof.
  intros Hp Hnone. cbn [Stream.handleLines]. rewrite handleLine_data, Hnone.
  apply String.eqb_neq in Hp. rewrite Hp.
  by destruct (handleLines st rest) as [[??]?].
Qed.

(** *** The end of a message *)

(** A chunk with a finish reason closes the block at the current index,
    reports the translated reason with the output tokens of this chunk's
    own [usage] (0 when it has none), and writes [message_stop]. *)
Lemma handleData_finish (st : State) (data : Chunk) (reason : string) :
  head (choices data) ≫= finish_reason = Some reason → reason ≠ "" →
  ∃ st1 ev1,
    handleData st data =
    (st1, ev1 ++ [content_block_stop (contentBlockIndex st1);
                  message_delta (mapFinishReason reason)
                    (Js.or_elseZ (usage data ≫= completion_tokens) 0);
                  message_stop]).
Proof.
  intros Hr Hne. unfold handleData. rewrite Hr.
  destruct reason as [|c reason]; [done|]. cbn [Js.truthy].
  match goal with |- context [let '(_, _) := ?x in _] => destruct x as [st1 ev1] end.
  by exists st1, ev1.
Qed.

Lemma mapFinishReason_cases (r : string) :
  (r = "tool_calls" ∧ mapFinishReason r = "tool_use") ∨
  (r = "stop" ∧ mapFinishReason r = "end_turn") ∨
  (r ≠ "tool_calls" ∧ r ≠ "stop" ∧ mapFinishReason r = r).
Proof.
  unfold mapFinishReason.
  destruct (String.eqb_spec r "tool_calls") as [->|H1]; [by left|].
  destruct (String.eqb_spec r "stop") as [->|H2]; [right; by left|].
  right; right. done.
Qed.

(** Only the [[DONE]] line makes the generator return: after a finish
    reason it goes on reading. *)
Lemma handleLine_returns (st : State) (line : string) :
  (handleLine st line).2 = true → line = "data: [DONE]".
Proof.
  unfold Stream.handleLine.
  destruct (negb (Js.truthy line) || Js.startsWith line ":"); [done|].
  destruct (Js.startsWith line "data: ") eqn:Hd; [|done]. cbn [negb].
  destruct (String.eqb_spec (Js.slice_from 6 line) "[DONE]") as [He|He].
  - intros _.
    destruct line as [|c1 [|c2 [|c3 [|c4 [|c5 [|c6 rest]]]]]]; try done.
    cbn [Js.startsWith] in Hd. cbn [Js.slice_from] in He. subst rest.
    repeat (apply andb_true_iff in Hd as [?%Ascii.eqb_eq Hd]). by subst.
  - destruct (JSON_parse _); [|done]. by destruct (handleData st _).
Qed.

(** C2 on the code.  For the upstream events [content "Hi"],
    [content " there"], [finish_reason "stop"], [[DONE]], however they are
    cut into chunks, the transcoder yields the seven events of the
    specification and then a second [message_stop]: the finish reason does
    not end the generator, and [[DONE]] writes [message_stop] again. *)
Theorem stream_hi_there (cs : list string) (p1 p2 p3 : string)
    (messageId modelName : string) :
  JSON_parse "[DONE]" = None →
  JSON_parse p1 = Some (text_chunk "Hi") →
  JSON_parse p2 = Some (text_chunk " there") →
  JSON_parse p3 = Some (finish_chunk "stop") →
  one_line p1 = true → one_line p2 = true → one_line p3 = true →
  decoded cs = wire [p1; p2; p3] →
  streamAnthropicResponse JSON_parse cs messageId modelName =
  [ message_start messageId modelName;
    content_block_start_text 0;
    text_delta 0 "Hi";
    text_delta 0 " there";
    content_block_stop 0;
    message_delta "end_turn" 0;
    message_stop;
    message_stop ].
Proof.
  intros Hdone H1 H2 H3 L1 L2 L3 Hcs. unfold streamAnthropicResponse.
  rewrite consume_decoded by done. rewrite append_nil, Hcs.
  unfold events_of_text. rewrite complete_wire by (repeat constructor; done).
  cbn [framed_lines flat_map app].
  rewrite (handleLines_parsed _ p1 _ _ Hdone H1), handleLines_blank.
  rewrite (handleLines_parsed _ p2 _ _ Hdone H2), handleLines_blank.
  rewrite (handleLines_parsed _ p3 _ _ Hdone H3), handleLines_blank.
  rewrite handleLines_done. reflexivity.
Qed.

(** A tool call whose arguments come in three events, however the stream
    is cut into chunks: one [tool_use] block, and the three fragments as
    [input_json_delta]s in the order of arrival. *)
Lemma stream_tool_call (cs : list string) (p0 p1 p2 p3 id name a1 a2 a3 : string)
    (messageId modelName : string) :
  JSON_parse "[DONE]" = None →
  JSON_parse p0 = Some (tool_start_chunk id name) →
  JSON_parse p1 = Some (tool_args_chunk a1) →
  JSON_parse p2 = Some (tool_args_chunk a2) →
  JSON_parse p3 = Some (tool_args_chunk a3) →
  id ≠ "" → name ≠ "" → a1 ≠ "" → a2 ≠ "" → a3 ≠ "" →
  Forall (λ p, one_line p = true) [p0; p1; p2; p3] →
  decoded cs = wire [p0; p1; p2; p3] →
  streamAnthropicResponse JSON_parse cs messageId modelName =
  [ message_start messageId modelName;
    content_block_start_tool_use 0 id name;
    input_json_delta 0 a1;
    input_json_delta 0 a2;
    input_json_delta 0 a3;
    message_stop ].
Proof.
  intros Hdone H0 H1 H2 H3 Hid Hname Ha1 Ha2 Ha3 Hl Hcs.
  unfold streamAnthropicResponse.
  rewrite consume_decoded by done. rewrite append_nil, Hcs.
  unfold events_of_text. rewrite complete_wire by done.
  cbn [framed_lines flat_map app].
  rewrite (handleLines_parsed _ p0 _ _ Hdone H0), handleLines_blank.
  rewrite (handleLines_parsed _ p1 _ _ Hdone H1), handleLines_blank.
  rewrite (handleLines_parsed _ p2 _ _ Hdone H2), handleLines_blank.
  rewrite (handleLines_parsed _ p3 _ _ Hdone H3), handleLines_blank.
  rewrite handleLines_done.
  destruct id as [|i0 id]; [done|]. destruct name as [|n0 name]; [done|].
  destruct a1 as [|x1 a1]; [done|]. destruct a2 as [|x2 a2]; [done|].
  destruct a3 as [|x3 a3]; [done|]. reflexivity.
Qed.

(** Text, then a tool call, then the end: the text block is closed and
    the tool call opens block 1, which the finish reason closes. *)
Lemma stream_text_then_tool (cs : list string) (p1 p2 p3 p4 : string)
    (messageId modelName : string) :
  JSON_parse "[DONE]" = None →
  JSON_parse p1 = Some (text_chunk "Checking") →
  JSON_parse p2 = Some (tool_start_chunk "call_1" "clock") →
  JSON_parse p3 = Some (tool_args_chunk "{}") →
  JSON_parse p4 = Some (finish_chunk "tool_calls") →
  Forall (λ p, one_line p = true) [p1; p2; p3; p4] →
  decoded cs = wire [p1; p2; p3; p4] →
  streamAnthropicResponse JSON_parse cs messageId modelName =
  [ message_start messageId modelName;
    content_block_start_text 0;
    text_delta 0 "Checking";
    content_block_stop 0;
    content_block_start_tool_use 1 "call_1" "clock";
    input_json_delta 1 "{}";
    content_block_stop 1;
    message_delta "tool_use" 0;
    message_stop;
    message_stop ].
Proof.
  intros Hdone H1 H2 H3 H4 Hl Hcs. unfold streamAnthropicResponse.
  rewrite consume_decoded by done. rewrite append_nil, Hcs.
  unfold events_of_text. rewrite complete_wire by done.
  cbn [framed_lines flat_map app].
  rewrite (handleLines_parsed _ p1 _ _ Hdone H1), handleLines_blank.
  rewrite (handleLines_parsed _ p2 _ _ Hdone H2), handleLines_blank.
  rewrite (handleLines_parsed _ p3 _ _ Hdone H3), handleLines_blank.
  rewrite (handleLines_parsed _ p4 _ _ Hdone H4), handleLines_blank.
  rewrite handleLines_done. reflexivity.
Qed.

(** C4 on the code.  The event [data: {"choices":[{"delta":{"content":"é"}}]}]
    delivered in one chunk gives the text [é]; delivered in two chunks cut
    between the two bytes of [é], each chunk is decoded on its own, both
    halves become U+FFFD, and the text delta carries two replacement
    characters instead. *)
Theorem stream_cut_inside_character (messageId modelName : string) :
  JSON_parse (content_payload e_acute) = Some (text_chunk e_acute) →
  JSON_parse (content_payload (Buffer.REPLACEMENT +:+ Buffer.REPLACEMENT)) =
    Some (text_chunk (Buffer.REPLACEMENT +:+ Buffer.REPLACEMENT)) →
  cut_chunk1 +:+ cut_chunk2 = sse (content_payload e_acute) ∧
  streamAnthropicResponse JSON_parse [cut_chunk1 +:+ cut_chunk2] messageId modelName =
    [ message_start messageId modelName;
      content_block_start_text 0;
      text_delta 0 e_acute ] ∧
  streamAnthropicResponse JSON_parse [cut_chunk1; cut_chunk2] messageId modelName =
    [ message_start messageId modelName;
      content_block_start_text 0;
      text_delta 0 (Buffer.REPLACEMENT +:+ Buffer.REPLACEMENT) ].
Proof.
  intros Hgood Hbad. split; [by vm_compute|].
  assert (Hstep : ∀ p data,
            p ≠ "[DONE]" → one_line p = true → JSON_parse p = Some data →
            events_of_text JSON_parse initial (sse p) = (handleData initial data).2).
  { intros p data Hp Hl Hd. unfold events_of_text, complete.
    rewrite <- (append_nil_r (sse p)), split_sse by done.
    cbn [Js.split List.removelast Stream.handleLines].
    rewrite (handleLine_parsed _ p data Hp Hd), handleLine_blank.
    cbn. by rewrite app_nil_r. }
  split; unfold streamAnthropicResponse; rewrite consume_decoded by done.
  - replace ("" +:+ decoded [cut_chunk1 +:+ cut_chunk2])
      with (sse (content_payload e_acute)) by (by vm_compute).
    rewrite (Hstep (content_payload e_acute) _
               ltac:(by vm_compute) ltac:(by vm_compute) Hgood).
    reflexivity.
  - replace ("" +:+ decoded [cut_chunk1; cut_chunk2])
      with (sse (content_payload (Buffer.REPLACEMENT +:+ Buffer.REPLACEMENT)))
      by (by vm_compute).
    rewrite (Hstep (content_payload (Buffer.REPLACEMENT +:+ Buffer.REPLACEMENT)) _
               ltac:(by vm_compute) ltac:(by vm_compute) Hbad).
    reflexivity.
Qed.

End StreamFacts.

(** ** The non-streaming aggregate *)
Section AggregateFacts.
Import Upstream Aggregate Wire.

Variable JSON_parse : string → option Chunk.

Local Abbreviation collectLines := (Aggregate.collectLines JSON_parse).
Local Abbreviation collect := (Aggregate.collect JSON_parse).

Lemma collectLines_step (a : Acc) (line : string) (rest : list string) :
  collectLines a (line :: rest) =
  match data_payload line with
  | None => collectLines a rest
  | Some p =>
      if String.eqb p "[DONE]" then a
      else match JSON_parse p with
           | Some data => collectLines (collectData a data) rest
           | None => collectLines a rest
           end
  end.
Proof.
  cbn [Aggregate.collectLines]. unfold data_payload.
  by destruct (Js.startsWith line "data: ").
Qed.

(** The loop over the lines stops at [[DONE]]; up to there it folds
    [collectData] over the chunks that parse. *)
Lemma collectLines_fold (a : Acc) (lines : list string) :
  collectLines a lines = foldl collectData a (payload_chunks JSON_parse lines).
Proof.
  unfold payload_chunks. revert a.
  induction lines as [|line rest IH]; intros a; [done|].
  rewrite collectLines_step. cbn [before_done]. unfold is_done.
  destruct (data_payload line) as [p|] eqn:Hp.
  - destruct (String.eqb p "[DONE]"); [done|].
    cbn [omap list_omap]. rewrite Hp. cbn [omap list_omap].
    destruct (JSON_parse p); [cbn [foldl]|]; apply IH.
  - cbn [omap list_omap]. rewrite Hp. apply IH.
Qed.

Lemma collectLines_no_data (a : Acc) (lines : list string) :
  Forall (λ l, data_payload l = None) lines → collectLines a lines = a.
Proof.
  induction 1 as [|l ls Hl Hls IH]; [done|].
  by rewrite collectLines_step, Hl.
Qed.

Lemma collectLines_app (a : Acc) (l1 l2 : list string) :
  collectLines a (l1 ++ l2) =
  if has_done l1 then collectLines a l1
  else collectLines (collectLines a l1) l2.
Proof.
  revert a. induction l1 as [|l l1 IH]; intros a; [done|].
  change ((l :: l1) ++ l2) with (l :: (l1 ++ l2)).
  rewrite !collectLines_step. unfold has_done. cbn [existsb]. unfold is_done.
  destruct (data_payload l) as [p|]; [|apply IH].
  destruct (String.eqb p "[DONE]"); [done|]. cbn [orb].
  destruct (JSON_parse p); apply IH.
Qed.

Lemma after_done_app (l1 l2 : list string) :
  after_done (l1 ++ l2) =
  if has_done l1 then after_done l1 ++ l2 else after_done l2.
Proof.
  induction l1 as [|l l1 IH]; [done|].
  change ((l :: l1) ++ l2) with (l :: (l1 ++ l2)).
  unfold has_done. cbn [after_done existsb].
  destruct (is_done l); [done|]. apply IH.
Qed.

Lemma after_done_suffix (lines : list string) (P : string → Prop) :
  Forall P lines → Forall P (after_done lines).
Proof.
  induction 1 as [|l ls Hl Hls IH]; [done|]. cbn. by destruct (is_done l).
Qed.

(** When no data line follows [[DONE]], the chunks may be cut anywhere:
    the handler has collected the complete lines of the decoded text. *)
Lemma collect_decoded (a : Acc) (buffer : string) (chunks : list string) :
  one_line buffer = true →
  done_is_last (complete (buffer +:+ decoded chunks)) →
  collect a buffer chunks = collectLines a (complete (buffer +:+ decoded chunks)).
Proof.
  revert a buffer. induction chunks as [|chunk chunks IH]; intros a buffer Hbuf Hlast.
  - rewrite decoded_nil, append_nil_r, complete_one_line by done. done.
  - revert Hlast. rewrite decoded_cons, append_assoc, complete_app.
    unfold done_is_last. rewrite after_done_app, collectLines_app.
    cbn [Aggregate.collect]. fold (complete (buffer +:+ Buffer.toString chunk)).
    fold (partial (buffer +:+ Buffer.toString chunk)).
    destruct (has_done (complete (buffer +:+ Buffer.toString chunk))); intros Hlast.
    + apply Forall_app in Hlast as [_ Hrest].
      rewrite IH; [|apply partial_one_line|by apply after_done_suffix].
      by apply collectLines_no_data.
    + apply IH; [apply partial_one_line|done].
Qed.

(** What folding [collectData] over chunks leaves in the text and in the
    stop reason. *)
Lemma collectData_text (a : Acc) (c : Chunk) :
  fullContent (collectData a c) = fullContent a +:+ content_of c.
Proof.
  unfold collectData, content_of.
  destruct ((head (choices c) ≫= Upstream.delta) ≫= Upstream.content) as [[|ch t]|];
    destruct (head (choices c) ≫= finish_reason) as [[|ch' r]|];
    destruct (usage c); cbn; by rewrite ?append_nil_r.
Qed.

Lemma collectData_stop (a : Acc) (c : Chunk) :
  finishReason (collectData a c) =
  match finish_of c with
  | Some r => if String.eqb r "stop" then "end_turn" else r
  | None => finishReason a
  end.
Proof.
  unfold collectData, finish_of.
  destruct ((head (choices c) ≫= Upstream.delta) ≫= Upstream.content) as [[|ch t]|];
    destruct (head (choices c) ≫= finish_reason) as [[|ch' r]|];
    destruct (usage c); reflexivity.
Qed.

Lemma fold_collectData_text (a : Acc) (cs : list Chunk) :
  fullContent (foldl collectData a cs) = fullContent a +:+ aggregate_text cs.
Proof.
  unfold aggregate_text. revert a.
  induction cs as [|c cs IH]; intros a; [by rewrite append_nil_r|].
  cbn [foldl map]. by rewrite IH, collectData_text, concat_nil_cons, append_assoc.
Qed.

Lemma fold_collectData_stop (a : Acc) (cs : list Chunk) :
  finishReason (foldl collectData a cs) =
  match last (omap finish_of cs) with
  | Some r => if String.eqb r "stop" then "end_turn" else r
  | None => finishReason a
  end.
Proof.
  revert a. induction cs as [|c cs IH]; intros a; [done|].
  cbn [foldl omap list_omap]. rewrite IH, collectData_stop.
  destruct (finish_of c) as [r|]; [|done].
  destruct (omap finish_of cs) as [|r' rs] eqn:E; [done|].
  change (last (r :: r' :: rs)) with (last (r' :: rs)).
  destruct (last (r' :: rs)) eqn:El; [done|]. by apply last_None in El.
Qed.

(** The aggregate never reads the tool calls of a delta. *)
Lemma collectData_ignores_tool_calls (a : Acc) (text : option string)
    (tcs tcs' : option (list ToolCallDelta)) (fr : option string) (u : option Usage)
    (others : list Choice) :
  collectData a
    {| choices := {| delta := Some {| Upstream.content := text; tool_calls := tcs |};
                     finish_reason := fr |} :: others;
       usage := u |} =
  collectData a
    {| choices := {| delta := Some {| Upstream.content := text; tool_calls := tcs' |};
                     finish_reason := fr |} :: others;
       usage := u |}.
Proof. reflexivity. Qed.

Lemma before_done_app (l1 l2 : list string) :
  before_done (l1 ++ l2) =
  if has_done l1 then before_done l1 else l1 ++ before_done l2.
Proof.
  induction l1 as [|l l1 IH]; [done|].
  change ((l :: l1) ++ l2) with (l :: (l1 ++ l2)).
  unfold has_done. cbn [before_done existsb].
  destruct (is_done l); [done|]. cbn [orb]. fold (has_done l1). rewrite IH.
  by destruct (has_done l1).
Qed.

Lemma before_done_no_data (lines : list string) :
  Forall (λ l, data_payload l = None) lines →
  omap data_payload (before_done lines) = [].
Proof.
  induction 1 as [|l ls Hl Hls IH]; [done|].
  cbn [before_done]. unfold is_done. rewrite Hl. cbn [omap list_omap].
  by rewrite Hl.
Qed.

(** The handler folds [collectData] over the chunks it reads. *)
Lemma collect_fold (a : Acc) (buffer : string) (chunks : list string) :
  collect a buffer chunks =
  foldl collectData a
    (omap JSON_parse (omap data_payload (lines_read buffer chunks))).
Proof.
  revert a buffer. induction chunks as [|chunk chunks IH]; intros a buffer; [done|].
  cbn [Aggregate.collect lines_read].
  fold (complete (buffer +:+ Buffer.toString chunk)).
  fold (partial (buffer +:+ Buffer.toString chunk)).
  by rewrite IH, collectLines_fold, !omap_app, foldl_app.
Qed.

(** When no data line follows [[DONE]], the data lines read are those of
    the decoded text before [[DONE]], however the stream was cut. *)
Lemma lines_read_decoded (buffer : string) (chunks : list string) :
  one_line buffer = true →
  done_is_last (complete (buffer +:+ decoded chunks)) →
  omap data_payload (lines_read buffer chunks) =
  omap data_payload (before_done (complete (buffer +:+ decoded chunks))).
Proof.
  revert buffer. induction chunks as [|chunk chunks IH]; intros buffer Hbuf Hlast.
  - by rewrite decoded_nil, append_nil_r, complete_one_line.
  - revert Hlast. rewrite decoded_cons, append_assoc, complete_app.
    unfold done_is_last. rewrite after_done_app, before_done_app.
    cbn [lines_read]. rewrite omap_app.
    destruct (has_done (complete (buffer +:+ Buffer.toString chunk))) eqn:Hd;
      intros Hlast.
    + apply Forall_app in Hlast as [_ Hrest].
      rewrite IH; [|apply partial_one_line|by apply after_done_suffix].
      rewrite (before_done_no_data
                 (complete (partial (buffer +:+ Buffer.toString chunk) +:+ decoded chunks)))
        by done.
      apply app_nil_r.
    + rewrite IH; [|apply partial_one_line|done].
      rewrite omap_app. f_equal. f_equal.
      clear -Hd. induction (complete _) as [|l ls IHl]; [done|].
      unfold has_done in Hd. cbn [existsb] in Hd.
      apply orb_false_iff in Hd as [Hl Hls]. cbn [before_done]. rewrite Hl.
      f_equal. by apply IHl.
Qed.

(** The message, in terms of the chunks the handler reads.  For every
    stream and every way of cutting it into chunks, the message returned
    has exactly one text block, holding the concatenation, in order, of the
    [delta.content] of the chunks read; nothing else of a chunk, its tool
    calls in particular, reaches the text.  The stop reason is the last
    finish reason read, with ["stop"] turned into ["end_turn"] and every
    other reason, ["tool_calls"] included, left as it is; without any
    finish reason it is ["end_turn"].  When no data line follows [[DONE]],
    the chunks read are those of all the data lines of the decoded text
    before [[DONE]], whatever the chunking. *)
Theorem aggregate_message (cs : list string) (messageId modelName : string) :
  let chunks := chunks_read JSON_parse cs in
  let m := aggregateResponse JSON_parse cs messageId modelName in
  content m = [text_block (aggregate_text chunks)] ∧
  stop_reason m = aggregate_stop chunks ∧
  (last (omap finish_of chunks) = None → stop_reason m = "end_turn") ∧
  (last (omap finish_of chunks) = Some "stop" → stop_reason m = "end_turn") ∧
  (∀ r, last (omap finish_of chunks) = Some r → r ≠ "stop" → stop_reason m = r) ∧
  (last (omap finish_of chunks) = Some "tool_calls" → stop_reason m = "tool_calls") ∧
  (done_is_last (complete (decoded cs)) →
   chunks = payload_chunks JSON_parse (complete (decoded cs))).
Proof.
  cbn zeta.
  assert (Hstop : stop_reason (aggregateResponse JSON_parse cs messageId modelName)
                  = aggregate_stop (chunks_read JSON_parse cs)).
  { unfold aggregateResponse, chunks_read. cbn [stop_reason].
    rewrite collect_fold, fold_collectData_stop.
    unfold aggregate_stop. by destruct (last _). }
  split; [|split; [exact Hstop|]].
  - unfold aggregateResponse, chunks_read. cbn [content].
    by rewrite collect_fold, fold_collectData_text.
  - rewrite Hstop. unfold aggregate_stop. repeat split.
    + by intros ->.
    + by intros ->.
    + intros r -> Hr. apply String.eqb_neq in Hr. by rewrite Hr.
    + by intros ->.
    + intros Hlast. unfold chunks_read, payload_chunks.
      by rewrite (lines_read_decoded "" cs eq_refl Hlast).
Qed.

(** The streams of the wire contract are such streams: their payloads are
    collected whatever the chunking. *)
Lemma wire_done_is_last (ps : list string) :
  Forall (λ p, one_line p = true) ps → Forall (λ p, p ≠ "[DONE]") ps →
  done_is_last (complete (wire ps)) ∧
  omap data_payload (before_done (complete (wire ps))) = ps.
Proof.
  intros Hl Hd. rewrite complete_wire by done. unfold done_is_last.
  induction Hl as [|p ps Hp Hps IH]; inversion Hd as [|? ? Hpd Hpsd]; subst.
  - split; [by repeat constructor|done].
  - destruct (IH Hpsd) as [IH1 IH2].
    cbn [framed_lines flat_map app after_done before_done].
    assert (Hnd : is_done ("data: " +:+ p) = false).
    { unfold is_done. change (data_payload ("data: " +:+ p)) with (Some p).
      by apply String.eqb_neq. }
    rewrite Hnd. change (is_done "") with false. cbv iota.
    split; [exact IH1|].
    cbn [omap list_omap]. change (data_payload ("data: " +:+ p)) with (Some p).
    change (data_payload "") with (@None string). cbv iota. f_equal. exact IH2.
Qed.

(** C10 on the code.  The event
    [data: {"choices":[{"delta":{"content":"é"}}]}] delivered in one chunk
    gives a message whose text block holds [é], the [delta.content] of the
    stream.  Delivered in two chunks cut between the two bytes of [é], each
    chunk is decoded on its own, both halves become U+FFFD, and the text
    block holds two replacement characters, which are the concatenation of
    no [delta.content] the upstream sent. *)
Theorem aggregate_cut_inside_character (messageId modelName : string) :
  JSON_parse (content_payload e_acute) = Some (text_chunk e_acute) →
  JSON_parse (content_payload (Buffer.REPLACEMENT +:+ Buffer.REPLACEMENT)) =
    Some (text_chunk (Buffer.REPLACEMENT +:+ Buffer.REPLACEMENT)) →
  cut_chunk1 +:+ cut_chunk2 = sse (content_payload e_acute) ∧
  content (aggregateResponse JSON_parse [cut_chunk1 +:+ cut_chunk2] messageId modelName) =
    [text_block e_acute] ∧
  content (aggregateResponse JSON_parse [cut_chunk1; cut_chunk2] messageId modelName) =
    [text_block (Buffer.REPLACEMENT +:+ Buffer.REPLACEMENT)].
Proof.
  intros Hgood Hbad. split; [by vm_compute|].
  assert (Htext : ∀ cs p t,
            omap data_payload (lines_read "" cs) = [p] →
            JSON_parse p = Some (text_chunk t) →
            content (aggregateResponse JSON_parse cs messageId modelName) =
            [text_block t]).
  { intros cs p t Hp Ht.
    unfold aggregateResponse. cbn [content].
    rewrite collect_fold, fold_collectData_text, Hp.
    cbn [omap list_omap]. rewrite Ht. cbn [omap list_omap].
    unfold aggregate_text, content_of. cbn. done. }
  split.
  - apply (Htext _ (content_payload e_acute)); [by vm_compute|exact Hgood].
  - apply (Htext _ (content_payload (Buffer.REPLACEMENT +:+ Buffer.REPLACEMENT)));
      [by vm_compute|exact Hbad].
Qed.

(** The chunking also decides what is read of a stream that, against the
    upstream's contract, carries data after [[DONE]]: the [break] at
    [[DONE]] leaves the loop over the lines of one chunk, not the loop over
    the chunks, so the data line after [[DONE]] is skipped when it arrives
    in the same chunk and collected when it arrives in the next. *)
Lemma aggregate_data_after_done (messageId modelName : string) :
  JSON_parse (content_payload "late") = Some (text_chunk "late") →
  content (aggregateResponse JSON_parse
             [sse "[DONE]" +:+ sse (content_payload "late")] messageId modelName) =
    [text_block ""] ∧
  content (aggregateResponse JSON_parse
             [sse "[DONE]"; sse (content_payload "late")] messageId modelName) =
    [text_block "late"].
Proof.
  intros Hlate. unfold aggregateResponse. cbn [content].
  rewrite !collect_fold, !fold_collectData_text. split.
  - replace (omap data_payload
               (lines_read "" [sse "[DONE]" +:+ sse (content_payload "late")]))
      with (@nil string) by (by vm_compute).
    reflexivity.
  - replace (omap data_payload
               (lines_read "" [sse "[DONE]"; sse (content_payload "late")]))
      with [content_payload "late"] by (by vm_compute).
    cbn [omap list_omap]. rewrite Hlate. cbn [omap list_omap].
    unfold aggregate_text, content_of. cbn. done.
Qed.

End AggregateFacts.

(** ** The theorems at concrete inputs *)

(** C1 with three callers, the discovery document arriving between the
    second and the third: one discovery request, one grant with the
    refresh token, one promise for all. *)
Lemma getToken_coalesces_three_callers :
  let w := AuthSpec.logged_in "rt-1" in
  let w' := Auth.run AuthSpec.three_callers w in
  AuthSpec.outstanding w' 0 Auth.AwaitPost ∧
  Auth.network w' =
    [Auth.GetDiscovery;
     Auth.PostRefresh (Auth.token_endpoint AuthSpec.discovery_doc) "rt-1"] ∧
  Auth.discoveries w' = 1%nat ∧
  Auth.refreshPosts w' = 1%nat ∧
  Auth.calls w' = [(1, Auth.Awaits 0); (2, Auth.Awaits 0); (3, Auth.Awaits 0)]%nat ∧
  ∀ e, AuthSpec.settles w' 0 e →
    ∃ r, Forall (λ co, Auth.delivered (Auth.step e w') co.2 = Some r)
           (AuthSpec.awaiting 0 [1; 2; 3]%nat) ∧
         (∀ data now, e = Auth.TokenReply 0 (Auth.Ok data) now →
            r = Auth.Resolved (Js.or_else (Auth.access_token data) "")) ∧
         (∀ f, AuthSpec.fails_with w' 0 e f → AuthSpec.token_rejected f →
            r = Auth.Rejected Auth.REFRESH_TOKEN_EXPIRED) ∧
         (∀ f, AuthSpec.fails_with w' 0 e f → ¬ AuthSpec.token_rejected f →
            r = Auth.Rejected (Auth.REFRESH_FAILED f)) ∧
         Auth.calls (Auth.step e w') = Auth.calls w' ∧
         Auth.network (Auth.step e w') = Auth.network w' ∧
         AuthSpec.idle (Auth.step e w').
Proof.
  apply (getToken_coalesces (AuthSpec.logged_in "rt-1") "rt-1" 0 AuthSpec.three_callers).
  - split; reflexivity.
  - reflexivity.
  - discriminate.
  - reflexivity.
  - repeat constructor; cbn; lia.
  - discriminate.
Defined.

(** C3 at an [invalid_grant] reply and at a 502 reply to the discovery
    request of a refresh. *)
Lemma refresh_failure_policy_examples :
  let w := Auth.run [Auth.GetToken 1 0] (AuthSpec.logged_in "rt-1") in
  Auth.isAuthenticated
    (Auth.tm (Auth.step (Auth.DiscoveryReply 0 (Auth.Err AuthSpec.invalid_grant)) w))
  = false ∧
  Auth.refreshToken
    (Auth.tm (Auth.step (Auth.DiscoveryReply 0 (Auth.Err AuthSpec.bad_gateway)) w))
  = Some "rt-1".
Proof.
  pose (w := Auth.run [Auth.GetToken 1 0] (AuthSpec.logged_in "rt-1")).
  split.
  - apply (proj1 (refresh_failure_policy w 0
                    (Auth.DiscoveryReply 0 (Auth.Err AuthSpec.invalid_grant))
                    AuthSpec.invalid_grant
                    (or_introl (conj eq_refl eq_refl)))).
    split; [reflexivity | left; reflexivity].
  - apply (proj2 (refresh_failure_policy w 0
                    (Auth.DiscoveryReply 0 (Auth.Err AuthSpec.bad_gateway))
                    AuthSpec.bad_gateway
                    (or_introl (conj eq_refl eq_refl)))).
    intros [H _]. discriminate H.
Defined.

(** C5 at a session created at time 0 and a callback eleven minutes later. *)
Lemma callback_ignores_session_age_example :
  let c := Pkce.createAuthUrl Sha256.sha256 (Pkce.OCA_CONFIG Spec.empty_config)
             Spec.local_callback 0 0 Spec.zeros ∅ in
  Pkce.created_at (Pkce.new_session c) = 0%Z ∧
  (Callback.consumeCallback (Pkce.new_state c) "code-1" (Pkce.states_after c)).1
  = inr {| Callback.x_code := "code-1";
           Callback.x_code_verifier := Pkce.code_verifier (Pkce.new_session c);
           Callback.x_redirect_uri := Spec.local_callback |}.
Proof.
  apply (callback_ignores_session_age Sha256.sha256 (Pkce.OCA_CONFIG Spec.empty_config)
           Spec.local_callback 0 660000 Spec.zeros ∅ "code-1").
  reflexivity.
Defined.

(** C7 with a login and a callback for another state in between. *)
Lemma callback_state_single_use_example :
  let cfg := Pkce.OCA_CONFIG Spec.empty_config in
  let c := Pkce.createAuthUrl Sha256.sha256 cfg Spec.local_callback 0 0 Spec.zeros ∅ in
  let s := Pkce.new_state c in
  let between := [ Spec.Login Spec.local_callback 5 5 (Spec.one_at 100);
                   Spec.CallbackRequest (Spec.callback_query "other" "code-2") ] in
  let after_first := (Callback.consumeCallback s "code-1" (Pkce.states_after c)).2 in
  after_first !! s = None ∧
  Callback.consumeCallback s "code-1" (Spec.table_run Sha256.sha256 cfg after_first between)
  = (inl Callback.InvalidOrExpiredState,
     Spec.table_run Sha256.sha256 cfg after_first between).
Proof.
  apply (callback_state_single_use Sha256.sha256 (Pkce.OCA_CONFIG Spec.empty_config)).
  repeat constructor.
  - by vm_compute.
  - intros [].
Defined.

(** C2 at the payloads of the example, the stream cut in the middle of its
    first line. *)
Lemma stream_hi_there_example :
  Stream.streamAnthropicResponse Wire.hi_there_parse
    (Wire.cut_at 20 (Wire.wire Wire.hi_there)) "msg_1" "oca/gpt-4.1"
  = [ Stream.message_start "msg_1" "oca/gpt-4.1";
      Stream.content_block_start_text 0;
      Stream.text_delta 0 "Hi";
      Stream.text_delta 0 " there";
      Stream.content_block_stop 0;
      Stream.message_delta "end_turn" 0;
      Stream.message_stop;
      Stream.message_stop ].
Proof.
  apply (stream_hi_there Wire.hi_there_parse
           (Wire.cut_at 20 (Wire.wire Wire.hi_there))
           (Wire.content_payload "Hi") (Wire.content_payload " there")
           (Wire.finish_payload "stop")); by vm_compute.
Defined.

(** C4 with a parser that reads both texts. *)
Lemma stream_cut_inside_character_example :
  Stream.streamAnthropicResponse Wire.e_acute_parse
    [Wire.cut_chunk1 +:+ Wire.cut_chunk2] "msg_1" "oca/gpt-4.1"
  = [ Stream.message_start "msg_1" "oca/gpt-4.1";
      Stream.content_block_start_text 0;
      Stream.text_delta 0 Wire.e_acute ] ∧
  Stream.streamAnthropicResponse Wire.e_acute_parse
    [Wire.cut_chunk1; Wire.cut_chunk2] "msg_1" "oca/gpt-4.1"
  = [ Stream.message_start "msg_1" "oca/gpt-4.1";
      Stream.content_block_start_text 0;
      Stream.text_delta 0 (Buffer.REPLACEMENT +:+ Buffer.REPLACEMENT) ].
Proof.
  apply (proj2 (stream_cut_inside_character Wire.e_acute_parse "msg_1" "oca/gpt-4.1"
                  eq_refl eq_refl)).
Defined.

(** C10 with a parser that reads both texts. *)
Lemma aggregate_cut_inside_character_example :
  Aggregate.content
    (Aggregate.aggregateResponse Wire.e_acute_parse
       [Wire.cut_chunk1 +:+ Wire.cut_chunk2] "msg_1" "oca/gpt-4.1")
  = [Aggregate.text_block Wire.e_acute] ∧
  Aggregate.content
    (Aggregate.aggregateResponse Wire.e_acute_parse
       [Wire.cut_chunk1; Wire.cut_chunk2] "msg_1" "oca/gpt-4.1")
  = [Aggregate.text_block (Buffer.REPLACEMENT +:+ Buffer.REPLACEMENT)].
Proof.
  apply (proj2 (aggregate_cut_inside_character Wire.e_acute_parse "msg_1" "oca/gpt-4.1"
                  eq_refl eq_refl)).
Defined.

(** The message at the payloads of the specification's example: the text,
    the stop reason, and the chunks read from the stream cut in the middle
    of its first line. *)
Lemma aggregate_message_example :
  let cs := Wire.cut_at 20 (Wire.wire Wire.hi_there) in
  let m := Aggregate.aggregateResponse Wire.hi_there_parse cs "msg_1" "oca/gpt-4.1" in
  Aggregate.content m = [Aggregate.text_block "Hi there"] ∧
  Aggregate.stop_reason m = "end_turn" ∧
  Wire.chunks_read Wire.hi_there_parse cs
  = [Wire.text_chunk "Hi"; Wire.text_chunk " there"; Wire.finish_chunk "stop"].
Proof.
  pose proof (aggregate_message Wire.hi_there_parse
                (Wire.cut_at 20 (Wire.wire Wire.hi_there)) "msg_1" "oca/gpt-4.1") as H.
  destruct H as (Hc & _ & _ & Hs & _ & _ & Hw).
  split; [exact Hc|]. split.
  - apply Hs. reflexivity.
  - rewrite Hw; [reflexivity|].
    unfold Wire.done_is_last. vm_compute. repeat constructor.
Defined.

(** ** The token manager over whole runs *)
Section AuthRuns.
Import Auth AuthSpec.

Lemma run_cons (e : Event) (es : list Event) (w : World) :
  run (e :: es) w = run es (step e w).
Proof. reflexivity. Qed.

Lemma run_invariant (P : World → Prop) :
  (∀ e w, P w → P (step e w)) → ∀ es w, P w → P (run es w).
Proof.
  intros Hstep es. induction es as [|e es IH]; intros w Hw; [exact Hw|].
  rewrite run_cons. apply IH, Hstep, Hw.
Qed.

Lemma settle_in_sync (p : nat) (r : Result) (w : World) :
  tokenFile w = refreshToken (tm w) →
  tokenFile (settle p r w) = refreshToken (tm (settle p r w)).
Proof. intros H. exact H. Qed.

Lemma catch_in_sync (p : nat) (f : Failure) (w : World) :
  tokenFile w = refreshToken (tm w) →
  tokenFile (doRefreshToken_catch p f w) =
  refreshToken (tm (doRefreshToken_catch p f w)).
Proof.
  intros H. unfold doRefreshToken_catch.
  destruct (refreshTokenRejected f); [reflexivity|exact H].
Qed.

Lemma step_in_sync (e : Event) (w : World) :
  tokenFile w = refreshToken (tm w) →
  tokenFile (step e w) = refreshToken (tm (step e w)).
Proof.
  intros H. destruct e as [c now|p r|p r now|token|]; cbn [step].
  - unfold getToken.
    destruct (negb (Js.truthy_opt (refreshToken (tm w)))); [exact H|].
    destruct (cachedTokenValid (tm w) now); [exact H|].
    destruct (refreshPromise (tm w)); exact H.
  - destruct (pending w !! p) as [[|]|]; try exact H.
    unfold doRefreshToken_discovered. destruct r as [d|f].
    + destruct (refreshToken (tm w)) as [rt|] eqn:E.
      * destruct (Js.truthy rt); [cbn; by rewrite E|]. apply catch_in_sync. by rewrite E.
      * apply catch_in_sync. by rewrite E.
    + by apply catch_in_sync.
  - destruct (pending w !! p) as [[|]|]; try exact H.
    unfold doRefreshToken_refreshed. destruct r as [data|f].
    + cbn. destruct (refresh_token data) as [rt|]; cbn; [|exact H].
      destruct rt as [|c rt]; cbn; [exact H|].
      case_bool_decide; cbn; [reflexivity|exact H].
    + by apply catch_in_sync.
  - reflexivity.
  - reflexivity.
Qed.

Lemma token_file_in_sync_run (file : option string) (es : list Event) :
  tokenFile (run es (boot file)) = refreshToken (tm (run es (boot file))).
Proof.
  apply (run_invariant (λ w, tokenFile w = refreshToken (tm w))).
  - intros e w. apply step_in_sync.
  - reflexivity.
Qed.

(** X1.  The refresh token in the token file is the refresh token the
    manager holds: from start-up on, whatever calls, replies, logins and
    logouts follow, [TOKEN_FILE] and [this.refreshToken] agree, so a
    process started then resumes with the refresh token in use and is
    authenticated exactly if this one is. *)
Theorem token_file_in_sync (file : option string) (es : list Event) :
  let w := run es (boot file) in
  tokenFile w = refreshToken (tm w) ∧
  refreshToken (tm (boot (tokenFile w))) = refreshToken (tm w) ∧
  isAuthenticated (tm (boot (tokenFile w))) = isAuthenticated (tm w).
Proof.
  cbn zeta. pose proof (token_file_in_sync_run file es) as H.
  assert (Hboot : ∀ f, refreshToken (tm (boot f)) = f) by reflexivity.
  split; [exact H|]. unfold isAuthenticated. by rewrite Hboot, H.
Qed.

(** The manager after a successful refresh, as [getToken] finds it. *)
Lemma refreshed_state (w : World) (p : nat) (data : TokenResponse) (now : Z) :
  pending w !! p = Some AwaitPost →
  Js.truthy_opt (refreshToken (tm w)) = true →
  let w' := step (TokenReply p (Ok data) now) w in
  Js.truthy_opt (refreshToken (tm w')) = true ∧
  accessToken (tm w') = access_token data ∧
  tokenExpiry (tm w') =
    Some (Js.Date_new (now + Js.or_elseZ (expires_in data) 3600 * 1000)) ∧
  refreshPromise (tm w') = None ∧
  nextPromise w' = nextPromise w ∧
  network w' = network w.
Proof.
  intros Hp Hrt. cbn zeta. cbn [step]. rewrite Hp. unfold doRefreshToken_refreshed.
  cbn. repeat split.
  destruct (Js.truthy_opt (refresh_token data)) eqn:E; [|exact Hrt].
  cbn. by case_bool_decide.
Qed.

(** A call that finds no usable access token and no refresh outstanding
    starts one. *)
Lemma getToken_refreshes (w : World) (later : Z) :
  Js.truthy_opt (refreshToken (tm w)) = true →
  refreshPromise (tm w) = None →
  cachedTokenValid (tm w) later = false →
  (getToken later w).1 = Awaits (nextPromise w) ∧
  network (getToken later w).2 = network w ++ [GetDiscovery].
Proof.
  intros Hrt Hrp Hc. unfold getToken. by rewrite Hrt, Hc, Hrp.
Qed.

(** X3.  An access token obtained by a refresh at [now] is served from the
    cache for as long as more than five minutes of its lifetime
    ([expires_in], or 3600 seconds) are left, and from then on the next
    call starts a new refresh; with a lifetime of 300 seconds or less it is
    never served from the cache.  Nor is it when its expiry lies beyond
    the range of a [Date], 8.64e15 ms on either side of the epoch: the
    expiry is an invalid date then, and every call starts a new refresh. *)
Theorem cache_window (w : World) (p : nat) (data : TokenResponse) (token : string)
    (now later : Z) :
  pending w !! p = Some AwaitPost →
  Js.truthy_opt (refreshToken (tm w)) = true →
  access_token data = Some token → token ≠ "" →
  Js.clock now →
  let w' := step (TokenReply p (Ok data) now) w in
  let lifetime := Js.or_elseZ (expires_in data) 3600 in
  ((Z.abs (now + lifetime * 1000) ≤ Js.MAX_TIME)%Z →
   (later < now + (lifetime - 300) * 1000)%Z →
     getToken later w' = (Returns token, w')) ∧
  ((now + (lifetime - 300) * 1000 ≤ later)%Z →
     (getToken later w').1 = Awaits (nextPromise w) ∧
     network (getToken later w').2 = network w ++ [GetDiscovery]) ∧
  ((lifetime ≤ 300)%Z → (now ≤ later)%Z →
     (getToken later w').1 = Awaits (nextPromise w)) ∧
  ((Js.MAX_TIME < Z.abs (now + lifetime * 1000))%Z →
     (getToken later w').1 = Awaits (nextPromise w) ∧
     network (getToken later w').2 = network w ++ [GetDiscovery]).
Proof.
  intros Hp Hrt Hat Htok _. cbn zeta.
  destruct (refreshed_state w p data now Hp Hrt) as (Hrt' & Hat' & Hex' & Hrp' & Hnp' & Hnet').
  cbn zeta in Hrt', Hat', Hex', Hrp', Hnp', Hnet'.
  set (w' := step (TokenReply p (Ok data) now) w) in *.
  set (lifetime := Js.or_elseZ (expires_in data) 3600) in *.
  assert (Htruthy : Js.truthy_opt (Some token) = true) by (by destruct token).
  assert (Hvalid : cachedTokenValid (tm w') later =
                   match Js.getTime (Js.Date_new (now + lifetime * 1000)) with
                   | Some ms => (300 * 1000 <? ms - later)%Z
                   | None => false
                   end).
  { unfold cachedTokenValid. by rewrite Hat', Hat, Htruthy, Hex'. }
  assert (Hstart : cachedTokenValid (tm w') later = false →
            (getToken later w').1 = Awaits (nextPromise w) ∧
            network (getToken later w').2 = network w ++ [GetDiscovery]).
  { intros Hc. rewrite <- Hnp', <- Hnet'. by apply getToken_refreshes. }
  assert (Hlate : (now + (lifetime - 300) * 1000 ≤ later)%Z →
            cachedTokenValid (tm w') later = false).
  { intros Hle. rewrite Hvalid. unfold Js.Date_new.
    destruct (Z.abs _ <=? Js.MAX_TIME)%Z; [|done]. cbn. apply Z.ltb_ge. lia. }
  split; [|split; [|split]].
  - intros Hrange Hlt. unfold getToken. rewrite Hrt', Hvalid. cbn [negb].
    unfold Js.Date_new. rewrite (proj2 (Z.leb_le _ _) Hrange). cbn [Js.getTime].
    rewrite (proj2 (Z.ltb_lt _ _)) by lia.
    rewrite Hat', Hat. by destruct token.
  - intros Hle. by apply Hstart, Hlate.
  - intros Hshort Hle. apply Hstart, Hlate. lia.
  - intros Hrange. apply Hstart. rewrite Hvalid. unfold Js.Date_new.
    by rewrite (proj2 (Z.leb_gt _ _) Hrange).
Qed.

(** X4.  A logout that comes in while the refresh-token grant is on its way
    does not last: when the reply carries a refresh token, the manager
    takes it and writes it to the token file, and the process is
    authenticated again; when it carries none, the access token is cached
    but [getToken] keeps throwing "Not authenticated". *)
Theorem logout_during_refresh_is_undone (w : World) (p : nat)
    (data : TokenResponse) (now later : Z) :
  pending w !! p = Some AwaitPost →
  let w' := run [ClearAuth; TokenReply p (Ok data) now] w in
  accessToken (tm w') = access_token data ∧
  (Js.truthy_opt (refresh_token data) = true →
     refreshToken (tm w') = refresh_token data ∧
     tokenFile w' = refresh_token data ∧
     isAuthenticated (tm w') = true) ∧
  (Js.truthy_opt (refresh_token data) = false →
     refreshToken (tm w') = None ∧
     tokenFile w' = None ∧
     getToken later w' = (Throws NOT_AUTHENTICATED, w')).
Proof.
  intros Hp. cbn zeta. unfold run. cbn [foldl step clearAuth pending].
  rewrite Hp. unfold doRefreshToken_refreshed. cbn.
  split; [reflexivity|]. split; intros Hrt.
  - rewrite Hrt. cbn.
    destruct (refresh_token data) as [rt|] eqn:E; [|discriminate Hrt].
    rewrite bool_decide_eq_true_2 by discriminate. cbn in Hrt |- *.
    rewrite Hrt. unfold isAuthenticated. cbn. done.
  - rewrite Hrt. cbn. repeat split.
Qed.

Lemma idle_stays_logged_out (e : Event) (w : World) :
  (∀ token, e ≠ SetRefreshToken token) →
  idle w → refreshToken (tm w) = None →
  idle (step e w) ∧ refreshToken (tm (step e w)) = None ∧
  tokenFile (step e w) = (match e with ClearAuth => None | _ => tokenFile w end) ∧
  network (step e w) = network w ∧
  calls (step e w) = calls w ++ map (λ c, (c, Throws NOT_AUTHENTICATED)) (callers [e]).
Proof.
  intros Hne [Hrp Hpend] Hrt. destruct e as [c now|p r|p r now|token|]; cbn [step].
  - unfold getToken. rewrite Hrt. cbn. repeat split; done.
  - rewrite Hpend, lookup_empty. cbn. rewrite app_nil_r. repeat split; done.
  - rewrite Hpend, lookup_empty. cbn. rewrite app_nil_r. repeat split; done.
  - by destruct (Hne token).
  - cbn. rewrite app_nil_r. repeat split; done.
Qed.

Lemma logged_out_run (w : World) (es : list Event) :
  ∀ (seen : list nat) (w0 : World),
  Forall (λ e, ∀ token, e ≠ SetRefreshToken token) es →
  idle w0 → refreshToken (tm w0) = None → tokenFile w0 = None →
  network w0 = network w →
  calls w0 = calls w ++ map (λ c, (c, Throws NOT_AUTHENTICATED)) seen →
  refreshToken (tm (run es w0)) = None ∧ tokenFile (run es w0) = None ∧
  isAuthenticated (tm (run es w0)) = false ∧
  network (run es w0) = network w ∧
  calls (run es w0) =
    calls w ++ map (λ c, (c, Throws NOT_AUTHENTICATED)) (seen ++ callers es).
Proof.
  induction es as [|e es IH]; intros seen w0 Hes Hi Hrt Hf Hn Hc.
  - cbn. rewrite app_nil_r. repeat split; try done.
    unfold isAuthenticated. by rewrite Hrt.
  - apply Forall_cons in Hes as [He Hes].
    destruct (idle_stays_logged_out e w0 He Hi Hrt) as (Hi' & Hrt' & Hf' & Hn' & Hc').
    rewrite run_cons.
    replace (seen ++ callers (e :: es)) with ((seen ++ callers [e]) ++ callers es).
    + apply IH; try done.
      * rewrite Hf'. by destruct e.
      * congruence.
      * rewrite Hc', Hc, map_app. by rewrite app_assoc.
    + rewrite <- app_assoc. f_equal. unfold callers. by destruct e.
Qed.

(** X5.  With no refresh in flight, a logout lasts until the next login:
    every later [getToken] call throws "Not authenticated" at once, no
    request is sent, and no stray reply brings a token back. *)
Theorem logout_lasts_when_idle (w : World) (es : list Event) :
  idle w →
  Forall (λ e, ∀ token, e ≠ SetRefreshToken token) es →
  let w' := run es (step ClearAuth w) in
  refreshToken (tm w') = None ∧
  tokenFile w' = None ∧
  isAuthenticated (tm w') = false ∧
  network w' = network w ∧
  calls w' = calls w ++ map (λ c, (c, Throws NOT_AUTHENTICATED)) (callers es).
Proof.
  intros [Hrp Hpend] Hes. cbn zeta.
  apply (logged_out_run w es [] (step ClearAuth w) Hes); cbn; try done.
  by rewrite app_nil_r.
Qed.

End AuthRuns.

(** ** Token failures, as the routes report them *)
Section FailureReplies.
Import Auth AuthSpec Api.

Lemma includes_cons_ne (c d : ascii) (s pat : string) :
  Ascii.eqb d c = false →
  JsText.includes (String c s) (String d pat) = JsText.includes s (String d pat).
Proof. intros H. cbn [JsText.includes Js.startsWith]. by rewrite H. Qed.

Lemma REFRESH_FAILED_mentions (f : Failure) :
  JsText.includes (REFRESH_FAILED f) "Not authenticated" =
    JsText.includes (Js.or_else (Auth.message f) "unknown error") "Not authenticated" ∧
  JsText.includes (REFRESH_FAILED f) "Refresh token expired" =
    JsText.includes (Js.or_else (Auth.message f) "unknown error") "Refresh token expired".
Proof.
  unfold REFRESH_FAILED.
  split; repeat (rewrite append_cons, includes_cons_ne by reflexivity);
    by rewrite append_nil.
Qed.

Lemma REFRESH_FAILED_authenticationRequired (f : Failure) :
  authenticationRequired (Error (REFRESH_FAILED f)) =
  JsText.includes (Js.or_else (Auth.message f) "unknown error") "Not authenticated" ||
  JsText.includes (Js.or_else (Auth.message f) "unknown error") "Refresh token expired".
Proof.
  unfold authenticationRequired. cbn [Api.message Error].
  destruct (REFRESH_FAILED_mentions f) as [-> ->].
  reflexivity.
Qed.

(** X6.  How a failure of [getToken] reaches the client.  A missing refresh
    token is answered 401 by the routes models, models/full,
    chat/completions, responses and messages, and 500 by completions and
    embeddings.  A refresh the identity provider rejects (400 with
    [invalid_grant] or [invalid_token]) is answered 401 by models/full,
    chat/completions, responses and messages, and 500 by models,
    completions and embeddings.  Any other failed refresh whose message
    names neither "Not authenticated" nor "Refresh token expired" is
    answered 500 by every route, whatever status the identity provider
    sent. *)
Theorem token_failure_status (w : World) :
  (∀ now msg, (getToken now w).1 = Throws msg →
     http_status (modelsFull_catch (Error msg)) = 401%Z ∧
     http_status (models_catch (Error msg)) = 401%Z ∧
     http_status (chatCompletions_catch (Error msg)) = 401%Z ∧
     http_status (responses_catch (Error msg)) = 401%Z ∧
     http_status (completions_catch (Error msg)) = 500%Z ∧
     http_status (embeddings_catch (Error msg)) = 500%Z ∧
     http_status (messages_catch (Error msg)) = 401%Z) ∧
  (∀ p e f, fails_with w p e f →
     ∃ msg, settled (step e w) !! p = Some (Rejected msg) ∧
       (token_rejected f →
          http_status (modelsFull_catch (Error msg)) = 401%Z ∧
          http_status (models_catch (Error msg)) = 500%Z ∧
          http_status (chatCompletions_catch (Error msg)) = 401%Z ∧
          http_status (responses_catch (Error msg)) = 401%Z ∧
          http_status (completions_catch (Error msg)) = 500%Z ∧
          http_status (embeddings_catch (Error msg)) = 500%Z ∧
          http_status (messages_catch (Error msg)) = 401%Z) ∧
       (¬ token_rejected f →
        authenticationRequired
          (Error (Js.or_else (Auth.message f) "unknown error")) = false →
          http_status (modelsFull_catch (Error msg)) = 500%Z ∧
          http_status (models_catch (Error msg)) = 500%Z ∧
          http_status (chatCompletions_catch (Error msg)) = 500%Z ∧
          http_status (responses_catch (Error msg)) = 500%Z ∧
          http_status (completions_catch (Error msg)) = 500%Z ∧
          http_status (embeddings_catch (Error msg)) = 500%Z ∧
          http_status (messages_catch (Error msg)) = 500%Z)).
Proof.
  split.
  - intros now msg. unfold getToken.
    destruct (negb (Js.truthy_opt (refreshToken (tm w)))).
    + cbn. intros [= <-]. by vm_compute.
    + destruct (cachedTokenValid (tm w) now); [discriminate|].
      destruct (refreshPromise (tm w)); discriminate.
  - intros p e f Hf. rewrite (step_fails_with _ _ _ _ Hf).
    destruct (decide (token_rejected f)) as [Hr|Hr].
    + exists REFRESH_TOKEN_EXPIRED. rewrite catch_rejected by done.
      split; [apply lookup_insert_eq|]. split; [|done].
      intros _. by vm_compute.
    + exists (REFRESH_FAILED f). rewrite catch_other by done.
      split; [apply lookup_insert_eq|]. split; [done|].
      intros _ Hm.
      assert (Ha : authenticationRequired (Error (REFRESH_FAILED f)) = false).
      { rewrite REFRESH_FAILED_authenticationRequired.
        unfold authenticationRequired in Hm. cbn [Api.message Error] in Hm.
        destruct (Js.or_else (Auth.message f) "unknown error") eqn:E; [|exact Hm].
        by destruct (Auth.message f) as [[|]|]. }
      assert (Hn : JsText.includes (REFRESH_FAILED f) "Not authenticated" = false).
      { rewrite REFRESH_FAILED_authenticationRequired in Ha.
        apply orb_false_iff in Ha as [Ha _].
        by rewrite (proj1 (REFRESH_FAILED_mentions f)). }
      unfold modelsFull_catch, models_catch, chatCompletions_catch, responses_catch,
        completions_catch, embeddings_catch, messages_catch.
      rewrite Ha. cbn [Api.message Error]. rewrite Hn.
      by cbn.
Qed.

End FailureReplies.

(** ** The login round trip *)
Section LoginFacts.
Import Node Decode Pkce Auth Callback Login Spec.

Variable sha256 : string → string.

Lemma createAuthUrl_url cfg uri t1 t2 g states :
  let c := createAuthUrl sha256 cfg uri t1 t2 g states in
  url c =
    oca_idcs_url cfg +:+ "/oauth2/v1/authorize?" +:+
    "client_id=" +:+ form_encode (client_id cfg) +:+
    "&response_type=code" +:+
    "&scope=" +:+ form_encode (scopes cfg) +:+
    "&redirect_uri=" +:+ form_encode uri +:+
    "&state=" +:+ new_state c +:+
    "&nonce=" +:+ nonce (new_session c) +:+
    "&code_challenge=" +:+ generateCodeChallenge sha256 (code_verifier (new_session c)) +:+
    "&code_challenge_method=S256".
Proof.
  cbn zeta.
  transitivity
    (oca_idcs_url cfg +:+ "/oauth2/v1/authorize?" +:+
     URLSearchParams_toString
       (authParams cfg uri (base64url (take_bytes 24 (advance 96 g)))
          (base64url (take_bytes 24 (advance 128 g)))
          (base64url (sha256 (base64url (take_bytes 96 g)))))); [reflexivity|].
  unfold URLSearchParams_toString, authParams, Js.join.
  cbn [map String.concat fst snd].
  rewrite !form_encode_base64url.
  by rewrite <- !append_assoc.
Qed.

Lemma exchange_body cfg (code codeVerifier redirectUri : string) :
  URLSearchParams_toString (exchangeParams cfg code codeVerifier redirectUri) =
  "grant_type=authorization_code" +:+
  "&code=" +:+ form_encode code +:+
  "&redirect_uri=" +:+ form_encode redirectUri +:+
  "&client_id=" +:+ form_encode (client_id cfg) +:+
  "&code_verifier=" +:+ form_encode codeVerifier.
Proof.
  unfold URLSearchParams_toString, exchangeParams, Js.join.
  cbn [map String.concat fst snd].
  by rewrite <- !append_assoc.
Qed.

(** X7.  The PKCE round trip.  The token request that follows a login's
    callback carries the code verifier whose SHA-256 challenge the
    authorization URL of that login carried, and the same redirect URI: a
    callback with the state of a login and a code starts the exchange, and
    the form posted to the token endpoint is [grant_type=authorization_code],
    the code, the login's redirect URI, the client id and the login's
    128-character verifier, in this order. *)
Theorem exchange_carries_login_verifier (cfg : OcaConfig) (protocol : string)
    (host : option string) (now_sweep now_store : Z) (g : Entropy)
    (states : gmap string PkceState) (code : string) (d : Discovery)
    (post : Post → Reply TokenResponse) :
  code ≠ "" →
  let c := login sha256 cfg protocol host now_sweep now_store g states in
  let uri := redirectUriOf protocol host in
  let verifier := code_verifier (new_session c) in
  String.length verifier = 128%nat ∧
  url c =
    oca_idcs_url cfg +:+ "/oauth2/v1/authorize?" +:+
    "client_id=" +:+ form_encode (client_id cfg) +:+
    "&response_type=code" +:+
    "&scope=" +:+ form_encode (scopes cfg) +:+
    "&redirect_uri=" +:+ form_encode uri +:+
    "&state=" +:+ new_state c +:+
    "&nonce=" +:+ nonce (new_session c) +:+
    "&code_challenge=" +:+ generateCodeChallenge sha256 verifier +:+
    "&code_challenge_method=S256" ∧
  ∃ x,
    (callback_begin (callback_query (new_state c) code) (states_after c)).1 = inr x ∧
    (exchangeCodeForTokens cfg (x_code x) (x_code_verifier x) (x_redirect_uri x)
       (Ok d) post).1 =
      Some {| endpoint := token_endpoint d;
              body := "grant_type=authorization_code" +:+
                      "&code=" +:+ form_encode code +:+
                      "&redirect_uri=" +:+ form_encode uri +:+
                      "&client_id=" +:+ form_encode (client_id cfg) +:+
                      "&code_verifier=" +:+ verifier |}.
Proof.
  intros Hcode. cbn zeta. unfold login.
  set (uri := redirectUriOf protocol host).
  set (c := createAuthUrl sha256 cfg uri now_sweep now_store g states).
  assert (Hve : code_verifier (new_session c) = base64url (take_bytes 96 g))
    by reflexivity.
  assert (Hlook : states_after c !! new_state c = Some (new_session c)).
  { subst c. rewrite createAuthUrl_states_after. cbn zeta.
    rewrite createAuthUrl_state. apply lookup_insert_eq. }
  split.
  { rewrite Hve. by rewrite (base64url_length 32) by apply take_bytes_length. }
  split; [apply createAuthUrl_url|].
  exists {| x_code := code; x_code_verifier := code_verifier (new_session c);
            x_redirect_uri := uri |}.
  split.
  { rewrite callback_begin_consumes; [| |exact Hcode].
    - by rewrite (consumeCallback_found _ _ _ _ Hlook).
    - subst c. rewrite createAuthUrl_state. apply stateOf_nonempty. }
  cbn [exchangeCodeForTokens fst x_code x_code_verifier x_redirect_uri].
  rewrite exchange_body. do 2 f_equal.
  rewrite Hve at 1. by rewrite form_encode_base64url.
Qed.

(** X8.  What a login does to the table of pending sessions: the new
    session is stored under its state, every other session created less
    than ten minutes before the login, or exactly ten minutes before, is
    kept as it is, and every older one is removed. *)
Theorem createAuthUrl_sessions (cfg : OcaConfig) (uri : string)
    (now_sweep now_store : Z) (g : Entropy) (states : gmap string PkceState)
    (s : string) :
  let c := createAuthUrl sha256 cfg uri now_sweep now_store g states in
  (s = new_state c → states_after c !! s = Some (new_session c)) ∧
  (s ≠ new_state c →
     states_after c !! s =
     match states !! s with
     | Some d =>
         if decide (created_at d < now_sweep - 600000)%Z then None else Some d
     | None => None
     end) ∧
  (∀ d, s ≠ new_state c → states !! s = Some d →
        created_at d = (now_sweep - 600000)%Z → states_after c !! s = Some d).
Proof.
  cbn zeta. rewrite createAuthUrl_states_after, createAuthUrl_state. cbn zeta.
  assert (Hother : stateOf g ≠ s →
    <[stateOf g := new_session (createAuthUrl sha256 cfg uri now_sweep now_store g states)]>
      (cleanupExpiredStates now_sweep states) !! s =
    match states !! s with
    | Some d =>
        if decide (created_at d < now_sweep - 600000)%Z then None else Some d
    | None => None
    end).
  { intros Hne. rewrite lookup_insert_ne by done.
    rewrite cleanupExpiredStates_lookup.
    destruct (states !! s) as [d|]; [|done].
    unfold TTL_MS. repeat case_decide; try done; lia. }
  split; [|split].
  - intros ->. apply lookup_insert_eq.
  - intros Hne. by apply Hother.
  - intros d Hne Hs Hage. rewrite Hother by done. rewrite Hs.
    case_decide; [lia|done].
Qed.

(** X9.  The outcomes of [GET /callback].  Before the exchange, the handler
    answers 400 and leaves the table of sessions as it is, unless the query
    has no [error], a code, and the state of a stored session: then that
    session is taken out of the table and its verifier and redirect URI go
    into the exchange.  After the exchange, it answers "Login Successful"
    and hands the refresh token to the token manager when there is one, and
    otherwise answers 500 and leaves the token manager as it is. *)
Theorem callback_outcomes (q : Query) (states : gmap string PkceState)
    (r : Reply TokenResponse) (w : World) :
  let begun := callback_begin q states in
  let finished := callback_finish r w in
  (∀ page, begun.1 = inl page → statusCode page = 400%Z ∧ begun.2 = states) ∧
  (∀ x, begun.1 = inr x →
     Js.truthy_opt (q_error q) = false ∧
     ∃ s session,
       q_state q = Some s ∧ q_code q = Some (x_code x) ∧
       states !! s = Some session ∧
       x_code_verifier x = code_verifier session ∧
       x_redirect_uri x = redirect_uri session ∧
       begun.2 = delete s states) ∧
  (∀ tokens t, r = Ok tokens → refresh_token tokens = Some t → t ≠ "" →
     finished = (LoginSuccessful, setRefreshToken t w) ∧
     refreshToken (tm finished.2) = Some t ∧ tokenFile finished.2 = Some t ∧
     accessToken (tm finished.2) = None) ∧
  ((∀ tokens, r = Ok tokens → Js.truthy_opt (refresh_token tokens) = false) →
     statusCode finished.1 = 500%Z ∧ finished.2 = w).
Proof.
  cbn zeta. unfold callback_begin, callback_finish.
  split; [|split; [|split]].
  - intros page. destruct (Js.truthy_opt (q_error q)); [by intros [= <-]|].
    destruct (q_code q) as [code|]; [|by intros [= <-]].
    destruct (q_state q) as [s|]; [|by intros [= <-]].
    destruct (negb (Js.truthy code) || negb (Js.truthy s)); [by intros [= <-]|].
    unfold consumeCallback, getPkceState.
    destruct (states !! s); [discriminate|]. by intros [= <-].
  - intros x. destruct (Js.truthy_opt (q_error q)); [discriminate|].
    destruct (q_code q) as [code|]; [|discriminate].
    destruct (q_state q) as [s|]; [|discriminate].
    destruct (negb (Js.truthy code) || negb (Js.truthy s)); [discriminate|].
    unfold consumeCallback, getPkceState, removePkceState.
    destruct (states !! s) as [session|] eqn:Hs; [|discriminate].
    cbn. intros [= <-]. split; [done|]. by exists s, session.
  - intros tokens t -> -> Ht. by destruct t.
  - intros Hnone. destruct r as [token|f]; [|done].
    specialize (Hnone token eq_refl).
    destruct (refresh_token token) as [t|]; [|done].
    cbn in Hnone. by rewrite Hnone.
Qed.

End LoginFacts.

(** ** The guard, the resolver and the configuration routes *)
Section GuardFacts.
Import Guard Terms.

(** X10.  The loopback guard lets a request through exactly when its
    remote address is [::1], [127.0.0.1] or [::ffff:127.0.0.1], or when
    the first [X-Forwarded-For] value it sends is [127.0.0.1] or [::1]; so
    a request from any address passes once it carries the header
    [X-Forwarded-For: 127.0.0.1], and one whose header value lists further
    addresses after it does not. *)
Theorem localhostOnly_admits (ip : option string) (fwd : option HeaderValue) :
  (localhostOnly ip fwd = Next ↔
     ip = Some "::1" ∨ ip = Some "127.0.0.1" ∨ ip = Some "::ffff:127.0.0.1" ∨
     first_value fwd = Some "127.0.0.1" ∨ first_value fwd = Some "::1") ∧
  localhostOnly ip (Some (One "127.0.0.1")) = Next ∧
  localhostOnly (Some "203.0.113.7") (Some (One "127.0.0.1, 203.0.113.7")) = Forbidden.
Proof.
  assert (Hip : ∀ a, a ≠ "" → Js.or_else ip "" = a ↔ ip = Some a).
  { intros a Ha. destruct ip as [[|c s]|]; cbn; split; congruence. }
  assert (Hfwd : ∀ v, v ≠ "" →
            match fwd with
            | Some (Several vs) => Js.or_else (head vs) ""
            | Some (One v) => Js.or_else (Some v) ""
            | None => ""
            end = v ↔ first_value fwd = Some v).
  { intros v Hv. destruct fwd as [[[|c s]|[|[|c s] rest]]|]; cbn; split; congruence. }
  split; [|split].
  - unfold localhostOnly, allowed. cbn [existsb].
    destruct (String.eqb_spec (Js.or_else ip "") "::1") as [E1|E1];
      [apply Hip in E1; [tauto|done]|].
    destruct (String.eqb_spec (Js.or_else ip "") "127.0.0.1") as [E2|E2];
      [apply Hip in E2; [tauto|done]|].
    destruct (String.eqb_spec (Js.or_else ip "") "::ffff:127.0.0.1") as [E3|E3];
      [apply Hip in E3; [tauto|done]|].
    cbn [orb].
    rewrite Hip in E1, E2, E3 by done.
    match goal with |- context [String.eqb ?x "127.0.0.1"] => set (fwdStr := x) in * end.
    destruct (String.eqb_spec fwdStr "127.0.0.1") as [F1|F1];
      [apply Hfwd in F1; [tauto|done]|].
    destruct (String.eqb_spec fwdStr "::1") as [F2|F2];
      [apply Hfwd in F2; [tauto|done]|].
    cbn [orb]. rewrite Hfwd in F1, F2 by done.
    split; [done|tauto].
  - unfold localhostOnly.
    by destruct (existsb (String.eqb (Js.or_else ip "")) allowed).
  - reflexivity.
Qed.

End GuardFacts.

Section ResolverInvariants.
Import Config ModelResolver Spec Terms Api ConfigApi.

Lemma resolved_upstream (cfg : ProxyConfig) (requestModel : string) :
  maps_to_upstream cfg →
  JsText.is_inherited requestModel = false →
  ∃ m, ModelResolver.model (resolveModelMapping cfg requestModel) = Some m ∧
       upstream_name m = true.
Proof.
  intros [Hmap Hdef] Hin. unfold resolveModelMapping.
  destruct (Js.startsWith requestModel "oca/") eqn:E; [by eexists|].
  assert (Hfall : upstream_name
            (Js.or_else (default_model cfg) DEFAULT_OCA_MODEL) = true).
  { destruct (default_model cfg) as [d|] eqn:Ed; [|reflexivity].
    cbn. destruct d; [reflexivity|]. by apply Hdef. }
  pose proof (Hmap requestModel) as He. unfold entryOf in He.
  destruct (model_mapping cfg) as [table|]; cbn in He |- *; [|by eexists].
  unfold get. rewrite Hin.
  destruct (table !! requestModel) as [[t|m]|]; cbn.
  - destruct t; cbn; [by eexists|]. eexists. split; [done|]. by apply (He (MapsTo _)).
  - eexists. split; [done|]. by apply (He (MapsToObj _)).
  - by eexists.
Qed.

Section Routes.
Context {Rest Msgs Json Num : Type}.
Variable JSON_stringify : Json → string.
Variable json_truthy : Json → bool.
Variable empty_object : Json.

(** X11.  With a configuration whose mapping targets and default model are
    all [oca/] names, every model the resolver returns is an [oca/] name,
    for every requested name that objects do not inherit; resolving the
    result again gives it back; and so the requests that
    [POST /v1/chat/completions], [POST /v1/responses] and
    [POST /v1/messages] send upstream all name an [oca/] model. *)
Theorem upstream_requests_name_upstream_models (cfg : ProxyConfig) :
  maps_to_upstream cfg →
  (∀ requestModel, JsText.is_inherited requestModel = false →
     ∃ m, ModelResolver.model (resolveModelMapping cfg requestModel) = Some m ∧
          upstream_name m = true ∧
          resolveModelMapping cfg m =
            {| ModelResolver.model := Some m; effort := None |}) ∧
  (∀ body : Api.Body Rest Msgs,
     JsText.is_inherited (default "undefined" (Api.model body)) = false →
     ∃ m, Api.model (chatCompletions cfg body).1 = Some m ∧ upstream_name m = true) ∧
  (∀ body : Api.Body Rest Msgs,
     JsText.is_inherited (default "undefined" (Api.model body)) = false →
     ∃ m, Api.model (responses cfg body).1 = Some m ∧ upstream_name m = true) ∧
  (∀ body : RequestTranscoder.Body Json Num,
     JsText.is_inherited
       (Js.or_else (RequestTranscoder.model _ _ body) "claude-3-5-sonnet-20241022") = false →
     ∃ m, RequestTranscoder.o_model _ _
            (RequestTranscoder.anthropicToOpenAI Json JSON_stringify json_truthy
               empty_object Num cfg body) = Some m ∧
          upstream_name m = true).
Proof.
  intros Hcfg. split; [|split; [|split]].
  - intros requestModel Hin.
    destruct (resolved_upstream cfg requestModel Hcfg Hin) as (m & Hm & Hup).
    exists m. split; [exact Hm|]. split; [exact Hup|].
    unfold upstream_name in Hup.
    unfold resolveModelMapping. by rewrite Hup.
  - intros body Hin. by apply resolved_upstream.
  - intros body Hin.
    destruct (resolved_upstream cfg _ Hcfg Hin) as (m & Hm & Hup).
    exists m. split; [|exact Hup].
    rewrite <- Hm. unfold responses. cbn [fst Api.model]. by repeat case_match.
  - intros body Hin. by apply resolved_upstream.
Qed.

End Routes.

(** X12.  The configuration in memory is the configuration on disk: after
    start-up and any sequence of [POST /api/config] requests, [proxyConfig]
    equals what [loadProxyConfig] would load, so a restart changes nothing;
    it never has a [default_reasoning_effort], whatever the configuration
    file says; the default model [GET /api/config] shows is the model the
    resolver falls back to; and a reasoning effort the resolver returns
    always comes from an object entry of the mapping table. *)
Theorem config_in_memory_is_config_on_disk (raw : ProxyConfig)
    (us : list (Update * bool)) :
  let s := posts us (startup raw) in
  proxyConfig s = loadProxyConfig (onDisk s) ∧
  default_reasoning_effort (proxyConfig s) = None ∧
  Some (shown_default_model (getConfig s)) =
    ModelResolver.model (fallbackOf (proxyConfig s)) ∧
  (∀ requestModel e,
     effort (resolveModelMapping (proxyConfig s) requestModel) = Some e →
     ∃ m, entryOf (proxyConfig s) requestModel = Some (MapsToObj m) ∧
          Config.reasoning_effort m = Some e).
Proof.
  cbn zeta.
  assert (H : proxyConfig (posts us (startup raw)) =
              loadProxyConfig (onDisk (posts us (startup raw))))
    by (by apply posts_loaded).
  set (s := posts us (startup raw)) in *.
  assert (Hdre : default_reasoning_effort (proxyConfig s) = None) by (by rewrite H).
  split; [exact H|]. split; [exact Hdre|]. split.
  - unfold getConfig, fallbackOf. by rewrite <- H.
  - intros requestModel e. unfold resolveModelMapping, entryOf.
    destruct (Js.startsWith requestModel "oca/"); [discriminate|].
    destruct (model_mapping (proxyConfig s)) as [table|]; cbn; [|by rewrite Hdre].
    unfold get.
    destruct (table !! requestModel) as [[t|m]|]; cbn -[JsText.is_inherited].
    + destruct (Js.truthy t); cbn; [discriminate|]. by rewrite Hdre.
    + intros He. by exists m.
    + destruct (JsText.is_inherited requestModel); cbn; [discriminate|].
      by rewrite Hdre.
Qed.

Section ResponsesFacts.
Context {Rest Msgs : Type}.

(** X13.  What [POST /v1/responses] sends upstream: [stream] is always
    set, and is [false] only when the client said [false]; a non-zero
    [max_output_tokens] never goes upstream, it becomes [max_tokens]; the
    messages of the client, when they are truthy, are forwarded as they
    are, and so is the input; and a request whose messages are missing or
    falsy ([""], [0], [false], [null]) keeps them only when its [input] is
    missing or falsy too: otherwise it goes upstream with exactly one user
    message, which holds the text of the input, and without the [input]. *)
Theorem responses_upstream_body (cfg : ProxyConfig) (body : Api.Body Rest Msgs) :
  let out := (responses cfg body).1 in
  let isStreaming := (responses cfg body).2 in
  Api.stream out = Some isStreaming ∧
  (isStreaming = false ↔ Api.stream body = Some false) ∧
  (∀ n, Api.max_output_tokens out = Some n → n = 0%Z) ∧
  (∀ n, Api.max_output_tokens body = Some n → n ≠ 0%Z → Api.max_tokens out = Some n) ∧
  (truthy_messages (Api.messages body) = true →
     Api.messages out = Api.messages body ∧ Api.input out = Api.input body) ∧
  (truthy_messages (Api.messages body) = false →
     match Api.input body with
     | Some i =>
         if truthy_input i
         then Api.messages out = Some (OneUserMessage (inputText i)) ∧
              Api.input out = None
         else Api.messages out = Api.messages body ∧ Api.input out = Some i
     | None => Api.messages out = Api.messages body ∧ Api.input out = None
     end).
Proof.
  destruct body as [m re st ms i mot mt r].
  cbn zeta. unfold responses, mapModel.
  cbn [fst snd Api.stream Api.messages Api.input Api.max_output_tokens Api.max_tokens].
  split; [by repeat case_match|]. split.
  { by rewrite negb_false_iff, bool_decide_eq_true. }
  destruct (truthy_messages ms) eqn:Hms; destruct i as [i|];
    try destruct (truthy_input i) eqn:Hti;
    cbn [negb andb Api.messages Api.input Api.max_output_tokens Api.max_tokens];
    destruct mot as [n|]; try destruct (Js.truthyZ n) eqn:Hz;
    cbn [Api.messages Api.input Api.max_output_tokens Api.max_tokens];
    try (apply negb_false_iff, Z.eqb_eq in Hz; subst n);
    repeat split; try done; try congruence;
    try (intros ? [= <-]; done); try (intros ? [= <-] ?; done).
Qed.

End ResponsesFacts.
End ResolverInvariants.

(** ** The request transcoder, block by block *)
Section TranscoderFacts.
Import Config RequestTranscoder Shape.

Context {Json Num : Type}.
Variable JSON_stringify : Json → string.
Variable json_truthy : Json → bool.
Variable empty_object : Json.

Local Abbreviation transcode :=
  (anthropicToOpenAI Json JSON_stringify json_truthy empty_object Num).
Local Abbreviation convert :=
  (convertMessage Json JSON_stringify json_truthy empty_object).
Local Abbreviation callsOf :=
  (toolCallsOf Json JSON_stringify json_truthy empty_object).

Lemma omap_filter_known {B} (f : Block Json → option B) (bs : list (Block Json)) :
  (∀ type, f (OtherBlock type) = None) →
  omap f (List.filter known bs) = omap f bs.
Proof.
  intros Hf. induction bs as [|b bs IH]; [reflexivity|].
  destruct b; cbn; rewrite ?Hf, ?IH; reflexivity.
Qed.

Lemma convert_known (r : string) (c : Content Json) :
  convert {| role := r; content := known_content c |} =
  convert {| role := r; content := c |}.
Proof.
  destruct c as [s|bs]; [reflexivity|].
  unfold convertMessage, known_content. cbn [content role].
  unfold textsOf, toolCallsOf, toolResultsOf.
  by rewrite !omap_filter_known.
Qed.

Lemma systemMessage_known (sys : option (Content Json)) :
  systemMessage Json (known_content <$> sys) = systemMessage Json sys.
Proof.
  destruct sys as [[s|bs]|]; try reflexivity.
  cbn. unfold textsOf. by rewrite omap_filter_known.
Qed.

(** X15.  Blocks of a type other than [text], [tool_use] and
    [tool_result] (images, documents, thinking, ...) have no effect on the
    upstream request: the request with all of them removed, from the
    system prompt and from every message, is transcoded to the same
    upstream request. *)
Theorem other_blocks_are_dropped (cfg : ProxyConfig) (body : Body Json Num) :
  transcode cfg (known_only body) = transcode cfg body.
Proof.
  unfold anthropicToOpenAI, known_only.
  cbn [system messages model tools tool_choice max_tokens temperature top_p].
  rewrite systemMessage_known. f_equal. f_equal.
  destruct (messages Json Num body) as [msgs|]; [|reflexivity].
  change (concat (map convert (map (λ m : Message Json, {| role := role Json m; content := known_content (content Json m) |}) msgs)) = concat (map convert msgs)). rewrite map_map. f_equal.
  apply map_ext. intros [r c]. apply convert_known.
Qed.

(** X14.  A conversation of plain-string messages goes upstream as it is:
    after the system message, one upstream message for each message of the
    request, in the same order, with the same role and the same content,
    and with no tool calls. *)
Theorem plain_conversation_passes_through (cfg : ProxyConfig) (body : Body Json Num)
    (msgs : list (Message Json)) :
  messages _ _ body = Some msgs →
  Forall (λ m, is_Some (flat_text m)) msgs →
  o_messages _ _ (transcode cfg body) =
  systemMessage Json (system _ _ body) ++
  map (λ m, {| out_role := role _ m; out_content := flat_text m;
               out_tool_calls := None; out_tool_call_id := None |}) msgs.
Proof.
  intros Hm Hflat. unfold anthropicToOpenAI. cbn [o_messages]. rewrite Hm.
  cbn [default]. f_equal. clear Hm. unfold id.
  induction msgs as [|m ms IH]; [reflexivity|].
  apply Forall_cons in Hflat as [[s Hs] Hflat].
  cbn [map concat]. rewrite (IH Hflat).
  unfold flat_text in Hs |- *. unfold convertMessage.
  destruct (content Json m); [|discriminate]. reflexivity.
Qed.

Lemma calls_of_convert (m : Message Json) :
  flat_map (λ o, map (λ c, (call_id c, call_name c)) (default [] (out_tool_calls o)))
    (convert m) =
  tool_uses_of (content _ m).
Proof.
  unfold convertMessage, tool_uses_of. destruct (content Json m) as [s|bs]; [reflexivity|].
  rewrite flat_map_app.
  assert (Hres : flat_map
            (λ o, map (λ c, (call_id c, call_name c)) (default [] (out_tool_calls o)))
            (toolResultsOf Json bs) = []).
  { unfold toolResultsOf. induction bs as [|b bs IH]; [reflexivity|].
    destruct b; exact IH. }
  rewrite Hres. cbn [app]. clear Hres.
  assert (Hcalls : map (λ c, (call_id c, call_name c)) (callsOf bs) =
                   omap (λ b, match b with
                              | ToolUse i n _ => Some (i, n)
                              | _ => None
                              end) bs).
  { unfold toolCallsOf. induction bs as [|b bs IH]; [reflexivity|].
    destruct b; try exact IH. cbn. f_equal. exact IH. }
  rewrite <- Hcalls.
  destruct (callsOf bs) as [|c cs] eqn:E.
  - by destruct (Js.truthy_opt _ || _).
  - rewrite orb_true_r. cbn. by rewrite app_nil_r.
Qed.

(** X16.  Tool calls keep their identity: the tool calls of the upstream
    request are the [tool_use] blocks of the request, one for one and in
    the same order, each with the id and the name of its block; nothing
    else becomes a tool call. *)
Theorem tool_calls_are_the_tool_uses (cfg : ProxyConfig) (body : Body Json Num) :
  tool_calls (transcode cfg body) = tool_uses body.
Proof.
  unfold tool_calls, tool_uses, anthropicToOpenAI. cbn [o_messages].
  rewrite flat_map_app.
  assert (Hsys : flat_map
            (λ o, map (λ c, (call_id c, call_name c)) (default [] (out_tool_calls o)))
            (systemMessage Json (system Json Num body)) = []).
  { destruct (system Json Num body) as [[s|bs]|]; try reflexivity.
    cbn. by destruct (Js.truthy s). }
  rewrite Hsys. cbn [app].
  induction (default [] (messages Json Num body)) as [|m ms IH]; [reflexivity|].
  cbn [map concat flat_map]. rewrite flat_map_app, IH. f_equal.
  apply calls_of_convert.
Qed.

End TranscoderFacts.

(** ** The streaming transcoder, chunk by chunk *)
Section StreamChunks.
Import Upstream Stream Wire Protocol.

Variable JSON_parse : string → option Chunk.

Local Abbreviation handleLine := (Stream.handleLine JSON_parse).
Local Abbreviation handleLines := (Stream.handleLines JSON_parse).
Local Abbreviation stream := (Stream.streamAnthropicResponse JSON_parse).

Lemma decoded_app (cs cs' : list string) :
  decoded (cs ++ cs') = decoded cs +:+ decoded cs'.
Proof.
  induction cs as [|c cs IH]; [by rewrite decoded_nil|].
  cbn [app]. by rewrite !decoded_cons, IH, append_assoc.
Qed.

Lemma skipped_is_no_data (line : string) :
  negb (Js.truthy line) || Js.startsWith line ":" = true → data_payload line = None.
Proof.
  unfold data_payload. destruct line as [|c line]; [done|]. cbn [Js.truthy negb orb].
  cbn [Js.startsWith]. rewrite andb_true_r. intros <-%Ascii.eqb_eq. reflexivity.
Qed.

Lemma payload_chunks_cons (line : string) (lines : list string) :
  payload_chunks JSON_parse (line :: lines) =
  match data_payload line with
  | None => payload_chunks JSON_parse lines
  | Some p =>
      if String.eqb p "[DONE]" then []
      else match JSON_parse p with
           | Some c => c :: payload_chunks JSON_parse lines
           | None => payload_chunks JSON_parse lines
           end
  end.
Proof.
  unfold payload_chunks. cbn [before_done]. unfold is_done.
  destruct (data_payload line) as [p|] eqn:Hp.
  - destruct (String.eqb p "[DONE]"); [reflexivity|].
    cbn [omap list_omap]. rewrite Hp. cbn [omap list_omap].
    by destruct (JSON_parse p).
  - cbn [omap list_omap]. by rewrite Hp.
Qed.

Lemma has_done_cons (line : string) (lines : list string) :
  has_done (line :: lines) =
  match data_payload line with
  | Some p => String.eqb p "[DONE]" || has_done lines
  | None => has_done lines
  end.
Proof.
  unfold has_done. cbn [existsb]. unfold is_done at 1.
  by destruct (data_payload line).
Qed.

(** The lines of a batch, as the generator reads them: the chunks of the
    data lines before the first [[DONE]] line are handled in order, and
    the [[DONE]] line ends the stream. *)
Lemma handleLines_chunks (st : State) (lines : list string) :
  handleLines st lines =
  ((handleChunks st (payload_chunks JSON_parse lines)).1,
   (handleChunks st (payload_chunks JSON_parse lines)).2 ++
     (if has_done lines then [message_stop] else []),
   has_done lines).
Proof.
  revert st. induction lines as [|line lines IH]; intros st; [reflexivity|].
  rewrite payload_chunks_cons, has_done_cons.
  cbn [Stream.handleLines]. unfold Stream.handleLine.
  destruct (negb (Js.truthy line) || Js.startsWith line ":") eqn:Hskip.
  { rewrite (skipped_is_no_data _ Hskip), IH. reflexivity. }
  unfold data_payload.
  destruct (Js.startsWith line "data: ") eqn:Hd; cbn [negb].
  2:{ rewrite IH. reflexivity. }
  destruct (String.eqb (Js.slice_from 6 line) "[DONE]") eqn:He; [reflexivity|].
  cbn [orb].
  destruct (JSON_parse (Js.slice_from 6 line)) as [data|].
  - cbn [handleChunks]. destruct (handleData st data) as [st1 ev1].
    rewrite IH. destruct (handleChunks st1 _) as [st2 ev2]. cbn [fst snd].
    by rewrite app_assoc.
  - rewrite IH. reflexivity.
Qed.

Lemma stream_chunks (cs : list string) (messageId modelName : string) :
  stream cs messageId modelName =
  message_start messageId modelName ::
    (handleChunks initial (payload_chunks JSON_parse (complete (decoded cs)))).2 ++
    (if has_done (complete (decoded cs)) then [message_stop] else []).
Proof.
  unfold streamAnthropicResponse. rewrite consume_decoded by reflexivity.
  unfold events_of_text. rewrite append_nil, handleLines_chunks. reflexivity.
Qed.

(** X17.  The events of a stream, whatever its chunks: [message_start],
    then what the parsed data lines before the first [[DONE]] line
    produce, in their order, then [message_stop] when there is a [[DONE]]
    line; blank lines, comment lines, lines that are no data lines and
    data lines that do not parse produce nothing.  Nothing that follows
    the [[DONE]] line is read: chunks that arrive after it change
    nothing. *)
Theorem stream_ends_at_done (cs more : list string) (messageId modelName : string) :
  let lines := complete (decoded cs) in
  stream cs messageId modelName =
    message_start messageId modelName ::
      (handleChunks initial (payload_chunks JSON_parse lines)).2 ++
      (if has_done lines then [message_stop] else []) ∧
  (has_done lines = true →
     stream (cs ++ more) messageId modelName = stream cs messageId modelName ∧
     last (stream cs messageId modelName) = Some message_stop).
Proof.
  cbn zeta. split; [apply stream_chunks|]. intros Hdone. split.
  - rewrite !stream_chunks. rewrite decoded_app, complete_app.
    unfold payload_chunks, has_done in *.
    rewrite before_done_app, existsb_app.
    unfold has_done. by rewrite Hdone.
  - rewrite stream_chunks, Hdone.
    rewrite app_comm_cons. by rewrite last_snoc.
Qed.

(** *** Deltas and the blocks they belong to *)

Lemma announced_all_app (seen evs evs' : list Event) :
  announced_all seen (evs ++ evs') ↔
  announced_all seen evs ∧ announced_all (seen ++ evs) evs'.
Proof.
  revert seen. induction evs as [|e evs IH]; intros seen; cbn [app announced_all].
  - rewrite app_nil_r. tauto.
  - rewrite IH, <- app_assoc. cbn [app]. tauto.
Qed.

Lemma announced_all_split (seen evs : list Event) :
  announced_all seen evs →
  ∀ pre e post, evs = pre ++ e :: post → announced (seen ++ pre) e.
Proof.
  intros H pre e post ->. apply announced_all_app in H as [_ H]. apply H.
Qed.

Lemma started_more (st : State) (seen more : list Event) :
  started st seen → started st (seen ++ more).
Proof.
  intros [Ht Hc]. split.
  - intros H. apply in_or_app. left. by apply Ht.
  - intros H. destruct (Hc H) as (id & name & Hin). exists id, name.
    apply in_or_app. by left.
Qed.

Lemma handleToolCall_announced (st : State) (tc : ToolCallDelta) (seen : list Event) :
  started st seen →
  announced_all seen (handleToolCall st tc).2 ∧
  started (handleToolCall st tc).1 (seen ++ (handleToolCall st tc).2).
Proof.
  intros Hst. unfold handleToolCall.
  set (functionData := default {| fn_name := None; fn_arguments := None |}
                         (tc_function tc)).
  destruct (tc_id tc) as [[|c id]|] eqn:Hid; cbn [Js.truthy].
  - (* an empty id: no block is started *)
    destruct (fn_arguments functionData) as [args|]; [|by rewrite app_nil_r].
    destruct (currentToolCall st) as [cur|] eqn:Hcur; [|by rewrite app_nil_r].
    destruct (Js.truthy args); [|by rewrite app_nil_r].
    cbn [fst snd announced_all]. destruct Hst as [Ht Hc]. split.
    + split; [|done]. cbn. apply Hc. by rewrite Hcur.
    + split; cbn [textBlockStarted contentBlockIndex currentToolCall].
      * intros H. apply in_or_app. left. by apply Ht.
      * intros _. destruct Hc as (i & n & Hin); [by rewrite Hcur|].
        exists i, n. apply in_or_app. by left.
  - (* a new tool call *)
    set (idx := if textBlockStarted st then S (contentBlockIndex st)
                else contentBlockIndex st).
    set (closing := if textBlockStarted st
                    then [content_block_stop (contentBlockIndex st)] else []).
    assert (Hpair : (if textBlockStarted st
                     then (S (contentBlockIndex st),
                           [content_block_stop (contentBlockIndex st)])
                     else (contentBlockIndex st, [])) = (idx, closing))
      by (subst idx closing; by destruct (textBlockStarted st)).
    rewrite Hpair. cbn [currentToolCall contentBlockIndex textBlockStarted].
    assert (Hclosing : announced_all seen closing)
      by (subst closing; by destruct (textBlockStarted st)).
    destruct (fn_arguments functionData) as [[|c' args]|]; cbn [Js.truthy fst snd].
    + split; [apply announced_all_app; split; done|].
      split; cbn; [done|]. intros _. eexists _, _.
      apply in_or_app. right. apply in_or_app. right. by left.
    + split.
      * apply announced_all_app. split; [apply announced_all_app; split; done|].
        cbn. split; [|done]. eexists _, _.
        apply in_or_app. right. apply in_or_app. right. by left.
      * split; cbn; [done|]. intros _. eexists _, _.
        apply in_or_app. right. apply in_or_app. left. apply in_or_app. right. by left.
    + split; [apply announced_all_app; split; done|].
      split; cbn; [done|]. intros _. eexists _, _.
      apply in_or_app. right. apply in_or_app. right. by left.
  - (* no id: a fragment of the current call *)
    destruct (fn_arguments functionData) as [args|]; [|by rewrite app_nil_r].
    destruct (currentToolCall st) as [cur|] eqn:Hcur; [|by rewrite app_nil_r].
    destruct (Js.truthy args); [|by rewrite app_nil_r].
    cbn [fst snd announced_all]. destruct Hst as [Ht Hc]. split.
    + split; [|done]. cbn. apply Hc. by rewrite Hcur.
    + split; cbn [textBlockStarted contentBlockIndex currentToolCall].
      * intros H. apply in_or_app. left. by apply Ht.
      * intros _. destruct Hc as (i & n & Hin); [by rewrite Hcur|].
        exists i, n. apply in_or_app. by left.
Qed.

Lemma handleToolCalls_announced (st : State) (tcs : list ToolCallDelta)
    (seen : list Event) :
  started st seen →
  announced_all seen (handleToolCalls st tcs).2 ∧
  started (handleToolCalls st tcs).1 (seen ++ (handleToolCalls st tcs).2).
Proof.
  revert st seen. induction tcs as [|tc tcs IH]; intros st seen Hst.
  - cbn. by rewrite app_nil_r.
  - cbn [handleToolCalls].
    destruct (handleToolCall_announced st tc seen Hst) as [H1 H2].
    destruct (handleToolCall st tc) as [st1 ev1]. cbn [fst snd] in *.
    destruct (IH st1 (seen ++ ev1) H2) as [H3 H4].
    destruct (handleToolCalls st1 tcs) as [st2 ev2]. cbn [fst snd] in *.
    split; [by apply announced_all_app|]. by rewrite app_assoc.
Qed.

Lemma handleData_announced (st : State) (data : Chunk) (seen : list Event) :
  started st seen →
  announced_all seen (handleData st data).2 ∧
  started (handleData st data).1 (seen ++ (handleData st data).2).
Proof.
  intros Hst. unfold handleData.
  set (choice := head (choices data)).
  assert (Hfirst : ∀ st1 ev1,
    announced_all seen ev1 ∧ started st1 (seen ++ ev1) →
    let r := match choice ≫= finish_reason with
             | Some reason =>
                 if Js.truthy reason then
                   (st1, ev1 ++
                      [content_block_stop (contentBlockIndex st1);
                       message_delta (mapFinishReason reason)
                         (Js.or_elseZ (usage data ≫= completion_tokens) 0);
                       message_stop])
                 else (st1, ev1)
             | None => (st1, ev1)
             end in
    announced_all seen r.2 ∧ started r.1 (seen ++ r.2)).
  { intros st1 ev1 [Ha Hs]. cbn zeta.
    destruct (choice ≫= finish_reason) as [reason|]; [|done].
    destruct (Js.truthy reason); [|done]. cbn [fst snd]. split.
    - apply announced_all_app. split; [done|]. by cbn.
    - rewrite app_assoc. by apply started_more. }
  destruct ((choice ≫= delta) ≫= tool_calls) as [tcs|].
  - pose proof (handleToolCalls_announced st tcs seen Hst) as H.
    destruct (handleToolCalls st tcs) as [st1 ev1]. by apply Hfirst.
  - destruct ((choice ≫= delta) ≫= Upstream.content) as [text|].
    + destruct (Js.truthy text).
      * apply Hfirst. destruct Hst as [Ht Hc].
        destruct (textBlockStarted st) eqn:Hstarted.
        -- cbn [app announced_all]. split; [split; [by apply Ht|done]|].
           split; cbn [textBlockStarted contentBlockIndex currentToolCall].
           ++ intros _. apply in_or_app. left. by apply Ht.
           ++ intros H. destruct (Hc H) as (i & n & Hin). exists i, n.
              apply in_or_app. by left.
        -- cbn [app announced_all]. split.
           ++ split; [done|]. split; [|done]. cbn. apply in_or_app. right. by left.
           ++ split; cbn [textBlockStarted contentBlockIndex currentToolCall].
              ** intros _. apply in_or_app. right. by left.
              ** intros H. destruct (Hc H) as (i & n & Hin). exists i, n.
                 apply in_or_app. by left.
      * apply Hfirst. by rewrite app_nil_r.
    + apply Hfirst. by rewrite app_nil_r.
Qed.

Lemma handleChunks_announced (st : State) (cs : list Chunk) (seen : list Event) :
  started st seen →
  announced_all seen (handleChunks st cs).2 ∧
  started (handleChunks st cs).1 (seen ++ (handleChunks st cs).2).
Proof.
  revert st seen. induction cs as [|c cs IH]; intros st seen Hst.
  - cbn. by rewrite app_nil_r.
  - cbn [handleChunks].
    destruct (handleData_announced st c seen Hst) as [H1 H2].
    destruct (handleData st c) as [st1 ev1]. cbn [fst snd] in *.
    destruct (IH st1 (seen ++ ev1) H2) as [H3 H4].
    destruct (handleChunks st1 cs) as [st2 ev2]. cbn [fst snd] in *.
    split; [by apply announced_all_app|]. by rewrite app_assoc.
Qed.

(** X18.  No delta without its block: in every stream the transcoder
    writes, whatever the upstream sends, a [text_delta] for block [i]
    comes after a [content_block_start] of a text block [i], and an
    [input_json_delta] for block [i] after a [content_block_start] of a
    [tool_use] block [i]. *)
Theorem deltas_follow_their_block_start (cs : list string)
    (messageId modelName : string) (before after : list Event) (e : Event) :
  stream cs messageId modelName = before ++ e :: after →
  announced before e.
Proof.
  intros Hsplit.
  assert (Hall : announced_all [] (stream cs messageId modelName)).
  { rewrite stream_chunks. cbn [announced_all]. split; [done|].
    apply announced_all_app. split.
    - apply handleChunks_announced. split; [discriminate|done].
    - by destruct (has_done _). }
  apply (announced_all_split _ _ Hall _ _ _ Hsplit).
Qed.

(** *** Streams without text *)







(** *** The text of a stream *)











End StreamChunks.

(** ** The aggregate, beyond its text *)
Section AggregateMore.
Import Upstream Aggregate Wire Protocol.

Variable JSON_parse : string → option Chunk.

Lemma collectData_usage (a : Acc) (c : Chunk) :
  (promptTokens (collectData a c), completionTokens (collectData a c)) =
  match usage c with
  | Some u => (Js.or_elseZ (prompt_tokens u) 0, Js.or_elseZ (completion_tokens u) 0)
  | None => (promptTokens a, completionTokens a)
  end.
Proof.
  unfold collectData.
  destruct ((head (choices c) ≫= Upstream.delta) ≫= Upstream.content) as [[|ch t]|];
    destruct (head (choices c) ≫= finish_reason) as [[|ch' r]|];
    destruct (usage c); reflexivity.
Qed.

Lemma fold_collectData_usage (a : Acc) (cs : list Chunk) :
  (promptTokens (foldl collectData a cs), completionTokens (foldl collectData a cs)) =
  match last (usages cs) with
  | Some u => (Js.or_elseZ (prompt_tokens u) 0, Js.or_elseZ (completion_tokens u) 0)
  | None => (promptTokens a, completionTokens a)
  end.
Proof.
  unfold usages. revert a. induction cs as [|c cs IH]; intros a; [done|].
  cbn [foldl omap list_omap]. rewrite IH, collectData_usage.
  destruct (usage c) as [u|]; [|done].
  destruct (omap usage cs) as [|u' us] eqn:E; [done|].
  change (last (u :: u' :: us)) with (last (u' :: us)).
  destruct (last (u' :: us)) eqn:El; [done|]. by apply last_None in El.
Qed.

(** X21.  The token counts of the non-streaming reply are those of the
    last usage payload read: [input_tokens] is its [prompt_tokens] and
    [output_tokens] its [completion_tokens], each 0 when missing; both are
    0 when no chunk carried a usage payload. *)
Theorem aggregate_usage (cs : list string) (messageId modelName : string) :
  let m := aggregateResponse JSON_parse cs messageId modelName in
  match last (usages (chunks_read JSON_parse cs)) with
  | Some u =>
      input_tokens m = Js.or_elseZ (prompt_tokens u) 0 ∧
      output_tokens m = Js.or_elseZ (completion_tokens u) 0
  | None => input_tokens m = 0%Z ∧ output_tokens m = 0%Z
  end.
Proof.
  cbn zeta. unfold aggregateResponse, chunks_read.
  cbn [input_tokens output_tokens].
  pose proof (fold_collectData_usage initial
                (omap JSON_parse (omap data_payload (lines_read "" cs)))) as H.
  rewrite <- collect_fold in H.
  destruct (last (usages _)) as [u|]; by inversion H.
Qed.

(** X22.  Under the upstream's contract that no data line follows
    [[DONE]], the non-streaming reply does not depend on how the stream is
    cut into chunks: two sequences of chunks that decode to the same text
    give the same message. *)
Theorem aggregate_same_text (cs cs' : list string) (messageId modelName : string) :
  decoded cs = decoded cs' →
  done_is_last (complete (decoded cs)) →
  aggregateResponse JSON_parse cs messageId modelName =
  aggregateResponse JSON_parse cs' messageId modelName.
Proof.
  intros Heq Hlast. unfold aggregateResponse.
  rewrite (collect_decoded JSON_parse initial "" cs) by (rewrite ?append_nil; done).
  rewrite (collect_decoded JSON_parse initial "" cs')
    by (rewrite ?append_nil, <- ?Heq; done).
  by rewrite Heq.
Qed.

End AggregateMore.

(** ** Logins and successful refreshes *)
Section AuthSuccess.
Import Auth AuthSpec.

Lemma step_GetToken (c : nat) (now : Z) (w : World) :
  let w1 := (getToken now w).2 in
  tm (step (GetToken c now) w) = tm w1 ∧
  pending (step (GetToken c now) w) = pending w1 ∧
  network (step (GetToken c now) w) = network w1 ∧
  calls (step (GetToken c now) w) = calls w1 ++ [(c, (getToken now w).1)].
Proof. cbn [step]. by destruct (getToken now w). Qed.

Lemma getToken_begins (w : World) (now : Z) :
  refreshPromise (tm w) = None →
  Js.truthy_opt (refreshToken (tm w)) = true →
  cachedTokenValid (tm w) now = false →
  (getToken now w).1 = Awaits (nextPromise w) ∧
  network (getToken now w).2 = network w ++ [GetDiscovery] ∧
  pending (getToken now w).2 = <[nextPromise w := AwaitDiscovery]> (pending w) ∧
  refreshToken (tm (getToken now w).2) = refreshToken (tm w) ∧
  calls (getToken now w).2 = calls w.
Proof.
  intros Hrp Hrt Hc. unfold getToken. by rewrite Hrt, Hc, Hrp.
Qed.

Lemma discovered_posts (w : World) (p : nat) (d : Discovery) (token : string) :
  pending w !! p = Some AwaitDiscovery →
  refreshToken (tm w) = Some token → token ≠ "" →
  network (step (DiscoveryReply p (Ok d)) w) =
  network w ++ [PostRefresh (token_endpoint d) token].
Proof.
  intros Hp Hrt Htok. cbn [step]. rewrite Hp. unfold doRefreshToken_discovered.
  rewrite Hrt. by destruct token.
Qed.

(** X24.  A login takes effect at once: with no refresh in flight, the
    first [getToken] call after [setRefreshToken] serves no cached access
    token, whatever was cached before, but starts a refresh, and the grant
    that refresh posts carries the refresh token of the login.  The token
    posted is the one held when the discovery document arrives: a login
    that comes in between the call and that reply is the one whose token
    is posted. *)
Theorem login_takes_effect (w : World) (token : string) (c : nat) (now : Z)
    (d : Discovery) :
  idle w → token ≠ "" →
  let p := nextPromise w in
  let after_login := run [SetRefreshToken token; GetToken c now] w in
  calls after_login = calls w ++ [(c, Awaits p)] ∧
  network after_login = network w ++ [GetDiscovery] ∧
  network (step (DiscoveryReply p (Ok d)) after_login) =
    network w ++ [GetDiscovery; PostRefresh (token_endpoint d) token] ∧
  (Js.truthy_opt (refreshToken (tm w)) = true →
   cachedTokenValid (tm w) now = false →
   network (run [GetToken c now; SetRefreshToken token; DiscoveryReply p (Ok d)] w) =
     network w ++ [GetDiscovery; PostRefresh (token_endpoint d) token]).
Proof.
  intros [Hrp Hpend] Htok. cbn zeta.
  assert (Htruthy : Js.truthy token = true) by (by destruct token).
  unfold run. cbn [foldl].
  set (w1 := step (SetRefreshToken token) w).
  destruct (getToken_begins w1 now) as (Ho & Hn & Hpe & Hrt & Hca);
    [exact Hrp|exact Htruthy|reflexivity|].
  destruct (step_GetToken c now w1) as (Htm & Hpe' & Hn' & Hca').
  cbn zeta in Htm, Hpe', Hn', Hca'.
  split; [by rewrite Hca', Hca, Ho|]. split; [by rewrite Hn', Hn|]. split.
  - rewrite (discovered_posts _ _ _ token); [| |by rewrite Htm, Hrt|done].
    + rewrite Hn', Hn. cbn. by rewrite <- app_assoc.
    + rewrite Hpe', Hpe. apply lookup_insert_eq.
  - intros Hrt0 Hc0.
    destruct (getToken_begins w now Hrp Hrt0 Hc0) as (Ho2 & Hn2 & Hpe2 & _ & _).
    destruct (step_GetToken c now w) as (_ & Hpe2' & Hn2' & _).
    cbn zeta in Hpe2', Hn2'.
    assert (Hnet : ∀ x, network (step (SetRefreshToken token) x) = network x)
      by reflexivity.
    assert (Hpen : ∀ x, pending (step (SetRefreshToken token) x) = pending x)
      by reflexivity.
    rewrite (discovered_posts _ _ _ token); [| |reflexivity|done].
    + rewrite Hnet, Hn2', Hn2. by rewrite <- app_assoc.
    + rewrite Hpen, Hpe2', Hpe2. apply lookup_insert_eq.
Qed.

(** X25.  A successful refresh: the promise resolves with the access token
    of the reply, or with the empty string when it has none; the token is
    cached with an expiry [expires_in] seconds (3600 when missing or 0)
    after the reply, which is an invalid date when that instant lies
    beyond the range of a [Date], 8.64e15 ms on either side of the epoch;
    and a refresh token in the reply replaces the one in use, in memory and
    in the token file, while a reply without one leaves both as they
    are. *)
Theorem refresh_success (file : option string) (es : list Event) (p : nat)
    (data : TokenResponse) (now : Z) :
  let w := run es (boot file) in
  pending w !! p = Some AwaitPost →
  Js.clock now →
  let w' := step (TokenReply p (Ok data) now) w in
  let expiry := (now + Js.or_elseZ (expires_in data) 3600 * 1000)%Z in
  settled w' !! p = Some (Resolved (Js.or_else (access_token data) "")) ∧
  accessToken (tm w') = access_token data ∧
  ((Z.abs expiry ≤ Js.MAX_TIME)%Z → tokenExpiry (tm w') = Some (Js.date expiry)) ∧
  ((Js.MAX_TIME < Z.abs expiry)%Z → tokenExpiry (tm w') = Some Js.invalid_date) ∧
  refreshPromise (tm w') = None ∧
  (Js.truthy_opt (refresh_token data) = true →
     refreshToken (tm w') = refresh_token data ∧ tokenFile w' = refresh_token data) ∧
  (Js.truthy_opt (refresh_token data) = false →
     refreshToken (tm w') = refreshToken (tm w) ∧ tokenFile w' = tokenFile w).
Proof.
  cbn zeta. intros Hp _.
  pose proof (token_file_in_sync_run file es) as Hsync.
  set (w := run es (boot file)) in *.
  cbn [step]. rewrite Hp. unfold doRefreshToken_refreshed.
  cbn [settle tm settled accessToken tokenExpiry refreshPromise refreshToken tokenFile].
  split; [apply lookup_insert_eq|]. split; [reflexivity|].
  split. { intros Hr. unfold Js.Date_new. by rewrite (proj2 (Z.leb_le _ _) Hr). }
  split. { intros Hr. unfold Js.Date_new. by rewrite (proj2 (Z.leb_gt _ _) Hr). }
  split; [reflexivity|].
  split; intros Hrt; rewrite Hrt; cbn [andb]; [|done].
  destruct (refresh_token data) as [rt|] eqn:E; [|discriminate Hrt].
  cbn in Hrt. case_bool_decide as Hne.
  - cbn. split; [done|]. by rewrite Hrt.
  - cbn. by rewrite Hsync, <- Hne.
Qed.

End AuthSuccess.

(** ** Random strings and the challenge *)
Section RandomFacts.
Import Node Decode Pkce Terms.

Lemma base64url_length_any (bs : string) :
  String.length (base64url bs) = ((4 * String.length bs + 2) / 3)%nat.
Proof.
  induction bs as [|a|a b|a b c rest IH] using string_ind3; try reflexivity.
  rewrite base64url_group. cbn [String.length]. rewrite IH.
  replace (4 * S (S (S (String.length rest))) + 2)%nat
    with ((4 * String.length rest + 2) + 4 * 3)%nat by lia.
  rewrite Nat.div_add by lia. lia.
Qed.

Lemma slice_to_length (n : nat) (s : string) :
  String.length (Js.slice_to n s) = Nat.min n (String.length s).
Proof.
  revert s. induction n as [|n IH]; intros [|c s]; cbn; try reflexivity.
  by rewrite IH.
Qed.

Lemma url_safe_base64url (bs : string) : url_safe (base64url bs) = true.
Proof.
  induction bs as [|a|a b|a b c rest IH] using string_ind3; [done| | |].
  - pose proof (N_of_ascii_lt a) as Ha.
    destruct (sextet_bounds _ _ Ha Ha) as (?&_&_&_&?&_).
    cbn. by rewrite !b64_char_form_safe.
  - pose proof (N_of_ascii_lt a) as Ha. pose proof (N_of_ascii_lt b) as Hb.
    destruct (sextet_bounds _ _ Ha Hb) as (?&?&_&_&_&_).
    destruct (sextet_bounds _ _ Hb Hb) as (_&_&_&_&_&?).
    cbn. by rewrite !b64_char_form_safe.
  - pose proof (N_of_ascii_lt a) as Ha. pose proof (N_of_ascii_lt b) as Hb.
    pose proof (N_of_ascii_lt c) as Hc.
    destruct (sextet_bounds _ _ Ha Hb) as (?&?&_&_&_&_).
    destruct (sextet_bounds _ _ Hb Hc) as (_&_&?&_&_&_).
    destruct (sextet_bounds _ _ Hc Hc) as (_&_&_&?&_&_).
    rewrite base64url_group.
    cbn [url_safe]. rewrite !b64_char_form_safe by done. by rewrite IH.
Qed.

Lemma url_safe_slice_to (n : nat) (s : string) :
  url_safe s = true → url_safe (Js.slice_to n s) = true.
Proof.
  revert s. induction n as [|n IH]; intros [|c s]; cbn; try done.
  intros [-> H]%andb_true_iff. by rewrite IH.
Qed.

Lemma form_encode_url_safe (s : string) : url_safe s = true → form_encode s = s.
Proof.
  induction s as [|c s IH]; [done|]. cbn.
  intros [-> H]%andb_true_iff. by rewrite IH.
Qed.

(** The first [m] characters of an encoding depend on the first
    [bytes_kept m] bytes only. *)
Lemma slice_to_base64url_prefix (m : nat) :
  ∀ bs bs' : string,
    (bytes_kept m ≤ String.length bs)%nat → (bytes_kept m ≤ String.length bs')%nat →
    Js.slice_to (bytes_kept m) bs = Js.slice_to (bytes_kept m) bs' →
    Js.slice_to m (base64url bs) = Js.slice_to m (base64url bs').
Proof.
  induction m as [m IH] using lt_wf_ind. intros bs bs'.
  destruct m as [|[|[|[|m]]]].
  - reflexivity.
  - change (bytes_kept 1) with 1%nat.
    destruct bs as [|a [|b [|c rest]]]; cbn [String.length]; try lia;
      destruct bs' as [|a' [|b' [|c' rest']]]; cbn [String.length]; try lia;
      intros _ _ [= ->]; reflexivity.
  - change (bytes_kept 2) with 2%nat.
    destruct bs as [|a [|b [|c rest]]]; cbn [String.length]; try lia;
      destruct bs' as [|a' [|b' [|c' rest']]]; cbn [String.length]; try lia;
      intros _ _ [= -> ->]; reflexivity.
  - change (bytes_kept 3) with 3%nat.
    destruct bs as [|a [|b [|c rest]]]; cbn [String.length]; try lia;
      destruct bs' as [|a' [|b' [|c' rest']]]; cbn [String.length]; try lia.
    intros _ _ [= -> -> ->]. rewrite !base64url_group. reflexivity.
  - assert (Hk : bytes_kept (S (S (S (S m)))) = S (S (S (bytes_kept m)))).
    { unfold bytes_kept.
      replace (3 * S (S (S (S m))) + 3)%nat with ((3 * m + 3) + 3 * 4)%nat by lia.
      rewrite Nat.div_add by lia. lia. }
    rewrite Hk.
    destruct bs as [|a [|b [|c rest]]]; cbn [String.length]; try lia;
      destruct bs' as [|a' [|b' [|c' rest']]]; cbn [String.length]; try lia.
    intros Hl Hl' Heq. cbn [Js.slice_to] in Heq. injection Heq as -> -> -> Heq.
    rewrite !base64url_group. cbn [Js.slice_to]. do 4 f_equal.
    apply IH; [lia|lia|lia|exact Heq].
Qed.

Lemma slice_to_take_bytes (k n : nat) (g g' : Entropy) :
  (k ≤ n)%nat → (∀ i, (i < k)%nat → g' i = g i) →
  Js.slice_to k (take_bytes n g') = Js.slice_to k (take_bytes n g).
Proof.
  revert n g g'. induction k as [|k IH]; intros n g g' Hle Hg.
  - by destruct n.
  - destruct n as [|n]; [lia|]. cbn [take_bytes Js.slice_to].
    rewrite (Hg 0%nat) by lia. f_equal.
    apply IH; [lia|]. intros i Hi. apply Hg. lia.
Qed.

Lemma bytes_kept_le (n : nat) : (bytes_kept n ≤ n)%nat.
Proof.
  unfold bytes_kept. destruct n as [|n]; [reflexivity|].
  apply Nat.lt_succ_r, Nat.Div0.div_lt_upper_bound. lia.
Qed.

(** X26.  [generateRandomString(n)] for every length [n]: it draws [n]
    bytes and returns exactly [n] characters, all of them characters that
    need no escaping in a URL; and these characters are fixed by the first
    three of every four bytes drawn, rounded up, so the remaining quarter
    of the random bytes never reaches the result. *)
Theorem generateRandomString_any_length (n : nat) (g : Entropy) :
  let r := generateRandomString n g in
  String.length r.1 = n ∧
  url_safe r.1 = true ∧
  form_encode r.1 = r.1 ∧
  r.2 = advance n g ∧
  (∀ g', (∀ i, (i < bytes_kept n)%nat → g' i = g i) →
         (generateRandomString n g').1 = r.1).
Proof.
  cbn zeta. unfold generateRandomString, randomBytes. cbn [fst snd].
  assert (Hsafe : url_safe (Js.slice_to n (base64url (take_bytes n g))) = true)
    by apply url_safe_slice_to, url_safe_base64url.
  split; [|split; [exact Hsafe|split; [by apply form_encode_url_safe|split; [done|]]]].
  - rewrite slice_to_length, base64url_length_any, take_bytes_length.
    apply Nat.min_l. apply Nat.div_le_lower_bound; lia.
  - intros g' Hg. pose proof (bytes_kept_le n) as Hle.
    apply slice_to_base64url_prefix; rewrite ?take_bytes_length; try done.
    by apply slice_to_take_bytes.
Qed.

Lemma round_length (st : list N) (kw : N * N) :
  length (Sha256.round st kw) = length st.
Proof.
  unfold Sha256.round.
  destruct st as [|a [|b [|c [|d [|e [|f [|g [|h [|i st]]]]]]]]]; reflexivity.
Qed.

Lemma compress_length (h block : list N) :
  length (Sha256.compress h block) = length h.
Proof.
  unfold Sha256.compress.
  rewrite length_zip_with.
  assert (H : ∀ kws st, length (foldl Sha256.round st kws) = length st).
  { intros kws. induction kws as [|kw kws IH]; intros st; [done|].
    cbn [foldl]. by rewrite IH, round_length. }
  rewrite H. lia.
Qed.

Lemma digest_length (msg : list N) : length (Sha256.digest msg) = 32%nat.
Proof.
  unfold Sha256.digest.
  assert (H : ∀ bs h, length (foldl Sha256.compress h bs) = length h).
  { intros bs. induction bs as [|b bs IH]; intros h; [done|].
    cbn [foldl]. by rewrite IH, compress_length. }
  set (h := foldl Sha256.compress Sha256.H0 _).
  assert (Hh : length h = 8%nat) by (subst h; by rewrite H).
  destruct h as [|a [|b [|c [|d [|e [|f [|g [|i [|j h]]]]]]]]]; try discriminate.
  reflexivity.
Qed.

Lemma sha256_length (msg : string) : String.length (Sha256.sha256 msg) = 32%nat.
Proof.
  unfold Sha256.sha256.
  assert (H : ∀ l, String.length (string_of_list_ascii l) = length l).
  { induction l as [|c l IH]; [done|]. cbn. by rewrite IH. }
  by rewrite H, length_map, digest_length.
Qed.

(** X27.  The code challenge is what RFC 7636 asks for: for every
    verifier, 43 characters of the URL-safe alphabet, the unpadded
    base64url encoding of the 32 bytes of the SHA-256 digest, from which
    the digest can be read back. *)
Theorem generateCodeChallenge_shape (verifier : string) :
  let challenge := generateCodeChallenge Sha256.sha256 verifier in
  String.length challenge = 43%nat ∧
  url_safe challenge = true ∧
  form_encode challenge = challenge ∧
  base64url_decode challenge = Sha256.sha256 verifier.
Proof.
  cbn zeta. unfold generateCodeChallenge.
  split; [|split; [|split]].
  - by rewrite base64url_length_any, sha256_length.
  - apply url_safe_base64url.
  - apply form_encode_base64url.
  - apply base64url_roundtrip.
Qed.

End RandomFacts.

(** ** The end of the stream *)
Section StreamTail.
Import Upstream Stream Wire Protocol.

Variable JSON_parse : string → option Chunk.

Lemma one_line_app (a b : string) :
  one_line a = true → one_line b = true → one_line (a +:+ b) = true.
Proof.
  induction a as [|c a IH]; [done|]. rewrite append_cons. cbn [one_line].
  intros [-> Ha]%andb_true_iff Hb. by rewrite IH.
Qed.

Lemma complete_tail (text tail : string) :
  one_line tail = true → complete (text +:+ tail) = complete text.
Proof.
  intros Ht. rewrite complete_app.
  rewrite (complete_one_line (partial text +:+ tail)).
  - apply app_nil_r.
  - apply one_line_app; [apply partial_one_line|exact Ht].
Qed.

Lemma decoded_snoc (cs : list string) (tail : string) :
  decoded (cs ++ [tail]) = decoded cs +:+ Buffer.toString tail.
Proof.
  induction cs as [|c cs IH].
  - cbn [app]. by rewrite decoded_cons, !decoded_nil, append_nil_r.
  - cbn [app]. by rewrite !decoded_cons, IH, append_assoc.
Qed.

Lemma lines_read_tail (buffer : string) (cs : list string) (tail : string) :
  one_line buffer = true → one_line (Buffer.toString tail) = true →
  lines_read buffer (cs ++ [tail]) = lines_read buffer cs.
Proof.
  intros Hb Ht. revert buffer Hb. induction cs as [|c cs IH]; intros buffer Hb.
  - cbn [app lines_read]. rewrite complete_one_line by (by apply one_line_app).
    reflexivity.
  - cbn [app lines_read]. rewrite IH by apply partial_one_line. reflexivity.
Qed.

(** X28.  What follows the last newline of the upstream stream is never
    processed: a last line the upstream did not end with a newline, be it a
    data line or [[DONE]], is dropped by the streaming path and by the
    non-streaming path alike. *)
Theorem unterminated_last_line_is_dropped (cs : list string) (tail : string)
    (messageId modelName : string) :
  one_line (Buffer.toString tail) = true →
  streamAnthropicResponse JSON_parse (cs ++ [tail]) messageId modelName =
    streamAnthropicResponse JSON_parse cs messageId modelName ∧
  Aggregate.aggregateResponse JSON_parse (cs ++ [tail]) messageId modelName =
    Aggregate.aggregateResponse JSON_parse cs messageId modelName.
Proof.
  intros Ht. split.
  - unfold streamAnthropicResponse. rewrite !consume_decoded by reflexivity.
    unfold events_of_text. rewrite !append_nil, decoded_snoc.
    by rewrite complete_tail.
  - unfold Aggregate.aggregateResponse. rewrite !collect_fold.
    by rewrite lines_read_tail.
Qed.

End StreamTail.

(** ** The further properties at concrete inputs *)

(** X3 at a reply that comes at second 1 with a lifetime of 3600 seconds:
    the token is served at second 2, and no more at second 3301; and at a
    reply with a lifetime of 100,000,000 days: the token is not served. *)
Lemma cache_window_example :
  let w := Auth.run [Auth.GetToken 1 0; Auth.DiscoveryReply 0 (Auth.Ok AuthSpec.discovery_doc)]
             (AuthSpec.logged_in "rt-1") in
  let w' := Auth.step (Auth.TokenReply 0 (Auth.Ok AuthSpec.fresh_tokens) 1000) w in
  let endless := Auth.step (Auth.TokenReply 0 (Auth.Ok AuthSpec.endless_tokens) 1000) w in
  Auth.getToken 2000 w' = (Auth.Returns "at-1", w') ∧
  (Auth.getToken 3301000 w').1 = Auth.Awaits 1 ∧
  (Auth.getToken 2000 endless).1 = Auth.Awaits 1.
Proof.
  pose (w := Auth.run [Auth.GetToken 1 0;
                       Auth.DiscoveryReply 0 (Auth.Ok AuthSpec.discovery_doc)]
               (AuthSpec.logged_in "rt-1")).
  assert (Hclock : Js.clock 1000) by (unfold Js.clock; lia).
  split; [|split].
  - apply (proj1 (cache_window w 0 AuthSpec.fresh_tokens "at-1" 1000 2000
                    eq_refl eq_refl eq_refl ltac:(discriminate) Hclock)).
    + by vm_compute.
    + reflexivity.
  - apply (proj1 (proj2 (cache_window w 0 AuthSpec.fresh_tokens "at-1" 1000 3301000
                           eq_refl eq_refl eq_refl ltac:(discriminate) Hclock))).
    by vm_compute.
  - apply (proj2 (proj2 (proj2
             (cache_window w 0 AuthSpec.endless_tokens "at-1" 1000 2000
                eq_refl eq_refl eq_refl ltac:(discriminate) Hclock)))).
    reflexivity.
Defined.

(** X4 at a logout between the grant and its reply. *)
Lemma logout_during_refresh_example :
  let w := Auth.run [Auth.GetToken 1 0; Auth.DiscoveryReply 0 (Auth.Ok AuthSpec.discovery_doc)]
             (AuthSpec.logged_in "rt-1") in
  let w' := Auth.run [Auth.ClearAuth;
                      Auth.TokenReply 0 (Auth.Ok AuthSpec.fresh_tokens) 1000] w in
  Auth.refreshToken (Auth.tm w') = Some "rt-2" ∧ Auth.tokenFile w' = Some "rt-2" ∧
  Auth.isAuthenticated (Auth.tm w') = true.
Proof.
  pose (w := Auth.run [Auth.GetToken 1 0;
                       Auth.DiscoveryReply 0 (Auth.Ok AuthSpec.discovery_doc)]
               (AuthSpec.logged_in "rt-1")).
  apply (proj1 (proj2 (logout_during_refresh_is_undone w 0 AuthSpec.fresh_tokens 1000 0
                         eq_refl))).
  reflexivity.
Defined.

(** X5 at a logout followed by two calls and a stray reply. *)
Lemma logout_lasts_example :
  let w' := Auth.run [Auth.GetToken 1 5;
                      Auth.TokenReply 0 (Auth.Ok AuthSpec.fresh_tokens) 6;
                      Auth.GetToken 2 7]
              (Auth.step Auth.ClearAuth (AuthSpec.logged_in "rt-1")) in
  Auth.refreshToken (Auth.tm w') = None ∧
  Auth.tokenFile w' = None ∧
  Auth.isAuthenticated (Auth.tm w') = false ∧
  Auth.network w' = [] ∧
  Auth.calls w' = [(1%nat, Auth.Throws Auth.NOT_AUTHENTICATED);
                   (2%nat, Auth.Throws Auth.NOT_AUTHENTICATED)].
Proof.
  apply (logout_lasts_when_idle (AuthSpec.logged_in "rt-1")
           [Auth.GetToken 1 5;
            Auth.TokenReply 0 (Auth.Ok AuthSpec.fresh_tokens) 6;
            Auth.GetToken 2 7]).
  - split; reflexivity.
  - repeat constructor; discriminate.
Defined.

(** X24 at a login on a fresh process. *)
Lemma login_takes_effect_example :
  Auth.network
    (Auth.run [Auth.SetRefreshToken "rt-9"; Auth.GetToken 1 0;
               Auth.DiscoveryReply 0 (Auth.Ok AuthSpec.discovery_doc)]
       (Auth.boot None))
  = [Auth.GetDiscovery;
     Auth.PostRefresh (Auth.token_endpoint AuthSpec.discovery_doc) "rt-9"].
Proof.
  apply (proj1 (proj2 (proj2
           (login_takes_effect (Auth.boot None) "rt-9" 1 0 AuthSpec.discovery_doc
              (conj eq_refl eq_refl) ltac:(discriminate))))).
Defined.

(** X25 at the reply to the refresh of three callers. *)
Lemma refresh_success_example :
  let w := Auth.run AuthSpec.three_callers (Auth.boot (Some "rt-1")) in
  let w' := Auth.step (Auth.TokenReply 0 (Auth.Ok AuthSpec.fresh_tokens) 1000) w in
  Auth.settled w' !! 0%nat = Some (Auth.Resolved "at-1") ∧
  Auth.tokenExpiry (Auth.tm w') = Some (Js.date 3601000) ∧
  Auth.refreshToken (Auth.tm w') = Some "rt-2" ∧ Auth.tokenFile w' = Some "rt-2".
Proof.
  assert (Hclock : Js.clock 1000) by (unfold Js.clock; lia).
  destruct (refresh_success (Some "rt-1") AuthSpec.three_callers 0
              AuthSpec.fresh_tokens 1000 eq_refl Hclock)
    as (H1 & _ & H2 & _ & _ & H3 & _).
  split; [exact H1|]. split; [apply H2; by vm_compute|]. apply H3. reflexivity.
Defined.

(** X7 at a login on the default port. *)
Lemma exchange_carries_login_verifier_example :
  let cfg := Pkce.OCA_CONFIG Spec.empty_config in
  let c := Login.login Sha256.sha256 cfg "http" (Some "localhost:8669") 0 0 Spec.zeros ∅ in
  ∃ x,
    (Callback.callback_begin (Spec.callback_query (Pkce.new_state c) "code-1")
       (Pkce.states_after c)).1 = inr x ∧
    (Login.exchangeCodeForTokens cfg (Callback.x_code x) (Callback.x_code_verifier x)
       (Callback.x_redirect_uri x) (Auth.Ok AuthSpec.discovery_doc)
       (λ _, Auth.Ok AuthSpec.fresh_tokens)).1 =
    Some {| Login.endpoint := "https://idcs.example/oauth2/v1/token";
            Login.body :=
              "grant_type=authorization_code&code=code-1"
              +:+ "&redirect_uri=http%3A%2F%2Flocalhost%3A8669%2Fcallback"
              +:+ "&client_id=a8331954c0cf48ba99b5dd223a14c6ea"
              +:+ "&code_verifier=" +:+ Pkce.code_verifier (Pkce.new_session c) |}.
Proof.
  destruct (exchange_carries_login_verifier Sha256.sha256
              (Pkce.OCA_CONFIG Spec.empty_config) "http" (Some "localhost:8669")
              0 0 Spec.zeros ∅ "code-1" AuthSpec.discovery_doc
              (λ _, Auth.Ok AuthSpec.fresh_tokens) ltac:(discriminate))
    as (_ & _ & x & Hb & Hx).
  exists x. split; [exact Hb|]. rewrite Hx. reflexivity.
Defined.

Lemma sample_config_maps_to_upstream : Terms.maps_to_upstream Terms.sample_config.
Proof.
  split.
  - intros k e. unfold Spec.entryOf, Terms.sample_config. cbn [Config.model_mapping mbind option_bind].
    intros [[_ <-]|[_ H]]%lookup_insert_Some; [reflexivity|].
    apply lookup_insert_Some in H as [[_ <-]|[_ H]]; [reflexivity|].
    by rewrite lookup_empty in H.
  - by intros d [= <-].
Qed.

(** X11 at a configuration with two entries and a default, for a model
    that falls to the default. *)
Lemma upstream_requests_name_upstream_models_example :
  ∃ m, ModelResolver.model
         (ModelResolver.resolveModelMapping Terms.sample_config "mistral") = Some m ∧
       Terms.upstream_name m = true ∧
       ModelResolver.resolveModelMapping Terms.sample_config m =
         {| ModelResolver.model := Some m; ModelResolver.effort := None |}.
Proof.
  apply (proj1 (upstream_requests_name_upstream_models (Rest := unit) (Msgs := unit)
                  (Json := unit) (Num := unit) (λ _, "{}") (λ _, true) tt
                  Terms.sample_config sample_config_maps_to_upstream)
           "mistral" eq_refl).
Defined.

(** X14 at a conversation of two plain messages. *)
Lemma plain_conversation_example :
  let msgs : list (RequestTranscoder.Message unit) :=
    [ {| RequestTranscoder.role := "user";
         RequestTranscoder.content := RequestTranscoder.Flat "What time is it?" |};
      {| RequestTranscoder.role := "assistant";
         RequestTranscoder.content := RequestTranscoder.Flat "Noon." |} ] in
  let body : RequestTranscoder.Body unit unit :=
    {| RequestTranscoder.system := Some (RequestTranscoder.Flat "Be brief.");
       RequestTranscoder.messages := Some msgs;
       RequestTranscoder.model := None; RequestTranscoder.tools := None;
       RequestTranscoder.tool_choice := None; RequestTranscoder.max_tokens := None;
       RequestTranscoder.temperature := None; RequestTranscoder.top_p := None |} in
  map (λ m, (RequestTranscoder.out_role m, RequestTranscoder.out_content m))
    (RequestTranscoder.o_messages _ _
       (RequestTranscoder.anthropicToOpenAI unit (λ _, "{}") (λ _, true) tt unit
          Spec.empty_config body))
  = [ ("system", Some "Be brief."); ("user", Some "What time is it?");
      ("assistant", Some "Noon.") ].
Proof.
  intros msgs body.
  rewrite (plain_conversation_passes_through (λ _, "{}") (λ _, true) tt
             Spec.empty_config body msgs eq_refl).
  - reflexivity.
  - repeat constructor; by eexists.
Defined.

(** X18 at the first text delta of the example stream. *)
Lemma deltas_follow_example :
  In (Stream.content_block_start_text 0)
    [Stream.message_start "msg_1" "oca/gpt-4.1"; Stream.content_block_start_text 0].
Proof.
  apply (deltas_follow_their_block_start Wire.hi_there_parse
           [Wire.wire Wire.hi_there] "msg_1" "oca/gpt-4.1"
           [Stream.message_start "msg_1" "oca/gpt-4.1"; Stream.content_block_start_text 0]
           [Stream.text_delta 0 " there"; Stream.content_block_stop 0;
            Stream.message_delta "end_turn" 0; Stream.message_stop; Stream.message_stop]
           (Stream.text_delta 0 "Hi")).
  by vm_compute.
Defined.



(** X22 at the example stream, whole and cut in the middle of its first
    line. *)
Lemma aggregate_same_text_example :
  Aggregate.aggregateResponse Wire.hi_there_parse
    (Wire.cut_at 20 (Wire.wire Wire.hi_there)) "msg_1" "oca/gpt-4.1"
  = Aggregate.aggregateResponse Wire.hi_there_parse
      [Wire.wire Wire.hi_there] "msg_1" "oca/gpt-4.1".
Proof.
  apply (aggregate_same_text Wire.hi_there_parse).
  - by vm_compute.
  - unfold Wire.done_is_last. vm_compute. repeat constructor.
Defined.

(** X23 at the example stream, whole and cut in the middle of its first
    line. *)
Lemma stream_resplit_ascii_example :
  Stream.streamAnthropicResponse Wire.hi_there_parse
    (Wire.cut_at 20 (Wire.wire Wire.hi_there)) "msg_1" "oca/gpt-4.1"
  = Stream.streamAnthropicResponse Wire.hi_there_parse
      [Wire.wire Wire.hi_there] "msg_1" "oca/gpt-4.1".
Proof.
  apply (stream_resplit_ascii Wire.hi_there_parse).
  - repeat constructor; by vm_compute.
  - repeat constructor; by vm_compute.
  - by vm_compute.
Defined.

(** X28 at a stream whose [[DONE]] line has no line end: no [message_stop]
    is written. *)
Lemma unterminated_done_example :
  Stream.streamAnthropicResponse Wire.hi_there_parse
    ([Wire.sse (Wire.content_payload "Hi")] ++ ["data: [DONE]"]) "msg_1" "oca/gpt-4.1"
  = [ Stream.message_start "msg_1" "oca/gpt-4.1";
      Stream.content_block_start_text 0;
      Stream.text_delta 0 "Hi" ].
Proof.
  rewrite (proj1 (unterminated_last_line_is_dropped Wire.hi_there_parse
                    [Wire.sse (Wire.content_payload "Hi")] "data: [DONE]"
                    "msg_1" "oca/gpt-4.1" eq_refl)).
  reflexivity.
Defined.
